(** * ibllib camera and passive extractors: a shallow embedding

    The functions of [ibllib/io/extractors/camera.py] and
    [ibllib/io/extractors/passive_script_2.py] that align event streams are
    translated to Rocq functions.  A numpy [float64] is a primitive binary64
    float ([PrimFloat.float]), so every arithmetic operation and comparison
    rounds and treats NaN and the infinities as the Python code does; an
    integer, of Python or of numpy, is a [Z], its overflow left out.  A
    one-dimensional array is a list.  A Python exception is a value of
    [exn], and a function that may raise returns in [py], its statements in
    the order of the source.  Logging and plotting are not modelled. *)

From Stdlib Require Import String Ascii DecimalString.
From Stdlib Require Import ZArith List Bool Lia Floats.
Import ListNotations.

Set Warnings "-inexact-float".

(** ** Exceptions

    [UnspecifiedCast] is no Python exception: numpy leaves the value of a
    cast from float64 to int32 of a NaN, of an infinity or of a value out of
    range to the C compiler, and the model stops there. *)

Inductive exn : Set :=
| AssertionError
| IndexError
| KeyError
| ValueError
| OverflowError
| NameError
| UnspecifiedCast.

Inductive py (A : Type) : Type :=
| Ok (a : A)
| Raise (e : exn).

Arguments Ok {A} a.
Arguments Raise {A} e.

Definition bind {A B : Type} (c : py A) (k : A -> py B) : py B :=
  match c with
  | Ok a => k a
  | Raise e => Raise e
  end.

Declare Scope py_scope.
Delimit Scope py_scope with py.
Notation "x <- c ;; k" := (bind c (fun x => k))
  (at level 61, c at next level, right associativity) : py_scope.
Notation "' p <- c ;; k" := (bind c (fun x => match x with p => k end))
  (at level 61, p pattern, c at next level, right associativity) : py_scope.
Notation "c ;;; k" := (bind c (fun _ => k))
  (at level 61, right associativity) : py_scope.

(** [assert b] of Python: nothing when [b] holds, [AssertionError] otherwise. *)
Definition assert (b : bool) : py unit :=
  if b then Ok tt else Raise AssertionError.

(** ** Python sequences *)

Module Py.

(** [l[i]] for a Python integer [i]: a negative index counts from the end,
    an index out of range raises [IndexError]. *)
Definition index {A : Type} (l : list A) (i : Z) : py A :=
  let n := Z.of_nat (length l) in
  let j := if (i <? 0)%Z then (i + n)%Z else i in
  if ((0 <=? j) && (j <? n))%Z then
    match nth_error l (Z.to_nat j) with
    | Some a => Ok a
    | None => Raise IndexError
    end
  else Raise IndexError.

(** The bounds of the slice [l[a:b]] on a sequence of length [n], as
    [PySlice_AdjustIndices] computes them for a step of one. *)
Definition clip (n i : Z) : Z :=
  if (i <? 0)%Z then Z.max (i + n) 0 else Z.min i n.

Definition slice {A : Type} (l : list A) (a b : Z) : list A :=
  let n := Z.of_nat (length l) in
  let lo := clip n a in
  let hi := clip n b in
  firstn (Z.to_nat (hi - lo)) (skipn (Z.to_nat lo) l).

(** [l[::2]] and [l[1::2]]. *)
Fixpoint evens {A : Type} (l : list A) : list A :=
  match l with
  | [] => []
  | x :: l' =>
      x :: match l' with
           | [] => []
           | _ :: l'' => evens l''
           end
  end.

Definition odds {A : Type} (l : list A) : list A :=
  match l with
  | [] => []
  | _ :: l' => evens l'
  end.

Definition lower_ascii (c : ascii) : ascii :=
  let n := nat_of_ascii c in
  if ((65 <=? n) && (n <=? 90))%nat then ascii_of_nat (n + 32) else c.

(** [str.lower] on the ASCII range. *)
Fixpoint lower (s : string) : string :=
  match s with
  | EmptyString => EmptyString
  | String c s' => String (lower_ascii c) (lower s')
  end.

End Py.

(** ** numpy on one-dimensional float64 arrays *)

Module Np.

Local Open Scope float_scope.

Definition isnan (x : float) : bool := negb (x =? x).

(** [np.isfinite]: neither NaN nor an infinity. *)
Definition isfinite (x : float) : bool :=
  negb (isnan x) && negb (x =? infinity) && negb (x =? neg_infinity).

(** [np.diff]. *)
Fixpoint diff (l : list float) : list float :=
  match l with
  | [] => []
  | x :: l' =>
      match l' with
      | [] => []
      | y :: _ => (y - x) :: diff l'
      end
  end.

(** The reduction behind [ndarray.min]: a NaN, once met, is the result. *)
Fixpoint min_from (best : float) (l : list float) : float :=
  match l with
  | [] => best
  | y :: l' =>
      min_from (if isnan best then best
                else if isnan y then y
                else if y <? best then y else best) l'
  end.

(** [ndarray.min]: [ValueError] on an array of size zero. *)
Definition min (l : list float) : py float :=
  match l with
  | [] => Raise ValueError
  | x :: l' => Ok (min_from x l')
  end.

(** [ndarray.argmin]: the first index of the minimum, and the index of the
    first NaN when there is one.  [bi] is the index of [best], [i] the
    index of the head of [l]. *)
Fixpoint argmin_from (bi : nat) (best : float) (i : nat) (l : list float) : nat :=
  match l with
  | [] => bi
  | y :: l' =>
      if isnan best then bi
      else if isnan y || (y <? best) then argmin_from i y (S i) l'
      else argmin_from bi best (S i) l'
  end.

Definition argmin (l : list float) : py nat :=
  match l with
  | [] => Raise ValueError
  | x :: l' => Ok (argmin_from 0 x 1 l')
  end.

(** [np.where(cond)[0][0]]: the first index at which [cond] holds,
    [IndexError] when there is none. *)
Fixpoint where_first_from {A : Type} (cond : A -> bool) (i : nat) (l : list A) : py nat :=
  match l with
  | [] => Raise IndexError
  | y :: l' => if cond y then Ok i else where_first_from cond (S i) l'
  end.

Definition where_first {A : Type} (cond : A -> bool) (l : list A) : py nat :=
  where_first_from cond 0 l.

(** [np.diff] on an integer array. *)
Fixpoint diffZ (l : list Z) : list Z :=
  match l with
  | [] => []
  | x :: l' =>
      match l' with
      | [] => []
      | y :: _ => (y - x)%Z :: diffZ l'
      end
  end.

(** The order numpy sorts and searches float64 by: NaN after everything. *)
Definition lt_nan (a b : float) : bool :=
  (a <? b) || (isnan b && negb (isnan a)).

(** The loop of numpy's [binsearch] for [side='left'] and one key.  The
    interval [lo, hi) halves at every turn, so [fuel] turns are enough once
    [hi - lo <= fuel]. *)
Fixpoint bisect_left (fuel : nat) (a : list float) (v : float) (lo hi : nat) : nat :=
  match fuel with
  | O => lo
  | S fuel' =>
      if (lo <? hi)%nat then
        let mid := (lo + (hi - lo) / 2)%nat in
        if lt_nan (nth mid a 0) v
        then bisect_left fuel' a v (S mid) hi
        else bisect_left fuel' a v lo mid
      else lo
  end.

(** [np.searchsorted(a, v)]. *)
Definition searchsorted (a : list float) (v : float) : nat :=
  bisect_left (length a) a v 0 (length a).

Fixpoint insert_sorted (x : float) (l : list float) : list float :=
  match l with
  | [] => [x]
  | y :: l' => if x <=? y then x :: l else y :: insert_sorted x l'
  end.

Definition sort (l : list float) : list float :=
  fold_right insert_sorted [] l.

(** An integer as a float64, rounded to nearest even. *)
Definition of_Z (z : Z) : float :=
  SF2Prim (binary_normalize prec emax z 0%Z false).

(** [np.median]: NaN when there is a NaN or nothing at all, else the mean
    of the one or two middle values of the sorted array. *)
Definition median (l : list float) : float :=
  if existsb isnan l then nan
  else
    let s := sort l in
    let n := length s in
    match n with
    | O => nan
    | _ =>
        if Nat.odd n then nth (n / 2) s 0
        else (nth (n / 2 - 1) s 0 + nth (n / 2) s 0) / 2
    end.

(** [np.nanmedian]: the median of what is not NaN. *)
Definition nanmedian (l : list float) : float :=
  median (filter (fun y => negb (isnan y)) l).

(** The integer nearest to a finite float, halves to the even one; [None]
    for a NaN or an infinity. *)
Definition round_half_even (x : float) : option Z :=
  match Prim2SF x with
  | S754_zero _ => Some 0%Z
  | S754_finite s m e =>
      let mag :=
        match e with
        | Zneg p =>
            let d := Z.pow_pos 2 p in
            let q := (Zpos m / d)%Z in
            let r := (Zpos m mod d)%Z in
            match (2 * r ?= d)%Z with
            | Lt => q
            | Gt => (q + 1)%Z
            | Eq => if Z.even q then q else (q + 1)%Z
            end
        | _ => (Zpos m * 2 ^ e)%Z
        end in
      Some (if s then (- mag)%Z else mag)
  | _ => None
  end.

(** [arr[idx]] for an integer array [idx]: each index as [Py.index] reads it. *)
Fixpoint take {A : Type} (arr : list A) (idx : list Z) : py (list A) :=
  match idx with
  | [] => Ok []
  | i :: idx' =>
      bind (Py.index arr i) (fun a =>
      bind (take arr idx') (fun rest => Ok (a :: rest)))
  end.

(** [np.arange(n) + 1] for an integer [n], as floats. *)
Definition arange1 (n : Z) : list float :=
  map (fun k => of_Z (Z.of_nat (S k))) (seq 0 (Z.to_nat n)).

(** [arr[keep]] for a boolean array [keep]: [IndexError] unless the two
    have the same length. *)
Definition mask_select {A : Type} (arr : list A) (keep : list bool) : py (list A) :=
  if (length arr =? length keep)%nat
  then Ok (map fst (filter snd (combine arr keep)))
  else Raise IndexError.

(** The value of [dst[sl] = v] on a slice of [n] slots: [v] itself when it
    has [n] entries, its one entry repeated when it has one, [ValueError]
    otherwise. *)
Definition broadcast_to {A : Type} (n : nat) (v : list A) : py (list A) :=
  if (length v =? n)%nat then Ok v
  else match v with
       | [a] => Ok (repeat a n)
       | _ => Raise ValueError
       end.

(** The array whose [[::2]] is [ev] and whose [[1::2]] is [od]. *)
Fixpoint interleave {A : Type} (ev od : list A) : list A :=
  match ev, od with
  | e :: ev', o :: od' => e :: o :: interleave ev' od'
  | e :: _, [] => [e]
  | [], _ => []
  end.

(** [dst[a:b] = v]: the slice is bounded as [Py.slice] bounds it, and [v]
    is broadcast to its length. *)
Definition set_slice {A : Type} (dst : list A) (a b : Z) (v : list A) : py (list A) :=
  let n := Z.of_nat (length dst) in
  let lo := Py.clip n a in
  let hi := Py.clip n b in
  let len := Z.to_nat (hi - lo) in
  bind (broadcast_to len v) (fun v' =>
  Ok (firstn (Z.to_nat lo) dst ++ v' ++ skipn (Z.to_nat lo + len) dst)).

(** [np.zeros(n)]: [ValueError] for a negative [n]. *)
Definition zeros (n : Z) : py (list float) :=
  if (n <? 0)%Z then Raise ValueError else Ok (repeat 0 (Z.to_nat n)).

(** [x - y] on two arrays: elementwise, an array of one entry being
    broadcast to the other; [ValueError] on any other two sizes. *)
Definition sub_broadcast (x y : list float) : py (list float) :=
  if (length x =? length y)%nat then Ok (map (fun p => fst p - snd p) (combine x y))
  else match x, y with
       | [a], _ => Ok (map (fun b => a - b) y)
       | _, [b] => Ok (map (fun a => a - b) x)
       | _, _ => Raise ValueError
       end.

(** One entry of [np.int32(np.round(x))], a 32-bit integer less one being
    taken from it afterwards: defined when the rounded value and the value
    less one are both 32-bit integers. *)
Definition int32_round (x : float) : py Z :=
  match round_half_even x with
  | Some r =>
      if ((- 2 ^ 31 <? r) && (r <? 2 ^ 31))%Z then Ok r else Raise UnspecifiedCast
  | None => Raise UnspecifiedCast
  end.

(** A list comprehension whose body may raise. *)
Fixpoint map_py {A B : Type} (f : A -> py B) (l : list A) : py (list B) :=
  match l with
  | [] => Ok []
  | a :: l' =>
      bind (f a) (fun b => bind (map_py f l') (fun rest => Ok (b :: rest)))
  end.

(** Each entry is below the next. *)
Fixpoint increasing (l : list float) : bool :=
  match l with
  | [] => true
  | x :: l' =>
      match l' with
      | [] => true
      | y :: _ => (x <? y) && increasing l'
      end
  end.

(** [i] is the first index of a least element of [l]. *)
Definition first_least (l : list float) (i : nat) : Prop :=
  (i < length l)%nat
  /\ (forall j, (j < length l)%nat -> (nth j l 0 <? nth i l 0) = false)
  /\ (forall j, (j < i)%nat -> (nth i l 0 <? nth j l 0) = true).

End Np.

(** [round(x)] on a float: [ValueError] for a NaN, [OverflowError] for an
    infinity. *)
Definition py_round (x : float) : py Z :=
  match Np.round_half_even x with
  | Some z => Ok z
  | None => if Np.isnan x then Raise ValueError else Raise OverflowError
  end.

(** ** [ibllib/io/extractors/camera.py] *)

Module Camera.

Local Open Scope float_scope.
Local Open Scope py_scope.

(** *** [attribute_times] *)

(** [np.ma.masked_invalid(arr)]: the mask is set where [arr] is NaN or
    infinite. *)
Definition masked_invalid (arr : list float) : list bool :=
  map (fun a => negb (Np.isfinite a)) arr.

(** [stack.filled()] with [stack.fill_value = np.inf]. *)
Definition filled (arr : list float) (mask : list bool) : list float :=
  map (fun am : (float * bool)%type => if snd am then infinity else fst am)
    (combine arr mask).

(** [stack.mask[idx] = v]. *)
Fixpoint set_mask (mask : list bool) (idx : nat) (v : bool) : list bool :=
  match mask, idx with
  | [], _ => []
  | _ :: mask', O => v :: mask'
  | m :: mask', S idx' => m :: set_mask mask' idx' v
  end.

(** [np.abs(stack.filled() - x)]. *)
Definition dists (arr : list float) (mask : list bool) (x : float) : list float :=
  map (fun v => abs (v - x)) (filled arr mask).

Inductive take_policy : Set := First | Nearest.

(** The index an event is assigned once some distance is within tolerance. *)
Definition choose (take : take_policy) (tol : float) (dx : list float) : py nat :=
  match take with
  | First => Np.where_first (fun d => d <? tol) dx
  | Nearest => Np.argmin dx
  end.

(** The body of [for i, x in enumerate(events)], threading [stack.mask].
    The list returned holds [assigned[i]] for the events still to come: the
    index chosen, or the [-1] that [np.full(events.shape, -1)] left there. *)
Fixpoint attribute_loop (arr : list float) (tol : float) (injective : bool)
  (take : take_policy) (mask : list bool) (events : list float) : py (list Z) :=
  match events with
  | [] => Ok []
  | x :: events' =>
      let dx := dists arr mask x in
      dmin <- Np.min dx ;;
      if dmin <? tol then
        idx <- choose take tol dx ;;
        rest <- attribute_loop arr tol injective take (set_mask mask idx injective) events' ;;
        Ok (Z.of_nat idx :: rest)
      else
        rest <- attribute_loop arr tol injective take mask events' ;;
        Ok ((-1)%Z :: rest)
  end.

(** [attribute_times(arr, events, tol, injective, take)]. *)
Definition attribute_times (arr events : list float) (tol : float)
  (injective : bool) (take : string) : py (list Z) :=
  let take := Py.lower take in
  if String.eqb take "first" then
    attribute_loop arr tol injective First (masked_invalid arr) events
  else if String.eqb take "nearest" then
    attribute_loop arr tol injective Nearest (masked_invalid arr) events
  else Raise ValueError.

(** The number of reference values the mask hides. *)
Definition consumed (mask : list bool) : nat := length (filter (fun m => m) mask).

(** The entries of a correspondence mapping that are not the sentinel. *)
Definition matched (assigned : list Z) : list Z :=
  filter (fun z => negb (z =? -1)%Z) assigned.

(** *** [align_with_audio] *)

(** The [audio] dict: the times and polarities of the audio TTL fronts. *)
Module Audio.
Record t : Type := { times : list float; polarities : list Z }.
End Audio.

(** The [gpio] / [pin_state] dict: the frame indices and polarities of the pin
    state changes, and their times once [groom_pin_state] has set that key. *)
Module Gpio.
Record t : Type :=
  { indices : list Z; polarities : list Z; times : option (list float) }.
End Gpio.

(** [d['times']], [KeyError] when the key is missing. *)
Definition gpio_times (pin_state : Gpio.t) : py (list float) :=
  match Gpio.times pin_state with
  | Some t => Ok t
  | None => Raise KeyError
  end.

(** The extension of [ts] by [n_missing] timestamps. *)
Definition extend_timestamps (ts : list float) (n_missing : Z)
  (extrapolate_missing : bool) : py (list float) :=
  frate <- py_round (1 / Np.nanmedian (Np.diff ts)) ;;
  to_app <- (if extrapolate_missing then
               last_ts <- Py.index ts (-1) ;;
               Ok (map (fun k => k / Np.of_Z frate + last_ts) (Np.arange1 n_missing))
             else Ok (repeat nan (Z.to_nat n_missing))) ;;
  Ok (ts ++ to_app).

(** [align_with_audio(timestamps, audio, pin_state, count,
    extrapolate_missing)], with [display=False]. *)
Definition align_with_audio (timestamps : list float) (audio : Audio.t)
  (pin_state : Gpio.t) (count : list Z) (extrapolate_missing : bool)
  : py (list float) :=
  assert (forallb (fun d => 0 <? d)%Z (Np.diffZ count)) ;;;
  assert (forallb (fun d => 0 <? d) (Np.diff timestamps)) ;;;
  pin_times <- gpio_times pin_state ;;
  assert (length pin_times =? length (Audio.times audio))%nat ;;;
  first_uptick <- Py.index (Gpio.indices pin_state) 0 ;;
  audio0 <- Py.index (Audio.times audio) 0 ;;
  let first_ttl := Z.of_nat (Np.searchsorted timestamps audio0) in
  count_uptick <- Py.index count first_uptick ;;
  let start := (first_ttl - first_uptick - (count_uptick - first_uptick))%Z in
  assert (0 <=? start)%Z ;;;
  count_last <- Py.index count (-1) ;;
  let end_ := (count_last + 1 + start)%Z in
  let ts := Py.slice timestamps start end_ in
  ts <- (if (length ts <? length count)%nat then
           extend_timestamps ts (Z.of_nat (length count) - Z.of_nat (length ts))
             extrapolate_missing
         else Ok ts) ;;
  assert (length count <=? length ts)%nat ;;;
  assert (Z.of_nat (length ts) =? count_last + 1)%Z ;;;
  ts <- Np.take ts count ;;
  assert (Z.of_nat (Np.searchsorted ts audio0) =? first_uptick)%Z ;;;
  Ok ts.

(** *** [groom_pin_state] *)

Section GroomPinState.

(** [ibllib.dsp.utils.sync_timestamps], the clock fitter, is not part of
    these sources: it is a parameter.  It returns the map from the first
    clock to the second and the drift in ppm, or raises. *)
Variable sync_timestamps :
  list float -> list float -> py ((float -> float) * float).

(** [{k: gpio[k][keep] for k, v in gpio.items()}]. *)
Definition gpio_keep (gpio : Gpio.t) (keep : list bool) : py Gpio.t :=
  indices <- Np.mask_select (Gpio.indices gpio) keep ;;
  polarities <- Np.mask_select (Gpio.polarities gpio) keep ;;
  times <- match Gpio.times gpio with
           | Some t => t' <- Np.mask_select t keep ;; Ok (Some t')
           | None => Ok None
           end ;;
  Ok {| Gpio.indices := indices; Gpio.polarities := polarities; Gpio.times := times |}.

(** The fronts of one polarity.  The pin state changes of that polarity,
    at the frames [changes], are attributed to the audio TTLs [fronts], the
    times of both taken relative to their first; the times of the TTLs
    assigned are returned, the changes left unassigned being dropped. *)
Definition assign_fronts (ts : list float) (changes : list Z)
  (audio_times : list float) (fronts : list float) (first : Z) : py (list float) :=
  frames <- Np.take ts changes ;;
  frame0 <- Py.index frames 0 ;;
  let ups := map (fun t => t - frame0) frames in
  front0 <- Py.index audio_times first ;;
  let onsets := map (fun t => t - front0) fronts in
  assigned <- attribute_times onsets ups 2 true "first" ;;
  let missed := map (fun z => z =? -1)%Z assigned in
  let assigned := if existsb (fun m => m) missed
                  then matched assigned else assigned in
  Np.take fronts assigned.

(** The audio TTLs attributed to the pin state changes in [ifronts]. *)
Definition groom_audio (gpio : Gpio.t) (audio : Audio.t) (ts : list float)
  : py Audio.t :=
  let ifronts := Gpio.indices gpio in
  low2high <- Np.mask_select ifronts (map (fun p => p =? 1)%Z (Gpio.polarities gpio)) ;;
  high2low <- Np.mask_select ifronts (map (fun p => p =? -1)%Z (Gpio.polarities gpio)) ;;
  assert (length high2low <=? length low2high)%nat ;;;
  let times := Audio.times audio in
  onsets_ <- assign_fronts ts low2high times (Py.evens times) 0 ;;
  offsets_ <- assign_fronts ts high2low times (Py.odds times) 1 ;;
  let n := length ifronts in
  ev <- Np.broadcast_to ((n + 1) / 2) onsets_ ;;
  od <- Np.broadcast_to (n / 2) offsets_ ;;
  Ok {| Audio.times := Np.interleave ev od; Audio.polarities := Gpio.polarities gpio |}.

(** [groom_pin_state(gpio, audio, ts)], with [display=False].  The calls to
    [_logger], which report how many events were left unassigned, leave no
    trace in what is returned and are not modelled. *)
Definition groom_pin_state (gpio : Gpio.t) (audio : Audio.t) (ts : list float)
  : py (Gpio.t * Audio.t * list float) :=
  let size := Z.of_nat (length ts) in
  gpio <- (if existsb (fun i => size <=? i)%Z (Gpio.indices gpio)
           then gpio_keep gpio (map (fun i => i <? size)%Z (Gpio.indices gpio))
           else Ok gpio) ;;
  assert (length (Audio.times audio) =? length (Audio.polarities audio))%nat ;;;
  assert (forallb (fun d => Z.abs d =? 2)%Z (Np.diffZ (Audio.polarities audio))) ;;;
  pol0 <- Py.index (Audio.polarities audio) 0 ;;
  assert (pol0 =? 1)%Z ;;;
  assert (forallb (fun d => 0 <? d) (Np.diff (Audio.times audio))) ;;;
  assert (existsb (fun i => negb (i =? 0)%Z) (Gpio.indices gpio)) ;;;
  gpol0 <- Py.index (Gpio.polarities gpio) 0 ;;
  assert (gpol0 =? 1)%Z ;;;
  let ifronts := Gpio.indices gpio in
  audio_ <- (if negb (length ifronts =? length (Audio.times audio))%nat
             then groom_audio gpio audio ts
             else Ok audio) ;;
  frames <- Np.take ts ifronts ;;
  ' (fcn_a2b, drift_ppm) <- sync_timestamps frames (Audio.times audio_) ;;
  Ok ({| Gpio.indices := Gpio.indices gpio;
         Gpio.polarities := Gpio.polarities gpio;
         Gpio.times := Some (map fcn_a2b frames) |},
      audio_, map fcn_a2b ts).

End GroomPinState.

(** The Edge Set invariant of the data model: as many polarities as times,
    polarities that alternate between [1] and [-1], times that strictly
    increase. *)
Definition edge_set (times : list float) (polarities : list Z) : Prop :=
  length times = length polarities
  /\ Forall (fun p => p = 1 \/ p = -1)%Z polarities
  /\ forallb (fun d => Z.abs d =? 2)%Z (Np.diffZ polarities) = true
  /\ forallb (fun d => 0 <? d) (Np.diff times) = true.

(** The data contracts on the inputs of [groom_pin_state]: the audio TTLs
    are an Edge Set; the pin state changes have as many polarities as
    frame indices, polarities that alternate between [1] and [-1], and
    frame indices that strictly increase within the frame times, which
    strictly increase themselves. *)
Definition data_contract (gpio : Gpio.t) (audio : Audio.t) (ts : list float) : Prop :=
  edge_set (Audio.times audio) (Audio.polarities audio)
  /\ length (Gpio.indices gpio) = length (Gpio.polarities gpio)
  /\ Forall (fun p => p = 1 \/ p = -1)%Z (Gpio.polarities gpio)
  /\ forallb (fun d => Z.abs d =? 2)%Z (Np.diffZ (Gpio.polarities gpio)) = true
  /\ forallb (fun d => 0 <? d)%Z (Np.diffZ (Gpio.indices gpio)) = true
  /\ Forall (fun i => 0 <= i < Z.of_nat (length ts))%Z (Gpio.indices gpio)
  /\ forallb (fun d => 0 <? d) (Np.diff ts) = true.

(** *** [CameraTimestampsBpod._times_from_bpod] *)

(** [bpod_trials[ind]['behavior_data']['Events timestamps']], read at the
    keys ['Port1In'] and ['Port1Out']: the times of the rises and of the
    falls of the camera line in the trial, [None] when the key is missing. *)
Record trial : Type :=
  { Port1In : option (list float); Port1Out : option (list float) }.

(** What the loop over the trials carries. *)
Record trials_state : Type :=
  { cam_times : list (list float); n_frames : Z; n_out_of_sync : Z }.

(** The rises and falls of a trial as the loop keeps them: a first fall
    before the first rise is dropped, then [pin = pin[:pout.size]]. *)
Definition trial_edges (pin pout : list float) : py (list float * list float) :=
  pout0 <- Py.index pout 0 ;;
  pin0 <- Py.index pin 0 ;;
  let pout := if pout0 <? pin0 then Py.slice pout 1 (Z.of_nat (length pout)) else pout in
  let pin := Py.slice pin 0 (Z.of_nat (length pout)) in
  Ok (pin, pout).

(** [test1] and [test2] of a trial. *)
Definition pulses_in_sync (pin pout : list float) (frate : float) : py bool :=
  width <- Np.sub_broadcast pin pout ;;
  let med := Np.median width in
  let test1 := forallb (fun w => abs (1 - w / med) <? 0.1) width in
  let test2 := forallb (fun d => abs (d - frate) <=? 0.00011) (Np.diff pin) in
  Ok (test1 && test2).

(** The body of [for ind in np.arange(ntrials)]. *)
Definition trial_step (ind : nat) (t : trial) (st : trials_state) : py trials_state :=
  match Port1In t with
  | None => Ok st
  | Some pin =>
      pout <- match Port1Out t with
              | Some pout => Ok pout
              | None => Raise IndexError
              end ;;
      ' (pin, pout) <- trial_edges pin pout ;;
      let frate := Np.median (Np.diff pin) in
      out_of_sync <- (if (0 <? ind)%nat then
                        ok <- pulses_in_sync pin pout frate ;;
                        Ok (if ok then n_out_of_sync st else (n_out_of_sync st + 1)%Z)
                      else Ok (n_out_of_sync st)) ;;
      Ok {| cam_times := cam_times st ++ [pin];
            n_frames := (n_frames st + Z.of_nat (length pin))%Z;
            n_out_of_sync := out_of_sync |}
  end.

Fixpoint trials_loop (ind : nat) (trials : list trial) (st : trials_state)
  : py trials_state :=
  match trials with
  | [] => Ok st
  | t :: trials' =>
      st' <- trial_step ind t st ;;
      trials_loop (S ind) trials' st'
  end.

(** The global frame rate, the gap between each trial and the next, and the
    number of frames missed in each gap. *)
Definition intertrial (cam_times : list (list float))
  : py (float * list float * list Z) :=
  t_first_frame <- Np.map_py (fun c => Py.index c 0) cam_times ;;
  t_last_frame <- Np.map_py (fun c => Py.index c (-1)) cam_times ;;
  let frate := 1 / Np.nanmedian (map (fun c => Np.median (Np.diff c)) cam_times) in
  let intertrial_duration :=
    map (fun p => fst p - snd p)
      (combine (Py.slice t_first_frame 1 (Z.of_nat (length t_first_frame)))
               (Py.slice t_last_frame 0 (-1))) in
  intertrial_missed_frames <-
    Np.map_py (fun d => r <- Np.int32_round (d * frate) ;; Ok (r - 1)%Z)
      intertrial_duration ;;
  Ok (frate, intertrial_duration, intertrial_missed_frames).

(** The timestamps extrapolated into the gap after a trial that ends at
    [last]. *)
Definition gap_times (last duration : float) (nmiss : Z) : list float :=
  map (fun k => last + duration / Np.of_Z (nmiss + 1) * k) (Np.arange1 nmiss).

(** The body of [for trial, cam_time in enumerate(cam_times)], on the trials
    still to come, with the gaps after them. *)
Fixpoint fill_frame_times (cam_times : list (list float)) (durations : list float)
  (missed : list Z) (frame_times : list float) (ii : Z) : py (list float) :=
  match cam_times with
  | [] => Ok frame_times
  | cam_time :: rest =>
      let size := Z.of_nat (length cam_time) in
      frame_times <- Np.set_slice frame_times ii (ii + size) cam_time ;;
      let ii := (ii + size)%Z in
      match rest with
      | [] => Ok frame_times
      | _ :: _ =>
          match durations, missed with
          | duration :: durations', nmiss :: missed' =>
              last <- Py.index cam_time (-1) ;;
              frame_times <- Np.set_slice frame_times ii (ii + nmiss)
                               (gap_times last duration nmiss) ;;
              fill_frame_times rest durations' missed' frame_times (ii + nmiss)
          | _, _ => Raise IndexError
          end
      end
  end.

(** The frame times of the trials with the timestamps extrapolated between
    them, as the loop over [cam_times] leaves [frame_times], and the global
    frame rate. *)
Definition interpolate_trials (st : trials_state) : py (float * list float) :=
  ' (frate, intertrial_duration, intertrial_missed_frames) <- intertrial (cam_times st) ;;
  frame_times <- Np.zeros (n_frames st + fold_right Z.add 0%Z intertrial_missed_frames) ;;
  frame_times <- fill_frame_times (cam_times st) intertrial_duration
                   intertrial_missed_frames frame_times 0 ;;
  Ok (frate, frame_times).

(** The frame times before the final check.  [video_frames] holds the frame
    count of each file that matches [_iblrig_leftCamera*.mp4]: the unpacking
    [video_file, = ...] raises [ValueError] unless there is exactly one. *)
Definition frame_times_unchecked (trials : list trial) (video_frames : list Z)
  : py (list float) :=
  st <- trials_loop 0 trials {| cam_times := []; n_frames := 0; n_out_of_sync := 0 |} ;;
  ' (frate, frame_times) <- interpolate_trials st ;;
  nframes <- match video_frames with
             | [nframes] => Ok nframes
             | _ => Raise ValueError
             end ;;
  if (Z.of_nat (length frame_times) <? nframes)%Z then
    let n_missing := (nframes - Z.of_nat (length frame_times))%Z in
    last <- Py.index frame_times (-1) ;;
    Ok (frame_times ++ map (fun k => k / frate + last) (Np.arange1 n_missing))
  else Ok frame_times.

(** [_times_from_bpod()]. *)
Definition times_from_bpod (trials : list trial) (video_frames : list Z)
  : py (list float) :=
  frame_times <- frame_times_unchecked trials video_frames ;;
  assert (forallb (fun d => 0 <? d) (Np.diff frame_times)) ;;;
  Ok frame_times.

(** [c0 ++ g0 ++ c1 ++ g1 ++ ... ++ ck]: the trials with the gaps between
    them. *)
Fixpoint weave (cam_times gaps : list (list float)) : list float :=
  match cam_times with
  | [] => []
  | c :: rest =>
      match rest, gaps with
      | _ :: _, g :: gaps' => c ++ g ++ weave rest gaps'
      | _, _ => c
      end
  end.

(** The gaps after the trials but the last: [gap_times] from the last
    pulse of each trial. *)
Fixpoint gaps_of (cam_times : list (list float)) (durations : list float)
  (missed : list Z) : list (list float) :=
  match cam_times, durations, missed with
  | c :: rest, d :: ds, n :: ns => gap_times (last c 0) d n :: gaps_of rest ds ns
  | _, _, _ => []
  end.

(** The duration of each gap: from the last pulse of a trial to the first
    pulse of the next. *)
Fixpoint gap_durations (cam_times : list (list float)) : list float :=
  match cam_times with
  | [] => []
  | c :: rest =>
      match rest with
      | [] => []
      | c' :: _ => (hd 0 c' - last c 0) :: gap_durations rest
      end
  end.

(** The number of pulses in the trials. *)
Definition n_pulses (cam_times : list (list float)) : Z :=
  fold_right (fun c acc => (Z.of_nat (length c) + acc)%Z) 0%Z cam_times.

(** Reference value [j] is one the policy would have given the event [x]
    rather than [z]: it is within tolerance, and [z] is the sentinel, or an
    index after [j] under [First], or the index of a value farther from [x],
    or as far and after [j], under [Nearest]. *)
Definition preferred (take : take_policy) (arr : list float) (tol x : float)
  (z : Z) (j : nat) : Prop :=
  (abs (nth j arr 0 - x) <? tol) = true
  /\ (z = (-1)%Z
      \/ exists idx, z = Z.of_nat idx
         /\ match take with
            | First => (j < idx)%nat
            | Nearest =>
                (abs (nth j arr 0 - x) <? abs (nth idx arr 0 - x)) = true
                \/ ((j < idx)%nat
                    /\ (abs (nth j arr 0 - x) =? abs (nth idx arr 0 - x)) = true)
            end).

(** *** [align_with_audio_safe] *)

(** [align_with_audio_safe(timestamps, audio, pin_state, count,
    extrapolate_missing)]. *)
Definition align_with_audio_safe (timestamps : list float) (audio : Audio.t)
  (pin_state : Gpio.t) (count : list Z) (extrapolate_missing : bool)
  : py (list float) :=
  assert (forallb (fun d => 0 <? d)%Z (Np.diffZ count)) ;;;
  assert (forallb (fun d => 0 <? d) (Np.diff timestamps)) ;;;
  pin_times <- gpio_times pin_state ;;
  assert (length pin_times =? length (Audio.times audio))%nat ;;;
  first_uptick <- Py.index (Gpio.indices pin_state) 0 ;;
  audio0 <- Py.index (Audio.times audio) 0 ;;
  let first_ttl := Z.of_nat (Np.searchsorted timestamps audio0) in
  count_uptick <- Py.index count first_uptick ;;
  let start := (first_ttl - first_uptick - (count_uptick - first_uptick))%Z in
  assert (0 <=? start)%Z ;;;
  count_last <- Py.index count (-1) ;;
  let end_ := (count_last + 1 + start)%Z in
  let ts := Py.slice timestamps start end_ in
  ts <- (if (length ts <? length count)%nat then
           let n_missing := (Z.of_nat (length count) - Z.of_nat (length ts))%Z in
           frate <- py_round (1 / Np.nanmedian (Np.diff ts)) ;;
           to_app <- (if extrapolate_missing then
                        last_ts <- Py.index ts (-1) ;;
                        Ok (map (fun k => k / Np.of_Z frate + last_ts)
                              (Np.arange1 n_missing))
                      else Ok (repeat nan (Z.to_nat n_missing))) ;;
           Ok (ts ++ to_app)
         else Ok ts) ;;
  assert (length count <=? length ts)%nat ;;;
  assert (Z.of_nat (length ts) =? count_last + 1)%Z ;;;
  ts <- Np.take ts count ;;
  assert (Z.of_nat (Np.searchsorted ts audio0) =? first_uptick)%Z ;;;
  Ok ts.

(** *** [extract_camera_sync] and [CameraTimestampsFPGA._extract] *)

(** The camera a [CameraTimestampsFPGA] is made for: the labels
    [assert_valid_label] lets through. *)
Inductive camera : Set := Left | Right | Body.

(** The dict [extract_camera_sync] returns, with its keys ['right'],
    ['left'] and ['body']. *)
Record camera_times : Type :=
  { cam_right : list float; cam_left : list float; cam_body : list float }.

(** [fpga_times[label]]. *)
Definition camera_times_get (d : camera_times) (label : camera) : list float :=
  match label with
  | Left => cam_left d
  | Right => cam_right d
  | Body => cam_body d
  end.

(** [chmap[key]] on the channel map, a dict from the name of a device to
    the number of its channel: [KeyError] when the name is not in it. *)
Definition chmap_get (chmap : list (string * Z)) (key : string) : py Z :=
  match find (fun kv => String.eqb (fst kv) key) chmap with
  | Some kv => Ok (snd kv)
  | None => Raise KeyError
  end.

Section FPGA.

Variable sync_timestamps :
  list float -> list float -> py ((float -> float) * float).

(** The [sync] dict and [ibllib.io.extractors.ephys_fpga._get_sync_fronts],
    which reads the fronts of one channel out of it, are not part of these
    sources: they are parameters.  The fronts come as times and
    polarities. *)
Variable Sync : Type.
Variable get_sync_fronts : Sync -> Z -> py Audio.t.

(** [extract_camera_sync(sync, chmap)]: [assert(chmap)] refuses [None] and
    the empty dict. *)
Definition extract_camera_sync (sync : Sync) (chmap : option (list (string * Z)))
  : py camera_times :=
  chmap <- match chmap with
           | Some (kv :: m) => Ok (kv :: m)
           | _ => Raise AssertionError
           end ;;
  ch <- chmap_get chmap "right_camera" ;;
  sr <- get_sync_fronts sync ch ;;
  ch <- chmap_get chmap "left_camera" ;;
  sl <- get_sync_fronts sync ch ;;
  ch <- chmap_get chmap "body_camera" ;;
  sb <- get_sync_fronts sync ch ;;
  Ok {| cam_right := Py.evens (Audio.times sr);
        cam_left := Py.evens (Audio.times sl);
        cam_body := Py.evens (Audio.times sb) |}.

(** [CameraTimestampsFPGA(label)._extract(sync, chmap, video_path)].  What
    the loaders read from the session is given: [count] and [gpio] are the
    frame counter and the pin state of [load_embedded_frame_data], [ts] the
    camera times of [load_camera_ssv_times], [length] the frame count
    [get_video_length] reads in the video file.  Where [chmap['audio']] is
    read, [chmap] is a dict: [extract_camera_sync] has asserted it. *)
Definition CameraTimestampsFPGA_extract (label : camera) (sync : Sync)
  (chmap : option (list (string * Z))) (count : list Z) (gpio : option Gpio.t)
  (ts : list float) (length : Z) : py (list float) :=
  fpga_times <- extract_camera_sync sync chmap ;;
  let aligned :=
    match gpio with
    | Some gpio => if (1 <? List.length (Gpio.indices gpio))%nat then Some gpio else None
    | None => None
    end in
  match aligned with
  | Some gpio =>
      ch <- chmap_get (match chmap with Some chmap => chmap | None => [] end) "audio" ;;
      audio <- get_sync_fronts sync ch ;;
      ' (gpio, audio, ts) <- groom_pin_state sync_timestamps gpio audio ts ;;
      count <- (if (length <? Z.of_nat (List.length count))%Z
                then Ok (Py.slice count 0 length)
                else assert (length =? Z.of_nat (List.length count))%Z ;;; Ok count) ;;
      let raw_ts := camera_times_get fpga_times label in
      align_with_audio raw_ts audio gpio count true
  | None => Ok (camera_times_get fpga_times label)
  end.

End FPGA.

(** *** [CameraTimestampsBpod._extract] *)

(** [align_with_audio(timestamps, audio, pin_state, count)] on an [audio]
    that is an array and no dict, as [CameraTimestampsBpod._extract] passes
    it: the statements of [align_with_audio] down to the first
    [audio['times']], where an array indexed by a string raises
    [IndexError]. *)
Definition align_with_audio_array (timestamps : list float) (audio : list float)
  (pin_state : Gpio.t) (count : list Z) : py (list float) :=
  assert (forallb (fun d => 0 <? d)%Z (Np.diffZ count)) ;;;
  assert (forallb (fun d => 0 <? d) (Np.diff timestamps)) ;;;
  pin_times <- gpio_times pin_state ;;
  Raise IndexError.

(** [CameraTimestampsBpod._extract()]: [None] is what a Python function
    returns when it ends without [return].  [count] and [pin_state] are what
    [load_embedded_frame_data] reads, [audio] the audio fronts of
    [load_bpod_fronts].  [any(pin_state)] on a dict is over its keys,
    ['indices'] and ['polarities'], and holds. *)
Definition CameraTimestampsBpod_extract (trials : list trial) (video_frames : list Z)
  (count : list Z) (pin_state : option Gpio.t) (audio : Audio.t)
  : py (option (list float)) :=
  ts <- times_from_bpod trials video_frames ;;
  match pin_state with
  | Some pin_state =>
      assert (forallb (fun d => Z.abs d =? 2)%Z (Np.diffZ (Audio.polarities audio))) ;;;
      pol0 <- Py.index (Audio.polarities audio) 0 ;;
      assert (pol0 =? 1)%Z ;;;
      out <- align_with_audio_array ts (Py.evens (Audio.times audio)) pin_state count ;;
      Ok (Some out)
  | None => Ok None
  end.

(** *** A session for the examples

    Sixteen fronts on each camera channel, one every half second, so that
    a frame is taken every second; one sound on the audio channel, from 2.5 s
    to 4.5 s, which the camera saw on its frames 3 and 5; clocks that
    agree. *)

Definition example_chmap : option (list (string * Z)) :=
  Some [("left_camera", 0%Z); ("right_camera", 1%Z); ("body_camera", 2%Z);
        ("audio", 3%Z)]%string.

Definition example_fronts (sync : unit) (ch : Z) : py Audio.t :=
  if (ch =? 3)%Z then
    Ok {| Audio.times := [2.5; 4.5]; Audio.polarities := [1; -1]%Z |}
  else
    Ok {| Audio.times := map (fun k => Np.of_Z (Z.of_nat k) / 2) (seq 0 16);
          Audio.polarities := flat_map (fun _ => [1; -1]%Z) (seq 0 8) |}.

Definition example_gpio : Gpio.t :=
  {| Gpio.indices := [3; 5]%Z; Gpio.polarities := [1; -1]%Z; Gpio.times := None |}.

Definition example_fit (a b : list float) : py ((float -> float) * float) :=
  Ok (fun t => t, 0).

End Camera.

(** ** [ibllib/io/extractors/passive_script_2.py] *)

Module Passive.

Local Open Scope float_scope.
Local Open Scope py_scope.

Definition NTONES : nat := 40.
Definition NNOISES : nat := 40.

(** [_extract_passiveAudio_intervals(audio)]: the tone intervals and the
    noise intervals, each a row [(on, off)]. *)
Definition extract_passiveAudio_intervals (audio : Camera.Audio.t)
  : py (list (float * float) * list (float * float)) :=
  let times := Camera.Audio.times audio in
  let polarities := Camera.Audio.polarities audio in
  soundOn_times <- Np.mask_select times (map (fun p => 0 <? p)%Z polarities) ;;
  soundOff_times <- Np.mask_select times (map (fun p => p <? 0)%Z polarities) ;;
  assert (length soundOn_times =? NTONES + NNOISES)%nat ;;;
  assert (length soundOff_times =? NTONES + NNOISES)%nat ;;;
  diff <- Np.sub_broadcast soundOff_times soundOn_times ;;
  toneOn_times <- Np.mask_select soundOn_times (map (fun d => d <? 0.3) diff) ;;
  toneOff_times <- Np.mask_select soundOff_times (map (fun d => d <? 0.3) diff) ;;
  noiseOn_times <- Np.mask_select soundOn_times (map (fun d => 0.3 <? d) diff) ;;
  noiseOff_times <- Np.mask_select soundOff_times (map (fun d => 0.3 <? d) diff) ;;
  assert (length toneOn_times =? NTONES)%nat ;;;
  assert (length toneOff_times =? NTONES)%nat ;;;
  assert (length noiseOn_times =? NNOISES)%nat ;;;
  assert (length noiseOff_times =? NNOISES)%nat ;;;
  Ok (combine toneOn_times toneOff_times, combine noiseOn_times noiseOff_times).

(** A replay of eighty sounds, one a second: the first lasts 0.3 s, the
    others 0.1 s. *)
Definition boundary_session : Camera.Audio.t :=
  {| Camera.Audio.times :=
       flat_map (fun k => [Np.of_Z (Z.of_nat k);
                           Np.of_Z (Z.of_nat k) + (if (k =? 0)%nat then 0.3 else 0.1)])
         (seq 0 80);
     Camera.Audio.polarities := flat_map (fun _ => [1; -1]%Z) (seq 0 80) |}.

(** [np.isclose(a, b, rtol, atol)] on two float64: within tolerance when
    both are finite, equal otherwise. *)
Definition isclose (a b rtol atol : float) : bool :=
  if Np.isfinite a && Np.isfinite b
  then abs (a - b) <=? atol + rtol * abs b
  else a =? b.

(** [np.allclose(a, b, atol=atol)] for an array [a] and a scalar [b], with
    the default [rtol] of [1e-05]. *)
Definition allclose (a : list float) (b atol : float) : bool :=
  forallb (fun x => isclose x b 1e-05 atol) a.

Definition NVALVE : nat := 40.

(** [_extract_passiveValve_intervals(bpod)]: a row [(on, off)] for each
    valve opening. *)
Definition extract_passiveValve_intervals (bpod : Camera.Audio.t)
  : py (list (float * float)) :=
  let times := Camera.Audio.times bpod in
  let polarities := Camera.Audio.polarities bpod in
  valveOn_times <- Np.mask_select times (map (fun p => 0 <? p)%Z polarities) ;;
  valveOff_times <- Np.mask_select times (map (fun p => p <? 0)%Z polarities) ;;
  assert (length valveOn_times =? NVALVE)%nat ;;;
  assert (length valveOff_times =? NVALVE)%nat ;;;
  assert (length times =? NVALVE * 2)%nat ;;;
  width <- Np.sub_broadcast valveOff_times valveOn_times ;;
  off0 <- Py.index valveOff_times 0 ;;
  on0 <- Py.index valveOn_times 0 ;;
  assert (allclose width (off0 - on0) 0.0001) ;;;
  Ok (combine valveOn_times valveOff_times).

(** [get_passive_spacers(session_path, sync, sync_map)], from what it
    reads: [stim_order] is [meta["STIM_ORDER"]] of the stimulus metadata,
    [spacer_times] the array [passive.get_spacer_times] finds, flattened (so
    that its length is [np.size]), [sync_times] is [sync["times"]]. *)
Definition get_passive_spacers (stim_order : list Z) (spacer_times sync_times : list float)
  : py (float * list float * list float) :=
  let n_exp_spacer := length (filter (fun s => s =? 0)%Z stim_order) in
  if negb (2 * n_exp_spacer =? length spacer_times)%nat then Raise ValueError
  else
    last <- Py.index sync_times (-1) ;;
    let spacer_times := spacer_times ++ [last] in
    t_start <- Py.index spacer_times 0 ;;
    Ok (t_start, Py.odds spacer_times,
        Py.evens (Py.slice spacer_times 2 (Z.of_nat (length spacer_times)))).

(** [extract_passive_periods(session_path, sync, sync_map)]: the start of
    the passive protocol and the spontaneous activity, receptive field
    mapping and task replay periods, each a pair [[start, end]]. *)
Definition extract_passive_periods (stim_order : list Z)
  (spacer_times sync_times : list float)
  : py (float * (float * float) * (float * float) * (float * float)) :=
  ' (t_start_passive, t_starts, t_ends) <-
      get_passive_spacers stim_order spacer_times sync_times ;;
  s0 <- Py.index t_starts 0 ;;
  e0 <- Py.index t_ends 0 ;;
  s1 <- Py.index t_starts 1 ;;
  e1 <- Py.index t_ends 1 ;;
  s2 <- Py.index t_starts 2 ;;
  e2 <- Py.index t_ends 2 ;;
  Ok (t_start_passive, (s0, e0), (s1, e1), (s2, e2)).

(** The reduction behind [np.max]: a NaN, once met, is the result. *)
Fixpoint max_from (best : float) (l : list float) : float :=
  match l with
  | [] => best
  | y :: l' =>
      max_from (if Np.isnan best then best
                else if Np.isnan y then y
                else if best <? y then y else best) l'
  end.

(** [np.max]: [ValueError] on an array of size zero. *)
Definition np_max (l : list float) : py float :=
  match l with
  | [] => Raise ValueError
  | x :: l' => Ok (max_from x l')
  end.

(** Python's [max] on a tuple, with the position of the item it returns:
    an item replaces the one kept when it is greater.  [bi] is the position
    of [best], [i] the position of the head of [l]. *)
Fixpoint py_max_from (bi : nat) (best : float) (i : nat) (l : list float)
  : nat * float :=
  match l with
  | [] => (bi, best)
  | y :: l' =>
      if best <? y then py_max_from i y (S i) l' else py_max_from bi best (S i) l'
  end.

(** [np.where(cond)[0]]: the indices at which [cond] holds. *)
Fixpoint where_from {A : Type} (cond : A -> bool) (i : Z) (l : list A) : list Z :=
  match l with
  | [] => []
  | y :: l' =>
      if cond y then i :: where_from cond (i + 1) l' else where_from cond (i + 1) l'
  end.

(** [thresh] of [_extract_passiveGabor_df]: the shortest of the gaps
    between fronts that have the longest gap on their side, the gaps at the
    even places or the gaps at the odd places.  [x in t] on a tuple holds
    when [x] is an item of [t] itself or equals one; the item [max] returns
    is in one of the two tuples, so that the [elif] holds whenever it is
    reached. *)
Definition gabor_thresh (times : list float) : py float :=
  let d := Np.diff times in
  d0min <- Np.min (Py.evens (Py.slice d 2 (-2))) ;;
  d0max <- np_max (Py.evens (Py.slice d 2 (-1))) ;;
  d1min <- Np.min (Py.evens (Py.slice d 3 (-2))) ;;
  d1max <- np_max (Py.evens (Py.slice d 3 (-1))) ;;
  let im := py_max_from 0 d0min 1 [d0max; d1min; d1max] in
  if (fst im <? 2)%nat || (d0min =? snd im) || (d0max =? snd im)
  then Ok d0min else Ok d1min.

(** The stimulus fixtures of a session, the dict with the keys ["pcs"],
    ["delays"] and ["ids"]: each array by its rows. *)
Record fixture : Type :=
  { pcs : list (list float); delays : list (list float); ids : list (list float) }.

(** [f"session_{ses_nb}_passive_{name}.npy"]. *)
Definition fixture_file (ses_nb : Z) (name : string) : string :=
  ("session_" ++ NilZero.string_of_int (Z.to_int ses_nb)
   ++ "_passive_" ++ name ++ ".npy")%string.

Section Fixtures.

(** [rawio.load_settings] and [np.load] read files and are not part of
    these sources: they are parameters.  [load_settings] gives
    [settings["SESSION_ORDER"]] and [settings["SESSION_IDX"]] of the
    settings of a session, [np_load] the array in the file of a given name
    under [ephys_sessions], by its rows. *)
Variable load_settings : string -> py (list Z * Z).
Variable np_load : string -> py (list (list float)).

(** [load_passive_session_fixtures(session_path)]. *)
Definition load_passive_session_fixtures (session_path : string) : py fixture :=
  ' (session_order, session_idx) <- load_settings session_path ;;
  ses_nb <- Py.index session_order session_idx ;;
  pcs <- np_load (fixture_file ses_nb "pcs") ;;
  delays <- np_load (fixture_file ses_nb "stimDelays") ;;
  ids <- np_load (fixture_file ses_nb "stimIDs") ;;
  Ok {| pcs := pcs; delays := delays; ids := ids |}.

(** [_extract_passiveGabor_df(fttl)]: the rows [start, stop, position,
    contrast, phase] of the data frame, one for each Gabor patch.  The name
    [session_path] is no parameter of the function and no local name of it:
    it is read in the globals of the module, where only the script under
    [if __name__ == "__main__"] binds it.  [session_path] is that global,
    [None] when the name is not bound, as it is when [extract_replay] of the
    imported module calls the function: reading it then raises
    [NameError].  [np.append(..., axis=1)] wants as many rows on both sides,
    and the data frame five columns. *)
Definition extract_passiveGabor_df (session_path : option string)
  (fttl : Camera.Audio.t) : py (list (list float)) :=
  let times := Camera.Audio.times fttl in
  thresh <- gabor_thresh times ;;
  let idx_start_stims :=
    where_from (fun x => (x <? thresh) && (0.1 <? x)) 0%Z (Np.diff times) in
  let idx_end_stims := map (fun i => (i + 1)%Z) idx_start_stims in
  start_times <- Np.take times idx_start_stims ;;
  end_times <- Np.take times idx_end_stims ;;
  idx0 <- Py.index idx_start_stims 0 ;;
  let first_stim_off_idx := (idx0 - 1)%Z in
  let first_stim_on_idx := (first_stim_off_idx - 1)%Z in
  ' (start_times, end_times) <-
      (if (first_stim_on_idx <=? 0)%Z then
         off <- Py.index times first_stim_off_idx ;;
         let end_times := off :: end_times in
         end0 <- Py.index end_times 0 ;;
         Ok ((end0 - 0.3) :: start_times, end_times)
       else Ok (start_times, end_times)) ;;
  let passiveGabor_intervals := combine start_times end_times in
  assert (allclose (map (fun r => snd r - fst r) passiveGabor_intervals) 0.3 0.15) ;;;
  session_path <- match session_path with
                  | Some p => Ok p
                  | None => Raise NameError
                  end ;;
  fixture <- load_passive_session_fixtures session_path ;;
  let passiveGabor_properties := pcs fixture in
  if (length passiveGabor_intervals =? length passiveGabor_properties)%nat then
    let passiveGabor_table :=
      map (fun r => fst (fst r) :: snd (fst r) :: snd r)
        (combine passiveGabor_intervals passiveGabor_properties) in
    if forallb (fun r => (length r =? 5)%nat) passiveGabor_table
    then Ok passiveGabor_table
    else Raise ValueError
  else Raise ValueError.

End Fixtures.

(** A session for the examples: the session the script binds
    [session_path] to, with settings that make it session 1 and fixtures of
    six patches. *)
Definition example_session_path : string :=
  "/home/nico/Downloads/FlatIron/churchlandlab/Subjects/CSHL060/2020-03-10/001".

Definition example_load_settings (session_path : string) : py (list Z * Z) :=
  Ok ([0; 1; 2; 3]%Z, 1%Z).

Definition example_np_load (file : string) : py (list (list float)) :=
  if String.eqb file "session_1_passive_pcs.npy"
  then Ok [[1; 1; 1]; [2; 2; 2]; [3; 3; 3]; [4; 4; 4]; [5; 5; 5]; [6; 6; 6]]
  else Ok [].

(** Ten fronts of the screen: a patch of 0.3 s every 1.3 s, the first at
    the very first front. *)
Definition example_gabor : Camera.Audio.t :=
  {| Camera.Audio.times := [0; 0.3; 1.3; 1.6; 2.6; 2.9; 3.9; 4.2; 5.2; 5.5];
     Camera.Audio.polarities := [1; -1; 1; -1; 1; -1; 1; -1; 1; -1]%Z |}.

(** Sixteen fronts of the screen: long gaps first, then six patches. *)
Definition example_gabor_late : Camera.Audio.t :=
  {| Camera.Audio.times :=
       [-4; -2.5; -1.2; 0; 1.3; 1.6; 2.6; 2.9; 3.9; 4.2; 5.2; 5.6; 6.6; 6.9; 7.9; 8.2];
     Camera.Audio.polarities := [] |}.

(** A replay for the examples: eighty sounds, one a second, a tone of
    0.1 s and a noise of 0.5 s in turn; forty valve openings of 0.05 s, one
    a second. *)
Definition example_replay : Camera.Audio.t :=
  {| Camera.Audio.times :=
       flat_map (fun k => [Np.of_Z (Z.of_nat k);
                           Np.of_Z (Z.of_nat k) + (if Nat.even k then 0.1 else 0.5)])
         (seq 0 80);
     Camera.Audio.polarities := flat_map (fun _ => [1; -1]%Z) (seq 0 80) |}.

Definition example_tones : list (float * float) :=
  map (fun k => (Np.of_Z (Z.of_nat (2 * k)), Np.of_Z (Z.of_nat (2 * k)) + 0.1)) (seq 0 40).

Definition example_noises : list (float * float) :=
  map (fun k => (Np.of_Z (Z.of_nat (2 * k + 1)), Np.of_Z (Z.of_nat (2 * k + 1)) + 0.5))
    (seq 0 40).

Definition example_valve : Camera.Audio.t :=
  {| Camera.Audio.times :=
       flat_map (fun k => [Np.of_Z (Z.of_nat k); Np.of_Z (Z.of_nat k) + 0.05]) (seq 0 40);
     Camera.Audio.polarities := flat_map (fun _ => [1; -1]%Z) (seq 0 40) |}.

End Passive.

(** * Properties *)

Lemma bind_ok {A B : Type} (c : py A) (k : A -> py B) (b : B) :
  bind c k = Ok b -> exists a, c = Ok a /\ k a = Ok b.
Proof.
  destruct c as [a|e]; simpl; intros H.
  - exists a. split; [reflexivity|exact H].
  - discriminate.
Qed.

Lemma assert_ok (b : bool) : assert b = Ok tt -> b = true.
Proof. destruct b; [reflexivity|discriminate]. Qed.

(** ** Order facts on binary64, from the specification of the primitives *)

Module FloatFacts.

Local Open Scope float_scope.

Ltac cmp_cases :=
  repeat match goal with
  | |- context [Pos.compare_cont Eq ?a ?b] =>
      change (Pos.compare_cont Eq a b) with (a ?= b)%positive
  | H : context [Pos.compare_cont Eq ?a ?b] |- _ =>
      change (Pos.compare_cont Eq a b) with (a ?= b)%positive in H
  | |- context [(?a ?= ?b)%Z] => destruct (Z.compare_spec a b)
  | H : context [(?a ?= ?b)%Z] |- _ => destruct (Z.compare_spec a b)
  | |- context [(?a ?= ?b)%positive] => destruct (Pos.compare_spec a b)
  | H : context [(?a ?= ?b)%positive] |- _ => destruct (Pos.compare_spec a b)
  end.

Ltac sf_solve :=
  simpl in *; try discriminate; try reflexivity; auto;
  cmp_cases; simpl in *; subst; try discriminate; try reflexivity; try lia; auto.

Ltac sf_cases a := destruct a as [[]|[]| |[] ? ?].

Lemma SFltb_trans a b c :
  SFltb a b = true -> SFltb b c = true -> SFltb a c = true.
Proof.
  unfold SFltb. sf_cases a; sf_cases b; sf_cases c;
    simpl; try discriminate; try reflexivity; intros H1 H2; sf_solve.
Qed.

Lemma SFltb_leb_trans a b c :
  SFltb a b = true -> SFleb b c = true -> SFltb a c = true.
Proof.
  unfold SFltb, SFleb. sf_cases a; sf_cases b; sf_cases c;
    simpl; try discriminate; try reflexivity; intros H1 H2; sf_solve.
Qed.

Lemma SFltb_neg_trans a b c :
  SFltb a b = true -> c <> S754_nan -> SFltb a c = true \/ SFltb c b = true.
Proof.
  unfold SFltb. sf_cases a; sf_cases b; sf_cases c;
    simpl; try discriminate; try congruence; auto; intros H1 H2; sf_solve.
Qed.

Lemma SFeqb_not_ltb a b :
  SFeqb a b = true -> SFltb a b = false /\ SFltb b a = false.
Proof.
  unfold SFltb, SFeqb. sf_cases a; sf_cases b;
    simpl; try discriminate; auto; intros H1; sf_solve;
    try rewrite Pos.compare_refl in *; try rewrite Z.compare_refl in *; auto.
Qed.

Lemma isnan_spec x : Np.isnan x = true <-> Prim2SF x = S754_nan.
Proof.
  unfold Np.isnan. rewrite eqb_spec. unfold SFeqb.
  destruct (Prim2SF x) as [[]|[]| |[] m e]; simpl; split;
    try discriminate; try reflexivity;
    rewrite Z.compare_refl;
    change (Pos.compare_cont Eq m m) with (m ?= m)%positive;
    rewrite Pos.compare_refl; simpl; discriminate.
Qed.

Lemma Prim2SF_infinity : Prim2SF infinity = S754_infinity false.
Proof. reflexivity. Qed.

(** A consumed reference value, filled with infinity, is within no
    tolerance of any event. *)
Lemma inf_dist_not_lt x t : (abs (infinity - x) <? t) = false.
Proof.
  rewrite ltb_spec, abs_spec, sub_spec, Prim2SF_infinity.
  unfold SF64sub, SFltb.
  destruct (Prim2SF x) as [[]|[]| |[] m e], (Prim2SF t) as [[]|[]| |[] mt et];
    reflexivity.
Qed.

(** A distance within some tolerance is below the distance to a consumed
    reference value. *)
Lemma dist_lt_inf v x t :
  (abs (v - x) <? t) = true -> (abs (v - x) <? abs (infinity - x)) = true.
Proof.
  rewrite !ltb_spec, !abs_spec, !sub_spec, Prim2SF_infinity.
  unfold SF64sub, SFltb, SFsub.
  destruct (Prim2SF x) as [[]|[]| |[] m e], (Prim2SF v) as [[]|[]| |[] mv ev];
    try match goal with
      | |- context [binary_normalize ?a ?b ?c ?d ?f] =>
          generalize (binary_normalize a b c d f); intros [[]|[]| |[] mz ez]
      end;
    destruct (Prim2SF t) as [[]|[]| |[] mt et];
    simpl; try discriminate; try reflexivity.
Qed.

Lemma ltb_not_nan a b : (a <? b) = true -> Np.isnan a = false /\ Np.isnan b = false.
Proof.
  intros H. split.
  - destruct (Np.isnan a) eqn:E; [|reflexivity]. apply isnan_spec in E.
    rewrite ltb_spec, E in H. discriminate.
  - destruct (Np.isnan b) eqn:E; [|reflexivity]. apply isnan_spec in E.
    rewrite ltb_spec, E in H. unfold SFltb in H.
    destruct (Prim2SF a) as [[]|[]| |[] m e]; discriminate.
Qed.

Lemma ltb_trans a b c : (a <? b) = true -> (b <? c) = true -> (a <? c) = true.
Proof. rewrite !ltb_spec. apply SFltb_trans. Qed.

Lemma ltb_leb_trans a b c : (a <? b) = true -> (b <=? c) = true -> (a <? c) = true.
Proof. rewrite !ltb_spec, leb_spec. apply SFltb_leb_trans. Qed.

Lemma ltb_neg_trans a b c :
  (a <? b) = true -> Np.isnan c = false -> (a <? c) = true \/ (c <? b) = true.
Proof.
  rewrite !ltb_spec. intros H Hc. apply SFltb_neg_trans; [exact H|].
  intros E. apply isnan_spec in E. congruence.
Qed.

Lemma eqb_not_ltb a b : (a =? b) = true -> (a <? b) = false /\ (b <? a) = false.
Proof. rewrite eqb_spec, !ltb_spec. apply SFeqb_not_ltb. Qed.

End FloatFacts.

(** ** The sign of a difference, from the specification of the subtraction *)

Module SubFacts.

Local Open Scope Z_scope.

Lemma digits2_pos_size p : digits2_pos p = Pos.size p.
Proof. induction p; simpl; congruence. Qed.

Lemma digits2_bounds m :
  Zpos m < 2 ^ Zpos (digits2_pos m) /\ 2 ^ (Zpos (digits2_pos m) - 1) <= Zpos m.
Proof.
  rewrite digits2_pos_size. split.
  - pose proof (Pos.size_gt m) as H.
    apply Pos2Z.pos_lt_pos in H. rewrite Pos2Z.inj_pow in H. exact H.
  - pose proof (Pos.size_le m) as H.
    apply Pos2Z.pos_le_pos in H. rewrite Pos2Z.inj_pow in H.
    replace (Zpos (Pos.size m)) with (Z.succ (Zpos (Pos.size m) - 1)) in H by lia.
    rewrite Z.pow_succ_r in H by lia. lia.
Qed.

Lemma bounded_bounds m e :
  bounded prec emax m e = true ->
  Zpos m < 2 ^ prec /\ (SpecFloat.emin prec emax < e -> 2 ^ (prec - 1) <= Zpos m).
Proof.
  unfold bounded, canonical_mantissa, fexp. intros H.
  apply andb_true_iff in H. destruct H as [H _]. apply Z.eqb_eq in H.
  destruct (digits2_bounds m) as [Hlt Hge].
  set (d := Zpos (digits2_pos m)) in *.
  assert (Hd : 0 < d) by (unfold d; lia).
  split.
  - assert (d <= prec) by lia.
    eapply Z.lt_le_trans; [exact Hlt|]. apply Z.pow_le_mono_r; lia.
  - intros He. assert (d = prec) by lia. subst d. rewrite <- H0. exact Hge.
Qed.

Lemma iter_xO m d : Zpos (Pos.iter xO m d) = Zpos m * 2 ^ Zpos d.
Proof.
  induction d using Pos.peano_ind.
  - simpl. lia.
  - rewrite Pos.iter_succ, Pos2Z.inj_succ, Z.pow_succ_r by lia.
    change (Zpos (Pos.iter xO m d)~0) with (2 * Zpos (Pos.iter xO m d)). lia.
Qed.

Lemma shl_align_value m e e' :
  e' <= e -> Zpos (fst (shl_align m e e')) = Zpos m * 2 ^ (e - e').
Proof.
  intros H. unfold shl_align.
  destruct (e' - e) as [|p|p] eqn:E; try lia.
  - replace (e - e') with 0 by lia. cbn [fst]. rewrite Z.pow_0_r. lia.
  - cbn [fst]. rewrite iter_xO. replace (e - e') with (Zpos p) by lia. reflexivity.
Qed.

(** A rounded result carries the sign it was given. *)
Lemma round_aux_sign sx m e l :
  SFltb (S754_zero false) (binary_round_aux prec emax sx m e l) = true -> sx = false.
Proof.
  unfold binary_round_aux.
  destruct (shr_fexp prec emax m e l) as [mrs' e'].
  destruct (shr_fexp prec emax _ e' loc_Exact) as [mrs'' e''].
  destruct (shr_m mrs'') as [|p|p].
  - destruct sx; intros H; [discriminate H|reflexivity].
  - destruct (e'' <=? emax - prec); destruct sx; intros H;
      try discriminate H; reflexivity.
  - intros H. discriminate H.
Qed.

Lemma normalize_pos m e :
  SFltb (S754_zero false) (binary_normalize prec emax m e false) = true -> 0 < m.
Proof.
  unfold binary_normalize, binary_round. destruct m as [|p|p]; try discriminate; [lia|].
  destruct (shl_align p e _) as [mz ez]. intros H. apply round_aux_sign in H. discriminate.
Qed.

Lemma SFsub_pos_lt_finite sa ma ea sb mb eb :
  bounded prec emax ma ea = true -> bounded prec emax mb eb = true ->
  SFltb (S754_zero false) (SF64sub (S754_finite sb mb eb) (S754_finite sa ma ea)) = true ->
  SFltb (S754_finite sa ma ea) (S754_finite sb mb eb) = true.
Proof.
  unfold SF64sub, SFsub. intros VA VB H. apply normalize_pos in H.
  destruct (bounded_bounds _ _ VA) as [Ha1 Ha2].
  destruct (bounded_bounds _ _ VB) as [Hb1 Hb2].
  assert (Hea : SpecFloat.emin prec emax <= ea).
  { unfold bounded, canonical_mantissa, fexp in VA.
    apply andb_true_iff in VA. destruct VA as [VA _]. apply Z.eqb_eq in VA. lia. }
  assert (Heb : SpecFloat.emin prec emax <= eb).
  { unfold bounded, canonical_mantissa, fexp in VB.
    apply andb_true_iff in VB. destruct VB as [VB _]. apply Z.eqb_eq in VB. lia. }
  rewrite !shl_align_value in H by lia.
  assert (Hp : 2 ^ prec = 2 * 2 ^ (prec - 1)) by reflexivity.
  unfold SFltb, SFcompare.
  change (Pos.compare_cont Eq ma mb) with (ma ?= mb)%positive.
  destruct (Z.compare_spec ea eb) as [E|E|E].
  - subst eb. rewrite Z.min_id, Z.sub_diag, Z.pow_0_r, !Z.mul_1_r in H.
    destruct sa, sb; cbn [cond_Zopp] in H; try lia; try reflexivity;
      destruct (Pos.compare_spec ma mb); cbn [CompOpp]; try reflexivity; subst; lia.
  - rewrite Z.min_r in H by lia. rewrite Z.sub_diag, Z.pow_0_r, Z.mul_1_r in H.
    assert (Hpow : 2 <= 2 ^ (eb - ea)) by (apply (Z.pow_le_mono_r 2 1); lia).
    destruct sa, sb; cbn [cond_Zopp] in H; try reflexivity; exfalso.
    + specialize (Hb2 ltac:(lia)). nia.
    + nia.
  - rewrite Z.min_l in H by lia. rewrite Z.sub_diag, Z.pow_0_r, Z.mul_1_r in H.
    assert (Hpow : 2 <= 2 ^ (ea - eb)) by (apply (Z.pow_le_mono_r 2 1); lia).
    destruct sa, sb; cbn [cond_Zopp] in H; try reflexivity; exfalso.
    + nia.
    + specialize (Ha2 ltac:(lia)). nia.
Qed.

Lemma SFsub_pos_lt A B :
  valid_binary A = true -> valid_binary B = true ->
  SFltb (S754_zero false) (SF64sub B A) = true -> SFltb A B = true.
Proof.
  destruct A as [[]|[]| |sa ma ea], B as [[]|[]| |sb mb eb]; intros VA VB;
    try (intros H; (discriminate H || reflexivity)).
  - destruct sb; intros H; (discriminate H || reflexivity).
  - destruct sb; intros H; (discriminate H || reflexivity).
  - destruct sa; intros H; (discriminate H || reflexivity).
  - destruct sa; intros H; (discriminate H || reflexivity).
  - apply SFsub_pos_lt_finite; assumption.
Qed.

(** A positive difference: the subtrahend is below the minuend. *)
Lemma sub_pos_lt (a b : float) : (0 <? b - a)%float = true -> (a <? b)%float = true.
Proof.
  rewrite !ltb_spec, sub_spec. apply SFsub_pos_lt; apply Prim2SF_valid.
Qed.

End SubFacts.

(** ** Facts on the numpy reductions *)

Module NpFacts.

Local Open Scope float_scope.

Lemma min_from_nan best l : Np.isnan best = true -> Np.min_from best l = best.
Proof.
  revert best. induction l as [|y l IH]; intros best Hb; simpl.
  - reflexivity.
  - rewrite Hb. apply IH. exact Hb.
Qed.

(** [argmin] points at the value [min] returns. *)
Lemma argmin_from_spec l : forall pre bi best d,
  (bi < length pre)%nat -> nth bi pre d = best ->
  let r := Np.argmin_from bi best (length pre) l in
  (r < length (pre ++ l))%nat /\ nth r (pre ++ l) d = Np.min_from best l.
Proof.
  induction l as [|y l IH]; intros pre bi best d Hbi Hnth; simpl.
  - rewrite app_nil_r. split; [exact Hbi|exact Hnth].
  - destruct (Np.isnan best) eqn:Eb.
    + rewrite min_from_nan by exact Eb. split.
      * rewrite length_app. lia.
      * rewrite app_nth1 by exact Hbi. exact Hnth.
    + assert (Hlen : length (pre ++ [y]) = S (length pre))
        by (rewrite length_app; simpl; lia).
      assert (Happ : pre ++ y :: l = (pre ++ [y]) ++ l)
        by (rewrite <- app_assoc; reflexivity).
      rewrite Happ, <- Hlen.
      destruct (Np.isnan y) eqn:Ey; simpl.
      * apply IH.
        -- rewrite Hlen. lia.
        -- rewrite app_nth2 by lia. rewrite Nat.sub_diag. reflexivity.
      * destruct (y <? best) eqn:Elt.
        -- apply IH.
           ++ rewrite Hlen. lia.
           ++ rewrite app_nth2 by lia. rewrite Nat.sub_diag. reflexivity.
        -- apply IH.
           ++ rewrite Hlen. lia.
           ++ rewrite app_nth1 by exact Hbi. exact Hnth.
Qed.

Lemma argmin_min l r m d :
  Np.argmin l = Ok r -> Np.min l = Ok m ->
  (r < length l)%nat /\ nth r l d = m.
Proof.
  destruct l as [|x l]; simpl; [discriminate|].
  intros Hr Hm. injection Hr as <-. injection Hm as <-.
  apply (argmin_from_spec l [x] 0%nat x d); simpl; [lia|reflexivity].
Qed.

Lemma where_first_from_spec {A : Type} (cond : A -> bool) l : forall i r d,
  Np.where_first_from cond i l = Ok r ->
  (i <= r < i + length l)%nat /\ cond (nth (r - i) l d) = true
  /\ forall j, (j < r - i)%nat -> cond (nth j l d) = false.
Proof.
  induction l as [|y l IH]; intros i r d; simpl; [discriminate|].
  destruct (cond y) eqn:Ey.
  - intros H. injection H as <-. rewrite Nat.sub_diag.
    repeat split; try lia. exact Ey.
  - intros H. apply (IH _ _ d) in H. destruct H as (Hr & Hc & Hf).
    replace (r - i)%nat with (S (r - S i)) by lia.
    repeat split; try lia; [exact Hc|].
    intros [|j] Hj; [exact Ey|]. apply Hf. lia.
Qed.

Lemma where_first_spec {A : Type} (cond : A -> bool) l r d :
  Np.where_first cond l = Ok r ->
  (r < length l)%nat /\ cond (nth r l d) = true
  /\ forall j, (j < r)%nat -> cond (nth j l d) = false.
Proof.
  intros H. apply (where_first_from_spec cond l 0%nat r d) in H.
  rewrite Nat.sub_0_r in H. destruct H as (Hr & Hc & Hf).
  repeat split; [lia|exact Hc|exact Hf].
Qed.

(** An array whose consecutive differences are positive increases. *)
Lemma diff_pos_increasing l :
  forallb (fun d => 0 <? d) (Np.diff l) = true -> Np.increasing l = true.
Proof.
  induction l as [|x l IH]; [reflexivity|].
  destruct l as [|y l]; [reflexivity|].
  cbn [Np.diff Np.increasing forallb]. intros H.
  apply andb_true_iff in H. destruct H as [Hd Hrest].
  apply andb_true_iff. split.
  - apply SubFacts.sub_pos_lt. exact Hd.
  - apply IH. exact Hrest.
Qed.

End NpFacts.

(** ** The correspondence matcher *)

Module MatcherFacts.

Local Open Scope float_scope.

Lemma length_set_mask mask : forall i v,
  length (Camera.set_mask mask i v) = length mask.
Proof.
  induction mask as [|m mask IH]; intros [|i] v; simpl; try reflexivity.
  rewrite IH. reflexivity.
Qed.

Lemma nth_set_mask_same mask : forall i v d,
  (i < length mask)%nat -> nth i (Camera.set_mask mask i v) d = v.
Proof.
  induction mask as [|m mask IH]; intros [|i] v d; simpl; try lia; try reflexivity.
  intros H. apply IH. lia.
Qed.

Lemma nth_set_mask_other mask : forall i j v d,
  i <> j -> nth j (Camera.set_mask mask i v) d = nth j mask d.
Proof.
  induction mask as [|m mask IH]; intros [|i] [|j] v d Hij; simpl;
    try reflexivity; try congruence.
  apply IH. congruence.
Qed.

Lemma set_mask_id mask : forall i,
  nth i mask false = false -> Camera.set_mask mask i false = mask.
Proof.
  induction mask as [|m mask IH]; intros [|i]; simpl; try reflexivity.
  - intros ->. reflexivity.
  - intros H. rewrite IH by exact H. reflexivity.
Qed.

Lemma length_dists arr mask x :
  length mask = length arr -> length (Camera.dists arr mask x) = length arr.
Proof.
  intros H. unfold Camera.dists, Camera.filled.
  rewrite !length_map, length_combine. lia.
Qed.

Lemma nth_dists arr : forall mask x j d,
  length mask = length arr -> (j < length arr)%nat ->
  nth j (Camera.dists arr mask x) d
  = abs ((if nth j mask false then infinity else nth j arr d) - x).
Proof.
  unfold Camera.dists, Camera.filled.
  induction arr as [|a arr IH]; intros [|m mask] x j d Hl Hj; simpl in *; try lia.
  destruct j as [|j]; [reflexivity|].
  apply IH; lia.
Qed.

(** Whatever the policy, the index chosen holds a distance within
    tolerance, so it is not one that was consumed. *)
Lemma choose_spec arr mask x tol take dmin idx :
  length mask = length arr ->
  Np.min (Camera.dists arr mask x) = Ok dmin -> (dmin <? tol) = true ->
  Camera.choose take tol (Camera.dists arr mask x) = Ok idx ->
  (idx < length arr)%nat
  /\ (nth idx (Camera.dists arr mask x) 0 <? tol) = true
  /\ nth idx mask false = false.
Proof.
  intros Hl Hmin Hlt Hch.
  assert (H : (idx < length arr)%nat
              /\ (nth idx (Camera.dists arr mask x) 0 <? tol) = true).
  { destruct take; simpl in Hch.
    - apply (NpFacts.where_first_spec _ _ _ 0) in Hch.
      rewrite length_dists in Hch by exact Hl. tauto.
    - destruct (NpFacts.argmin_min _ _ _ 0 Hch Hmin) as [Hr Hn].
      rewrite length_dists in Hr by exact Hl. rewrite Hn. tauto. }
  destruct H as [Hi Hd]. repeat split; try assumption.
  rewrite nth_dists in Hd by assumption.
  destruct (nth idx mask false); [|reflexivity].
  rewrite FloatFacts.inf_dist_not_lt in Hd. discriminate.
Qed.

Lemma matched_cons_index idx rest :
  Camera.matched (Z.of_nat idx :: rest) = Z.of_nat idx :: Camera.matched rest.
Proof.
  unfold Camera.matched. simpl.
  destruct (Z.of_nat idx =? -1)%Z eqn:E; [|reflexivity].
  apply Z.eqb_eq in E. lia.
Qed.

Lemma matched_cons_sentinel rest :
  Camera.matched ((-1)%Z :: rest) = Camera.matched rest.
Proof. reflexivity. Qed.

(** In injective mode every index the loop hands out was free in the mask
    the loop started from, and none is handed out twice. *)
Lemma attribute_loop_fresh arr tol take events : forall mask out,
  length mask = length arr ->
  Camera.attribute_loop arr tol true take mask events = Ok out ->
  (forall z, In z (Camera.matched out) ->
     exists j, z = Z.of_nat j /\ (j < length arr)%nat /\ nth j mask false = false)
  /\ NoDup (Camera.matched out).
Proof.
  induction events as [|x events IH]; intros mask out Hl Hrun; simpl in Hrun.
  - injection Hrun as <-. split; [intros z []|constructor].
  - apply bind_ok in Hrun. destruct Hrun as (dmin & Hmin & Hrun).
    destruct (dmin <? tol) eqn:Hlt.
    + apply bind_ok in Hrun. destruct Hrun as (idx & Hch & Hrun).
      apply bind_ok in Hrun. destruct Hrun as (rest & Hrest & Hout).
      injection Hout as <-.
      destruct (choose_spec _ _ _ _ _ _ _ Hl Hmin Hlt Hch) as (Hi & _ & Hfree).
      apply IH in Hrest; [|rewrite length_set_mask; exact Hl].
      destruct Hrest as [Hin Hnd].
      assert (Hother : forall z, In z (Camera.matched rest) ->
                exists j, z = Z.of_nat j /\ (j < length arr)%nat
                          /\ nth j mask false = false /\ j <> idx).
      { intros z Hz. destruct (Hin z Hz) as (j & -> & Hj & Hm).
        exists j. assert (j <> idx).
        { intros ->. rewrite nth_set_mask_same in Hm by lia. discriminate. }
        rewrite nth_set_mask_other in Hm by congruence. tauto. }
      rewrite matched_cons_index. split.
      * intros z [<-|Hz].
        -- exists idx. tauto.
        -- destruct (Hother z Hz) as (j & ? & ? & ? & _). exists j. tauto.
      * constructor; [|exact Hnd].
        intros Hz. destruct (Hother _ Hz) as (j & Hj & _ & _ & Hne).
        apply Nat2Z.inj in Hj. congruence.
    + apply bind_ok in Hrun. destruct Hrun as (rest & Hrest & Hout).
      injection Hout as <-. rewrite matched_cons_sentinel.
      apply IH; assumption.
Qed.

Lemma length_masked_invalid arr : length (Camera.masked_invalid arr) = length arr.
Proof. unfold Camera.masked_invalid. apply length_map. Qed.

(** The policies [attribute_times] accepts. *)
Lemma attribute_times_policy arr events tol injective take out :
  Camera.attribute_times arr events tol injective take = Ok out ->
  exists pol,
    Camera.attribute_loop arr tol injective pol (Camera.masked_invalid arr) events
    = Ok out.
Proof.
  unfold Camera.attribute_times.
  destruct (String.eqb (Py.lower take) "first");
    [intros H; exists Camera.First; exact H|].
  destruct (String.eqb (Py.lower take) "nearest");
    [intros H; exists Camera.Nearest; exact H|discriminate].
Qed.

End MatcherFacts.

(** C1. With [injective=True], whatever the reference array, the events,
    the tolerance and the policy, no reference index other than the
    sentinel [-1] occurs twice in the array [attribute_times] returns. *)
Theorem attribute_times_injective_nodup
  (arr events : list float) (tol : float) (take : string) (out : list Z) :
  Camera.attribute_times arr events tol true take = Ok out ->
  NoDup (Camera.matched out).
Proof.
  intros H. apply MatcherFacts.attribute_times_policy in H.
  destruct H as [pol H].
  apply MatcherFacts.attribute_loop_fresh in H.
  - apply H.
  - apply MatcherFacts.length_masked_invalid.
Qed.

Lemma attribute_times_injective_nodup_witness :
  Camera.attribute_times [1.0; 1.05; 3.0; 3.0]%float [1.02; 3.01; 2.99; 7]%float
    0.1%float true "first" = Ok [0; 2; 3; -1]%Z
  /\ NoDup (Camera.matched [0; 2; 3; -1]%Z).
Proof.
  split.
  - vm_compute. reflexivity.
  - apply (attribute_times_injective_nodup
             [1.0; 1.05; 3.0; 3.0]%float [1.02; 3.01; 2.99; 7]%float
             0.1%float "first").
    vm_compute. reflexivity.
Defined.

(** C2, as the code has it.  On the reference [1.0, 1.05, 3.0], the
    candidates [1.02, 3.01], the tolerance 0.1 and injective matching,
    [attribute_times] returns [0, 2] under [first], and [0, 2] under
    [nearest] as well: 1.0, at 0.02 from 1.02, is nearer than 1.05. *)
Theorem attribute_times_scenario :
  Camera.attribute_times [1.0; 1.05; 3.0]%float [1.02; 3.01]%float 0.1%float true "first"
  = Ok [0; 2]%Z
  /\ Camera.attribute_times [1.0; 1.05; 3.0]%float [1.02; 3.01]%float 0.1%float true "nearest"
     = Ok [0; 2]%Z.
Proof. split; vm_compute; reflexivity. Qed.

(** The scenario as the specification has it, with [1, 2] under
    [nearest], does not hold. *)
Lemma attribute_times_scenario_nearest_differs :
  ~ (Camera.attribute_times [1.0; 1.05; 3.0]%float [1.02; 3.01]%float 0.1%float true "first"
     = Ok [0; 2]%Z
     /\ Camera.attribute_times [1.0; 1.05; 3.0]%float [1.02; 3.01]%float 0.1%float true "nearest"
        = Ok [1; 2]%Z).
Proof. intros [_ H]. vm_compute in H. discriminate. Qed.

(** ** What a correspondence mapping holds *)

Module MappingFacts.

Local Open Scope float_scope.

Import MatcherFacts.

(** Each event is left unmatched or is given an index of [arr] whose value
    is within [tol] of it. *)
Lemma attribute_loop_within arr tol injective take events : forall mask out,
  length mask = length arr ->
  Camera.attribute_loop arr tol injective take mask events = Ok out ->
  Forall2 (fun x z =>
             z = (-1)%Z
             \/ exists idx, z = Z.of_nat idx /\ (idx < length arr)%nat
                            /\ (abs (nth idx arr 0 - x) <? tol) = true)
    events out.
Proof.
  induction events as [|x events IH]; intros mask out Hl Hrun; simpl in Hrun.
  - injection Hrun as <-. constructor.
  - apply bind_ok in Hrun. destruct Hrun as (dmin & Hmin & Hrun).
    destruct (dmin <? tol) eqn:Hlt.
    + apply bind_ok in Hrun. destruct Hrun as (idx & Hch & Hrun).
      apply bind_ok in Hrun. destruct Hrun as (rest & Hrest & Hout).
      injection Hout as <-.
      destruct (choose_spec _ _ _ _ _ _ _ Hl Hmin Hlt Hch) as (Hi & Hd & Hfree).
      rewrite nth_dists, Hfree in Hd by assumption.
      constructor.
      * right. exists idx. auto.
      * apply (IH (Camera.set_mask mask idx injective)); [|exact Hrest].
        rewrite length_set_mask. exact Hl.
    + apply bind_ok in Hrun. destruct Hrun as (rest & Hrest & Hout).
      injection Hout as <-. constructor; [left; reflexivity|].
      apply (IH mask); assumption.
Qed.

End MappingFacts.

(** X1. The array [attribute_times] returns has one entry per event, and
    each entry is the sentinel [-1] or an index of the reference array whose
    value is within the tolerance of the event. *)
Theorem attribute_times_within_tolerance
  (arr events : list float) (tol : float) (injective : bool) (take : string)
  (out : list Z) :
  Camera.attribute_times arr events tol injective take = Ok out ->
  length out = length events
  /\ Forall2 (fun x z =>
                z = (-1)%Z
                \/ exists idx, z = Z.of_nat idx /\ (idx < length arr)%nat
                               /\ (abs (nth idx arr 0 - x) <? tol)%float = true)
       events out.
Proof.
  intros H. apply MatcherFacts.attribute_times_policy in H. destruct H as [pol H].
  apply MappingFacts.attribute_loop_within in H;
    [|apply MatcherFacts.length_masked_invalid].
  split; [symmetry; eapply Forall2_length; exact H|exact H].
Qed.

Lemma attribute_times_within_tolerance_witness :
  length [0; 2; 3; -1]%Z = length [1.02; 3.01; 2.99; 7]%float
  /\ Forall2 (fun x z =>
                z = (-1)%Z
                \/ exists idx, z = Z.of_nat idx
                               /\ (idx < length [1.0; 1.05; 3.0; 3.0]%float)%nat
                               /\ (abs (nth idx [1.0; 1.05; 3.0; 3.0] 0 - x)
                                     <? 0.1)%float = true)
       [1.02; 3.01; 2.99; 7]%float [0; 2; 3; -1]%Z.
Proof.
  apply (attribute_times_within_tolerance
           [1.0; 1.05; 3.0; 3.0]%float [1.02; 3.01; 2.99; 7]%float
           0.1%float true "first").
  vm_compute. reflexivity.
Defined.

(** X2. A policy that is neither [first] nor [nearest], whatever its case,
    is refused with [ValueError], whatever the arrays. *)
Theorem attribute_times_bad_policy
  (arr events : list float) (tol : float) (injective : bool) (take : string) :
  Py.lower take <> "first"%string -> Py.lower take <> "nearest"%string ->
  Camera.attribute_times arr events tol injective take = Raise ValueError.
Proof.
  intros Hf Hn. unfold Camera.attribute_times.
  destruct (String.eqb_spec (Py.lower take) "first"); [contradiction|].
  destruct (String.eqb_spec (Py.lower take) "nearest"); [contradiction|].
  reflexivity.
Qed.

Lemma attribute_times_bad_policy_witness :
  Camera.attribute_times [1.0]%float [1.0]%float 0.1%float true "closest"
  = Raise ValueError.
Proof.
  apply attribute_times_bad_policy; vm_compute; discriminate.
Defined.

(** ** Tolerance and the number of matches *)

Module ToleranceFacts.

Local Open Scope float_scope.

Import MatcherFacts.

Lemma ltb_irrefl a : (a <? a) = false.
Proof.
  destruct (a <? a) eqn:E; [|reflexivity].
  destruct (FloatFacts.ltb_not_nan _ _ E) as [Hn _].
  unfold Np.isnan in Hn. apply negb_false_iff in Hn.
  apply FloatFacts.eqb_not_ltb in Hn. destruct Hn. congruence.
Qed.

Lemma min_from_not_nan l : forall best,
  Np.isnan (Np.min_from best l) = false ->
  Np.isnan best = false /\ Forall (fun y => Np.isnan y = false) l.
Proof.
  induction l as [|y l IH]; intros best H; simpl in H.
  - split; [exact H|constructor].
  - apply IH in H. destruct H as [Hb Hl].
    destruct (Np.isnan best) eqn:Eb; [congruence|].
    destruct (Np.isnan y) eqn:Ey; [congruence|].
    split; [reflexivity|]. constructor; assumption.
Qed.

Lemma first_least_unique l i j : Np.first_least l i -> Np.first_least l j -> i = j.
Proof.
  intros (Hi & Hall_i & Hbefore_i) (Hj & Hall_j & Hbefore_j).
  destruct (Nat.lt_trichotomy i j) as [H|[H|H]]; [|exact H|].
  - specialize (Hbefore_j i H). specialize (Hall_i j Hj). congruence.
  - specialize (Hbefore_i j H). specialize (Hall_j i Hi). congruence.
Qed.

Lemma argmin_from_first_least l : forall pre bi best,
  Forall (fun y => Np.isnan y = false) (pre ++ l) ->
  nth bi pre 0 = best -> Np.first_least pre bi ->
  Np.first_least (pre ++ l) (Np.argmin_from bi best (length pre) l).
Proof.
  induction l as [|y l IH]; intros pre bi best Hnan Hnth Hfl; simpl.
  - rewrite app_nil_r. exact Hfl.
  - destruct Hfl as (Hbi & Hall & Hbefore).
    assert (Hy : Np.isnan y = false).
    { rewrite Forall_forall in Hnan. apply Hnan. apply in_or_app. right. left. reflexivity. }
    assert (Hb : Np.isnan best = false).
    { rewrite Forall_forall in Hnan. apply Hnan. apply in_or_app. left.
      rewrite <- Hnth. apply nth_In. exact Hbi. }
    assert (Hpre : forall j, (j < length pre)%nat -> Np.isnan (nth j pre 0) = false).
    { intros j Hj. rewrite Forall_forall in Hnan. apply Hnan. apply in_or_app. left.
      apply nth_In. exact Hj. }
    assert (Hlen : length (pre ++ [y]) = S (length pre))
      by (rewrite length_app; simpl; lia).
    assert (Happ : pre ++ y :: l = (pre ++ [y]) ++ l)
      by (rewrite <- app_assoc; reflexivity).
    rewrite Hb, Hy. simpl. rewrite Happ in *. rewrite <- Hlen.
    destruct (y <? best) eqn:Elt.
    + apply IH; [exact Hnan| |].
      * rewrite app_nth2 by lia. rewrite Nat.sub_diag. reflexivity.
      * unfold Np.first_least. rewrite Hlen.
        rewrite (app_nth2 pre [y] 0 (le_n (length pre))), Nat.sub_diag. simpl.
        split; [lia|]. split.
        -- intros j Hj. destruct (Nat.eq_dec j (length pre)) as [->|Hne].
           ++ rewrite app_nth2 by lia. rewrite Nat.sub_diag. simpl. apply ltb_irrefl.
           ++ rewrite app_nth1 by lia.
              destruct (nth j pre 0 <? y) eqn:E; [|reflexivity].
              pose proof (FloatFacts.ltb_trans _ _ _ E Elt) as Ht.
              rewrite <- Hnth in Ht. rewrite Hall in Ht by lia. discriminate.
        -- intros j Hj. rewrite app_nth1 by lia.
           destruct (FloatFacts.ltb_neg_trans _ _ (nth j pre 0) Elt (Hpre j Hj)) as [H|H];
             [exact H|].
           rewrite <- Hnth in H. rewrite Hall in H by lia. discriminate.
    + apply IH; [exact Hnan| |].
      * rewrite app_nth1 by lia. exact Hnth.
      * unfold Np.first_least. rewrite Hlen.
        rewrite (app_nth1 pre [y] 0 Hbi).
        split; [lia|]. split.
        -- intros j Hj. destruct (Nat.eq_dec j (length pre)) as [->|Hne].
           ++ rewrite app_nth2 by lia. rewrite Nat.sub_diag. simpl.
              rewrite Hnth. exact Elt.
           ++ rewrite app_nth1 by lia. apply Hall. lia.
        -- intros j Hj. rewrite app_nth1 by lia. apply Hbefore. exact Hj.
Qed.

Lemma argmin_first_least l r :
  Forall (fun y => Np.isnan y = false) l -> Np.argmin l = Ok r -> Np.first_least l r.
Proof.
  destruct l as [|x l]; simpl; [discriminate|].
  intros Hnan H. injection H as <-.
  apply (argmin_from_first_least l [x] 0%nat x); [exact Hnan|reflexivity|].
  unfold Np.first_least. simpl. split; [lia|]. split.
  - intros [|j] Hj; [apply ltb_irrefl|lia].
  - intros j Hj. lia.
Qed.


Lemma consumed_set_mask mask : forall i,
  (i < length mask)%nat -> nth i mask false = false ->
  Camera.consumed (Camera.set_mask mask i true) = S (Camera.consumed mask).
Proof.
  unfold Camera.consumed.
  induction mask as [|m mask IH]; intros [|i] Hi Hfree; simpl in *; try lia.
  - subst m. reflexivity.
  - destruct m; simpl; rewrite IH by (assumption || lia); reflexivity.
Qed.

Lemma min_dists_no_nan arr mask x dmin tol :
  Np.min (Camera.dists arr mask x) = Ok dmin -> (dmin <? tol) = true ->
  Forall (fun y => Np.isnan y = false) (Camera.dists arr mask x).
Proof.
  intros Hmin Hlt.
  destruct (Camera.dists arr mask x) as [|d dx]; [constructor|].
  simpl in Hmin. injection Hmin as <-.
  destruct (FloatFacts.ltb_not_nan _ _ Hlt) as [Hn _].
  apply min_from_not_nan in Hn. destruct Hn. constructor; assumption.
Qed.

(** Under the [nearest] policy, an event matched at the smaller tolerance
    whose reference value is still free at the larger tolerance, where
    more values may have been consumed, is matched to the same value. *)
Lemma nearest_same arr mask1 mask2 x tol1 tol2 dmin1 i1 :
  length mask1 = length arr -> length mask2 = length arr ->
  (forall j, nth j mask1 false = true -> nth j mask2 false = true) ->
  (tol1 <=? tol2) = true ->
  Np.min (Camera.dists arr mask1 x) = Ok dmin1 -> (dmin1 <? tol1) = true ->
  Np.argmin (Camera.dists arr mask1 x) = Ok i1 ->
  nth i1 mask2 false = false ->
  exists dmin2,
    Np.min (Camera.dists arr mask2 x) = Ok dmin2 /\ (dmin2 <? tol2) = true
    /\ Np.argmin (Camera.dists arr mask2 x) = Ok i1.
Proof.
  intros Hl1 Hl2 Hsub Htol Hmin1 Hlt1 Harg1 Hfree2.
  pose proof (min_dists_no_nan _ _ _ _ _ Hmin1 Hlt1) as Hnan1.
  pose proof (argmin_first_least _ _ Hnan1 Harg1) as (Hi1 & Hall1 & Hbefore1).
  rewrite length_dists in Hi1, Hall1 by exact Hl1.
  destruct (NpFacts.argmin_min _ _ _ 0 Harg1 Hmin1) as [_ Hval1].
  assert (Hfree1 : nth i1 mask1 false = false).
  { destruct (nth i1 mask1 false) eqn:E; [|reflexivity].
    apply Hsub in E. congruence. }
  assert (Hd1 : nth i1 (Camera.dists arr mask1 x) 0 = abs (nth i1 arr 0 - x)).
  { rewrite nth_dists by assumption. rewrite Hfree1. reflexivity. }
  assert (Hd2 : nth i1 (Camera.dists arr mask2 x) 0 = abs (nth i1 arr 0 - x)).
  { rewrite nth_dists by assumption. rewrite Hfree2. reflexivity. }
  assert (Hclose : (abs (nth i1 arr 0 - x) <? tol1) = true) by congruence.
  assert (Hsame : forall j, (j < length arr)%nat -> nth j mask2 false = false ->
            nth j (Camera.dists arr mask2 x) 0 = nth j (Camera.dists arr mask1 x) 0).
  { intros j Hj Hm2. rewrite !nth_dists by assumption. rewrite Hm2.
    destruct (nth j mask1 false) eqn:E; [|reflexivity].
    apply Hsub in E. congruence. }
  assert (Hgone : forall j, (j < length arr)%nat -> nth j mask2 false = true ->
            nth j (Camera.dists arr mask2 x) 0 = abs (infinity - x)).
  { intros j Hj Hm2. rewrite nth_dists by assumption. rewrite Hm2. reflexivity. }
  assert (Hnan2 : Forall (fun y => Np.isnan y = false) (Camera.dists arr mask2 x)).
  { apply Forall_forall. intros d Hd.
    apply (In_nth _ _ 0) in Hd. destruct Hd as (j & Hj & <-).
    rewrite length_dists in Hj by exact Hl2.
    destruct (nth j mask2 false) eqn:E.
    - rewrite Hgone by assumption.
      apply FloatFacts.dist_lt_inf in Hclose.
      apply FloatFacts.ltb_not_nan in Hclose. apply Hclose.
    - rewrite Hsame by assumption.
      rewrite Forall_forall in Hnan1. apply Hnan1. apply nth_In.
      rewrite length_dists by exact Hl1. exact Hj. }
  assert (Hfl2 : Np.first_least (Camera.dists arr mask2 x) i1).
  { unfold Np.first_least. rewrite length_dists by exact Hl2.
    split; [exact Hi1|]. split.
    - intros j Hj. rewrite Hd2, <- Hd1.
      destruct (nth j mask2 false) eqn:E.
      + rewrite Hgone by assumption. apply FloatFacts.inf_dist_not_lt.
      + rewrite Hsame by assumption. apply Hall1. exact Hj.
    - intros j Hj. rewrite Hd2.
      destruct (nth j mask2 false) eqn:E.
      + rewrite Hgone by (assumption || lia).
        apply (FloatFacts.dist_lt_inf _ _ tol1). exact Hclose.
      + rewrite Hsame by (assumption || lia). rewrite <- Hd1.
        apply Hbefore1. exact Hj. }
  destruct (Camera.dists arr mask2 x) as [|d dx] eqn:Edx.
  { destruct Hfl2 as [H _]. simpl in H. lia. }
  rewrite <- Edx in *.
  assert (Harg2 : exists i2, Np.argmin (Camera.dists arr mask2 x) = Ok i2)
    by (rewrite Edx; simpl; eauto).
  destruct Harg2 as [i2 Harg2].
  assert (Hmin2 : exists dmin2, Np.min (Camera.dists arr mask2 x) = Ok dmin2)
    by (rewrite Edx; simpl; eauto).
  destruct Hmin2 as [dmin2 Hmin2].
  pose proof (argmin_first_least _ _ Hnan2 Harg2) as Hfl2'.
  pose proof (first_least_unique _ _ _ Hfl2' Hfl2) as ->.
  destruct (NpFacts.argmin_min _ _ _ 0 Harg2 Hmin2) as [_ Hval2].
  exists dmin2. repeat split; [exact Hmin2| |exact Harg2].
  rewrite <- Hval2, Hd2.
  apply (FloatFacts.ltb_leb_trans _ tol1); assumption.
Qed.

(** With [nearest] and [injective=True]: started from masks of which the
    second hides at least what the first hides, the run at the larger
    tolerance ends with at least as many values consumed. *)
Lemma nearest_injective_monotone arr tol1 tol2 events :
  (tol1 <=? tol2) = true ->
  forall mask1 mask2 out1 out2,
  length mask1 = length arr -> length mask2 = length arr ->
  (forall j, nth j mask1 false = true -> nth j mask2 false = true) ->
  Camera.attribute_loop arr tol1 true Camera.Nearest mask1 events = Ok out1 ->
  Camera.attribute_loop arr tol2 true Camera.Nearest mask2 events = Ok out2 ->
  (length (Camera.matched out1) + Camera.consumed mask1
   <= length (Camera.matched out2) + Camera.consumed mask2)%nat.
Proof.
  intros Htol.
  induction events as [|x events IH];
    intros mask1 mask2 out1 out2 Hl1 Hl2 Hsub Hrun1 Hrun2; simpl in Hrun1, Hrun2.
  - injection Hrun1 as <-. injection Hrun2 as <-. simpl.
    clear -Hl1 Hl2 Hsub. revert mask2 arr Hl1 Hl2 Hsub.
    unfold Camera.consumed.
    induction mask1 as [|m1 mask1 IHm]; intros [|m2 mask2] arr Hl1 Hl2 Hsub;
      simpl in *; try lia.
    destruct arr as [|a arr]; simpl in *; [lia|].
    assert (IHs : (length (filter (fun m => m) mask1)
                   <= length (filter (fun m => m) mask2))%nat).
    { apply (IHm mask2 arr); try lia. intros j Hj. apply (Hsub (S j)). exact Hj. }
    destruct m1; simpl.
    + rewrite (Hsub 0%nat eq_refl). simpl. lia.
    + destruct m2; simpl; lia.
  - apply bind_ok in Hrun1. destruct Hrun1 as (dmin1 & Hmin1 & Hrun1).
    apply bind_ok in Hrun2. destruct Hrun2 as (dmin2 & Hmin2 & Hrun2).
    destruct (dmin1 <? tol1) eqn:Hlt1.
    + apply bind_ok in Hrun1. destruct Hrun1 as (i1 & Hch1 & Hrun1).
      apply bind_ok in Hrun1. destruct Hrun1 as (rest1 & Hrest1 & Hout1).
      injection Hout1 as <-. rewrite matched_cons_index.
      destruct (choose_spec _ _ _ _ Camera.Nearest _ _ Hl1 Hmin1 Hlt1 Hch1) as (Hi1 & _ & Hfree1).
      simpl in Hch1.
      pose proof (consumed_set_mask mask1 i1 ltac:(lia) Hfree1) as Hc1.
      destruct (nth i1 mask2 false) eqn:Hm2.
      * (* the value is already consumed at the larger tolerance *)
        assert (Hsub' : forall j, nth j (Camera.set_mask mask1 i1 true) false = true ->
                          nth j mask2 false = true).
        { intros j Hj. destruct (Nat.eq_dec i1 j) as [<-|Hne]; [exact Hm2|].
          rewrite nth_set_mask_other in Hj by exact Hne. apply Hsub. exact Hj. }
        destruct (dmin2 <? tol2) eqn:Hlt2.
        -- apply bind_ok in Hrun2. destruct Hrun2 as (i2 & Hch2 & Hrun2).
           apply bind_ok in Hrun2. destruct Hrun2 as (rest2 & Hrest2 & Hout2).
           injection Hout2 as <-. rewrite matched_cons_index.
           destruct (choose_spec _ _ _ _ Camera.Nearest _ _ Hl2 Hmin2 Hlt2 Hch2) as (Hi2 & _ & Hfree2).
           pose proof (consumed_set_mask mask2 i2 ltac:(lia) Hfree2) as Hc2.
           assert (Hsub'' : forall j, nth j (Camera.set_mask mask1 i1 true) false = true ->
                              nth j (Camera.set_mask mask2 i2 true) false = true).
           { intros j Hj. apply Hsub' in Hj.
             destruct (Nat.eq_dec i2 j) as [<-|Hne].
             - apply nth_set_mask_same. lia.
             - rewrite nth_set_mask_other by exact Hne. exact Hj. }
           pose proof (IH _ _ _ _ ltac:(rewrite length_set_mask; exact Hl1)
                        ltac:(rewrite length_set_mask; exact Hl2) Hsub'' Hrest1 Hrest2).
           simpl. lia.
        -- apply bind_ok in Hrun2. destruct Hrun2 as (rest2 & Hrest2 & Hout2).
           injection Hout2 as <-. rewrite matched_cons_sentinel.
           pose proof (IH _ _ _ _ ltac:(rewrite length_set_mask; exact Hl1)
                        Hl2 Hsub' Hrest1 Hrest2).
           simpl. lia.
      * (* the value is free at the larger tolerance: the same match *)
        destruct (nearest_same _ _ _ _ _ _ _ _ Hl1 Hl2 Hsub Htol Hmin1 Hlt1 Hch1 Hm2)
          as (dmin2' & Hmin2' & Hlt2 & Harg2).
        rewrite Hmin2 in Hmin2'. injection Hmin2' as <-.
        rewrite Hlt2 in Hrun2. simpl in Hrun2. rewrite Harg2 in Hrun2. simpl in Hrun2.
        apply bind_ok in Hrun2. destruct Hrun2 as (rest2 & Hrest2 & Hout2).
        injection Hout2 as <-. rewrite matched_cons_index.
        pose proof (consumed_set_mask mask2 i1 ltac:(lia) Hm2) as Hc2.
        assert (Hsub' : forall j, nth j (Camera.set_mask mask1 i1 true) false = true ->
                          nth j (Camera.set_mask mask2 i1 true) false = true).
        { intros j Hj. destruct (Nat.eq_dec i1 j) as [<-|Hne].
          - apply nth_set_mask_same. lia.
          - rewrite nth_set_mask_other in * by exact Hne. apply Hsub. exact Hj. }
        pose proof (IH _ _ _ _ ltac:(rewrite length_set_mask; exact Hl1)
                     ltac:(rewrite length_set_mask; exact Hl2) Hsub' Hrest1 Hrest2).
        simpl. lia.
    + apply bind_ok in Hrun1. destruct Hrun1 as (rest1 & Hrest1 & Hout1).
      injection Hout1 as <-. rewrite matched_cons_sentinel.
      destruct (dmin2 <? tol2) eqn:Hlt2.
      * apply bind_ok in Hrun2. destruct Hrun2 as (i2 & Hch2 & Hrun2).
        apply bind_ok in Hrun2. destruct Hrun2 as (rest2 & Hrest2 & Hout2).
        injection Hout2 as <-. rewrite matched_cons_index.
        destruct (choose_spec _ _ _ _ Camera.Nearest _ _ Hl2 Hmin2 Hlt2 Hch2) as (Hi2 & _ & Hfree2).
        pose proof (consumed_set_mask mask2 i2 ltac:(lia) Hfree2) as Hc2.
        assert (Hsub' : forall j, nth j mask1 false = true ->
                          nth j (Camera.set_mask mask2 i2 true) false = true).
        { intros j Hj. apply Hsub in Hj.
          destruct (Nat.eq_dec i2 j) as [<-|Hne].
          - apply nth_set_mask_same. lia.
          - rewrite nth_set_mask_other by exact Hne. exact Hj. }
        pose proof (IH _ _ _ _ Hl1 ltac:(rewrite length_set_mask; exact Hl2)
                     Hsub' Hrest1 Hrest2).
        simpl. lia.
      * apply bind_ok in Hrun2. destruct Hrun2 as (rest2 & Hrest2 & Hout2).
        injection Hout2 as <-. rewrite matched_cons_sentinel.
        apply (IH _ _ _ _ Hl1 Hl2 Hsub Hrest1 Hrest2).
Qed.

(** With [injective=False] the mask never changes, so each event is matched
    on its own: one matched at the smaller tolerance is matched at the
    larger. *)
Lemma noninjective_monotone arr tol1 tol2 take events :
  (tol1 <=? tol2) = true ->
  forall mask out1 out2,
  length mask = length arr ->
  Camera.attribute_loop arr tol1 false take mask events = Ok out1 ->
  Camera.attribute_loop arr tol2 false take mask events = Ok out2 ->
  (length (Camera.matched out1) <= length (Camera.matched out2))%nat.
Proof.
  intros Htol.
  induction events as [|x events IH];
    intros mask out1 out2 Hl Hrun1 Hrun2; simpl in Hrun1, Hrun2.
  - injection Hrun1 as <-. injection Hrun2 as <-. simpl. lia.
  - apply bind_ok in Hrun1. destruct Hrun1 as (dmin & Hmin & Hrun1).
    rewrite Hmin in Hrun2. simpl in Hrun2.
    destruct (dmin <? tol1) eqn:Hlt1.
    + pose proof (FloatFacts.ltb_leb_trans _ _ _ Hlt1 Htol) as Hlt2.
      rewrite Hlt2 in Hrun2.
      apply bind_ok in Hrun1. destruct Hrun1 as (i1 & Hch1 & Hrun1).
      apply bind_ok in Hrun1. destruct Hrun1 as (rest1 & Hrest1 & Hout1).
      apply bind_ok in Hrun2. destruct Hrun2 as (i2 & Hch2 & Hrun2).
      apply bind_ok in Hrun2. destruct Hrun2 as (rest2 & Hrest2 & Hout2).
      injection Hout1 as <-. injection Hout2 as <-.
      destruct (choose_spec _ _ _ _ _ _ _ Hl Hmin Hlt1 Hch1) as (_ & _ & Hfree1).
      destruct (choose_spec _ _ _ _ _ _ _ Hl Hmin Hlt2 Hch2) as (_ & _ & Hfree2).
      rewrite set_mask_id in Hrest1, Hrest2 by assumption.
      rewrite !matched_cons_index. simpl.
      pose proof (IH _ _ _ Hl Hrest1 Hrest2). lia.
    + apply bind_ok in Hrun1. destruct Hrun1 as (rest1 & Hrest1 & Hout1).
      injection Hout1 as <-. rewrite matched_cons_sentinel.
      destruct (dmin <? tol2) eqn:Hlt2.
      * apply bind_ok in Hrun2. destruct Hrun2 as (i2 & Hch2 & Hrun2).
        apply bind_ok in Hrun2. destruct Hrun2 as (rest2 & Hrest2 & Hout2).
        injection Hout2 as <-.
        destruct (choose_spec _ _ _ _ _ _ _ Hl Hmin Hlt2 Hch2) as (_ & _ & Hfree2).
        rewrite set_mask_id in Hrest2 by assumption.
        rewrite matched_cons_index. simpl.
        pose proof (IH _ _ _ Hl Hrest1 Hrest2). lia.
      * apply bind_ok in Hrun2. destruct Hrun2 as (rest2 & Hrest2 & Hout2).
        injection Hout2 as <-. rewrite matched_cons_sentinel.
        apply (IH _ _ _ Hl Hrest1 Hrest2).
Qed.

End ToleranceFacts.

(** C3, as the code has it.  For a fixed reference array, events array,
    flag and policy, a larger tolerance never gives fewer matched entries
    when the policy is [nearest] or the matching is not injective.  (With
    [first] and [injective=True] it can: see the counterexample below.) *)
Theorem attribute_times_tolerance_monotone
  (arr events : list float) (injective : bool) (take : string)
  (tol1 tol2 : float) (out1 out2 : list Z) :
  injective = false \/ Py.lower take = "nearest"%string ->
  (tol1 <=? tol2)%float = true ->
  Camera.attribute_times arr events tol1 injective take = Ok out1 ->
  Camera.attribute_times arr events tol2 injective take = Ok out2 ->
  (length (Camera.matched out1) <= length (Camera.matched out2))%nat.
Proof.
  intros Hmode Htol. unfold Camera.attribute_times.
  assert (Hl := MatcherFacts.length_masked_invalid arr).
  destruct injective.
  - destruct Hmode as [Hf|Hn]; [discriminate|]. rewrite Hn. simpl.
    intros H1 H2.
    pose proof (ToleranceFacts.nearest_injective_monotone arr tol1 tol2 events Htol
                  _ _ _ _ Hl Hl (fun j H => H) H1 H2).
    lia.
  - destruct (String.eqb (Py.lower take) "first").
    + apply ToleranceFacts.noninjective_monotone; assumption.
    + destruct (String.eqb (Py.lower take) "nearest"); [|discriminate].
      apply ToleranceFacts.noninjective_monotone; assumption.
Qed.

Lemma attribute_times_tolerance_monotone_witness :
  (length (Camera.matched [-1; 1]%Z) <= length (Camera.matched [1; -1]%Z))%nat.
Proof.
  apply (attribute_times_tolerance_monotone
           [0; 3]%float [2; 3.5]%float true "nearest" 0.8%float 1.5%float).
  - right. reflexivity.
  - reflexivity.
  - vm_compute. reflexivity.
  - vm_compute. reflexivity.
Defined.

(** With [first] and [injective=True], raising the tolerance from 2 to 5
    lets the event 4 take the reference value 0 that the event 0 needed. *)
Lemma attribute_times_tolerance_first_injective :
  (2 <=? 5)%float = true
  /\ Camera.attribute_times [0; 5]%float [4; 0]%float 2%float true "first" = Ok [1; 0]%Z
  /\ Camera.attribute_times [0; 5]%float [4; 0]%float 5%float true "first" = Ok [0; -1]%Z
  /\ (length (Camera.matched [0; -1]%Z) < length (Camera.matched [1; 0]%Z))%nat.
Proof. repeat split; vm_compute; reflexivity. Qed.

(** ** The frame-timestamp reconciler *)

Ltac py_inv H :=
  let a := fresh "v" in
  let Ha := fresh "Hv" in
  apply bind_ok in H; destruct H as (a & Ha & H).

Module AlignFacts.

Lemma length_take {A : Type} (arr : list A) idx : forall out,
  Np.take arr idx = Ok out -> length out = length idx.
Proof.
  induction idx as [|i idx IH]; intros out H; simpl in H.
  - injection H as <-. reflexivity.
  - py_inv H. py_inv H. injection H as <-. simpl. f_equal. apply IH. exact Hv0.
Qed.

(** The binary search does not depend on fuel beyond the width of the
    interval: [searchsorted] runs it to its end. *)
Lemma bisect_left_fuel a v : forall fuel fuel' lo hi,
  (hi - lo <= fuel)%nat -> (hi - lo <= fuel')%nat ->
  Np.bisect_left fuel a v lo hi = Np.bisect_left fuel' a v lo hi.
Proof.
  induction fuel as [|fuel IH]; intros fuel' lo hi H H'.
  - destruct fuel' as [|fuel']; cbn [Np.bisect_left]; [reflexivity|].
    destruct (Nat.ltb_spec lo hi); [lia|reflexivity].
  - destruct fuel' as [|fuel']; cbn [Np.bisect_left].
    + destruct (Nat.ltb_spec lo hi); [lia|reflexivity].
    + destruct (Nat.ltb_spec lo hi) as [Hlt|]; [|reflexivity].
      assert (Hhalf : ((hi - lo) / 2 < hi - lo)%nat)
        by (apply Nat.div_lt; lia).
      destruct (Np.lt_nan _ v); apply IH; lia.
Qed.

End AlignFacts.

(** C4. When [align_with_audio] returns, the array it returns has one entry
    per entry of the frame counter, and searching it for the first audio
    TTL time gives back the index of the first pin state change. *)
Theorem align_with_audio_verified
  (timestamps : list float) (audio : Camera.Audio.t) (pin_state : Camera.Gpio.t)
  (count : list Z) (extrapolate_missing : bool) (out : list float) :
  Camera.align_with_audio timestamps audio pin_state count extrapolate_missing = Ok out ->
  length out = length count
  /\ exists audio0 first_uptick,
       Py.index (Camera.Audio.times audio) 0 = Ok audio0
       /\ Py.index (Camera.Gpio.indices pin_state) 0 = Ok first_uptick
       /\ Z.of_nat (Np.searchsorted out audio0) = first_uptick.
Proof.
  unfold Camera.align_with_audio. intros H.
  repeat py_inv H. injection H as <-.
  repeat match goal with
         | u : unit |- _ => destruct u
         | Ha : assert _ = Ok tt |- _ => apply assert_ok in Ha
         end.
  split.
  - eapply AlignFacts.length_take. eassumption.
  - match goal with
    | Ha : Py.index (Camera.Audio.times audio) 0 = Ok ?a0,
      Hu : Py.index (Camera.Gpio.indices pin_state) 0 = Ok ?u,
      Hs : (Z.of_nat (Np.searchsorted _ ?a0) =? ?u)%Z = true |- _ =>
        exists a0, u; repeat split; [exact Ha|exact Hu|apply Z.eqb_eq; exact Hs]
    end.
Qed.

(** Eleven hardware timestamps, a frame counter that skips frame 3, and the
    first audio TTL between the third and fourth kept frames. *)
Lemma align_with_audio_verified_witness :
  length [1; 2; 3; 5; 6]%float = length [0; 1; 2; 4; 5]%Z
  /\ exists audio0 first_uptick,
       Py.index [2.5]%float 0 = Ok audio0
       /\ Py.index [2]%Z 0 = Ok first_uptick
       /\ Z.of_nat (Np.searchsorted [1; 2; 3; 5; 6]%float audio0) = first_uptick.
Proof.
  apply (align_with_audio_verified
           [0; 1; 2; 3; 4; 5; 6; 7; 8; 9; 10]%float
           {| Camera.Audio.times := [2.5]%float; Camera.Audio.polarities := [1]%Z |}
           {| Camera.Gpio.indices := [2]%Z; Camera.Gpio.polarities := [1]%Z;
              Camera.Gpio.times := Some [2.5]%float |}
           [0; 1; 2; 4; 5]%Z true).
  vm_compute. reflexivity.
Defined.

(** Fewer hardware timestamps than frames: the two missing ones are
    extrapolated at the rounded frame rate. *)
Example align_with_audio_extrapolates :
  Camera.align_with_audio [0; 1; 2; 3; 4; 5; 6]%float
    {| Camera.Audio.times := [2.5]%float; Camera.Audio.polarities := [1]%Z |}
    {| Camera.Gpio.indices := [2]%Z; Camera.Gpio.polarities := [1]%Z;
       Camera.Gpio.times := Some [2.5]%float |}
    [0; 1; 2; 3; 4; 5; 6; 7]%Z true
  = Ok [1; 2; 3; 4; 5; 6; 7; 8]%float.
Proof. vm_compute. reflexivity. Qed.

(** X3. [align_with_audio] refuses, with [AssertionError], a frame counter
    or camera timestamps that are not strictly increasing, before it looks
    at the audio or the pin state. *)
Theorem align_with_audio_validates
  (timestamps : list float) (audio : Camera.Audio.t) (pin_state : Camera.Gpio.t)
  (count : list Z) (extrapolate_missing : bool) :
  forallb (fun d => 0 <? d)%Z (Np.diffZ count) = false
  \/ forallb (fun d => 0 <? d)%float (Np.diff timestamps) = false ->
  Camera.align_with_audio timestamps audio pin_state count extrapolate_missing
  = Raise AssertionError.
Proof.
  intros H. unfold Camera.align_with_audio.
  destruct (forallb (fun d => 0 <? d)%Z (Np.diffZ count)); [|reflexivity].
  destruct H as [H|H]; [discriminate|]. rewrite H. reflexivity.
Qed.

Lemma align_with_audio_validates_witness :
  Camera.align_with_audio [0; 0.1; 0.2]%float
    {| Camera.Audio.times := [0.1]%float; Camera.Audio.polarities := [1%Z] |}
    {| Camera.Gpio.indices := [1%Z]; Camera.Gpio.polarities := [1%Z];
       Camera.Gpio.times := None |}
    [0; 1; 1]%Z true
  = Raise AssertionError.
Proof.
  apply align_with_audio_validates. left. vm_compute. reflexivity.
Defined.

(** ** Pin state grooming *)

Module GroomFacts.

Lemma length_broadcast_to {A : Type} (n : nat) (v out : list A) :
  Np.broadcast_to n v = Ok out -> length out = n.
Proof.
  unfold Np.broadcast_to. destruct (Nat.eqb_spec (length v) n) as [E|E].
  - intros H. injection H as <-. exact E.
  - destruct v as [|a [|b v]]; try discriminate.
    intros H. injection H as <-. apply repeat_length.
Qed.

Lemma length_interleave {A : Type} (ev : list A) : forall od,
  (length od <= length ev <= S (length od))%nat ->
  length (Np.interleave ev od) = (length ev + length od)%nat.
Proof.
  induction ev as [|e ev IH]; intros [|o od] H; simpl in *; try lia.
  rewrite IH by lia. lia.
Qed.

(** The audio [groom_audio] builds has one time per pin state change. *)
Lemma groom_audio_size gpio audio ts audio_ :
  Camera.groom_audio gpio audio ts = Ok audio_ ->
  length (Camera.Audio.times audio_) = length (Camera.Gpio.indices gpio)
  /\ Camera.Audio.polarities audio_ = Camera.Gpio.polarities gpio.
Proof.
  unfold Camera.groom_audio. intros H. repeat py_inv H. injection H as <-. simpl.
  split; [|reflexivity].
  repeat match goal with
         | Hb : Np.broadcast_to _ _ = Ok _ |- _ => apply length_broadcast_to in Hb
         end.
  match goal with
  | H1 : length _ = ((?n + 1) / 2)%nat, H2 : length _ = (?n / 2)%nat |- _ =>
      pose proof (Nat.div_mod_eq n 2);
      pose proof (Nat.div_mod_eq (n + 1) 2);
      pose proof (Nat.mod_upper_bound n 2 ltac:(lia));
      pose proof (Nat.mod_upper_bound (n + 1) 2 ltac:(lia));
      rewrite length_interleave by (rewrite H1, H2; lia);
      rewrite H1, H2; lia
  end.
Qed.

End GroomFacts.

(** The guards of [groom_pin_state].  Whenever it
    returns, the audio times and polarities had the same length, the audio
    polarities alternated and started high, the audio times strictly
    increased, some pin state change was at a frame other than 0 and the
    first pin state change was a rise; and the audio it returns has exactly
    as many times as there are pin state changes, the input audio itself
    when the two counts agreed.  When the counts agree, no pin state change
    lies beyond the frame times, the guards hold and the clock fitter
    returns, [groom_pin_state] returns. *)
Theorem groom_pin_state_guards
  (sync_timestamps : list float -> list float -> py ((float -> float) * float))
  (gpio : Camera.Gpio.t) (audio : Camera.Audio.t) (ts : list float) :
  (forall gpio' audio' ts',
     Camera.groom_pin_state sync_timestamps gpio audio ts = Ok (gpio', audio', ts') ->
     length (Camera.Audio.times audio) = length (Camera.Audio.polarities audio)
     /\ forallb (fun d => Z.abs d =? 2)%Z (Np.diffZ (Camera.Audio.polarities audio)) = true
     /\ Py.index (Camera.Audio.polarities audio) 0 = Ok 1%Z
     /\ forallb (fun d => 0 <? d)%float (Np.diff (Camera.Audio.times audio)) = true
     /\ existsb (fun i => negb (i =? 0)%Z) (Camera.Gpio.indices gpio') = true
     /\ Py.index (Camera.Gpio.polarities gpio') 0 = Ok 1%Z
     /\ length (Camera.Audio.times audio') = length (Camera.Gpio.indices gpio')
     /\ (length (Camera.Gpio.indices gpio') = length (Camera.Audio.times audio) ->
         audio' = audio))
  /\ (forall frames fcn_a2b drift_ppm,
        existsb (fun i => Z.of_nat (length ts) <=? i)%Z (Camera.Gpio.indices gpio) = false ->
        length (Camera.Audio.times audio) = length (Camera.Audio.polarities audio) ->
        forallb (fun d => Z.abs d =? 2)%Z (Np.diffZ (Camera.Audio.polarities audio)) = true ->
        Py.index (Camera.Audio.polarities audio) 0 = Ok 1%Z ->
        forallb (fun d => 0 <? d)%float (Np.diff (Camera.Audio.times audio)) = true ->
        existsb (fun i => negb (i =? 0)%Z) (Camera.Gpio.indices gpio) = true ->
        Py.index (Camera.Gpio.polarities gpio) 0 = Ok 1%Z ->
        length (Camera.Gpio.indices gpio) = length (Camera.Audio.times audio) ->
        Np.take ts (Camera.Gpio.indices gpio) = Ok frames ->
        sync_timestamps frames (Camera.Audio.times audio) = Ok (fcn_a2b, drift_ppm) ->
        Camera.groom_pin_state sync_timestamps gpio audio ts
        = Ok ({| Camera.Gpio.indices := Camera.Gpio.indices gpio;
                 Camera.Gpio.polarities := Camera.Gpio.polarities gpio;
                 Camera.Gpio.times := Some (map fcn_a2b frames) |},
              audio, map fcn_a2b ts)).
Proof.
  split.
  - intros gpio' audio' ts' H. unfold Camera.groom_pin_state in H.
    repeat py_inv H.
    repeat match goal with
           | u : unit |- _ => destruct u
           | Ha : assert _ = Ok tt |- _ => apply assert_ok in Ha
           end.
    match goal with
    | Hr : (let (_, _) := ?fit in _) = _ |- _ =>
        destruct fit as [fcn drift]; injection Hr as <- <- <-
    end.
    simpl.
    repeat match goal with
           | Ha : (_ =? _)%Z = true |- _ => apply Z.eqb_eq in Ha; subst
           | Ha : (length (Camera.Audio.times audio) =? _)%nat = true |- _ =>
               apply Nat.eqb_eq in Ha
           end.
    match goal with
    | Hg : (if negb (?n =? ?m)%nat then _ else _) = Ok _ |- _ =>
        destruct (Nat.eqb_spec n m) as [E|E]; simpl in Hg;
        [injection Hg as <-
        |apply GroomFacts.groom_audio_size in Hg; destruct Hg as [Hsize _]]
    end.
    + repeat split; try assumption. symmetry. exact E.
    + repeat split; try assumption. intros E'. contradiction.
  - intros frames fcn drift Hin Hlen Halt Hp0 Hinc Hany Hg0 Hcnt Htake Hsync.
    unfold Camera.groom_pin_state.
    rewrite Hin. simpl.
    rewrite Hlen, Nat.eqb_refl. simpl.
    rewrite Halt. simpl. rewrite Hp0. simpl. rewrite Hinc. simpl.
    rewrite Hany. simpl. rewrite Hg0. simpl.
    rewrite Hcnt, <- Hlen, Nat.eqb_refl. simpl.
    rewrite Htake. simpl. rewrite Hsync. simpl. reflexivity.
Qed.

(** A first audio front that is a fall is refused by the guard on the first
    polarity, whatever the clock fitter. *)
Lemma groom_pin_state_guard_fatal :
  Camera.data_contract
    {| Camera.Gpio.indices := [2; 4]%Z; Camera.Gpio.polarities := [1; -1]%Z;
       Camera.Gpio.times := None |}
    {| Camera.Audio.times := [2.5; 4.5]%float; Camera.Audio.polarities := [-1; 1]%Z |}
    [0; 1; 2; 3; 4; 5]%float
  /\ forall sync_timestamps,
       Camera.groom_pin_state sync_timestamps
         {| Camera.Gpio.indices := [2; 4]%Z; Camera.Gpio.polarities := [1; -1]%Z;
            Camera.Gpio.times := None |}
         {| Camera.Audio.times := [2.5; 4.5]%float; Camera.Audio.polarities := [-1; 1]%Z |}
         [0; 1; 2; 3; 4; 5]%float
       = Raise AssertionError.
Proof.
  split.
  - unfold Camera.data_contract, Camera.edge_set. simpl.
    repeat split; try reflexivity;
      repeat (constructor; try lia; try (left; reflexivity); try (right; reflexivity)).
  - intros sync_timestamps. reflexivity.
Qed.

(** C5.  The code misses the claim.  The pin state changes at the frames 2,
    4, 10, 12, 18 and 19 of 21 frames and the eight audio fronts 102.5,
    104.5, 106.0, 106.1, 110.5, 112.4, 150 and 151 are within the data
    contracts and pass every guard.  The rise at frame 18 is more than two
    seconds from every audio onset: [attribute_times] leaves it at [-1], the
    code drops it from [assigned], and with it the onsets kept are the two
    times 102.5 and 110.5; the three falls are all attributed.  The groomed
    audio has three slots for the onsets, which two values cannot fill, and
    [groom_pin_state] raises [ValueError], whatever the clock fitter, where
    the claim has the rise dropped and counted and a result returned. *)
Theorem groom_pin_state_dropped_rise_fatal :
  Camera.data_contract
    {| Camera.Gpio.indices := [2; 4; 10; 12; 18; 19]%Z;
       Camera.Gpio.polarities := [1; -1; 1; -1; 1; -1]%Z;
       Camera.Gpio.times := None |}
    {| Camera.Audio.times := [102.5; 104.5; 106.0; 106.1; 110.5; 112.4; 150; 151]%float;
       Camera.Audio.polarities := [1; -1; 1; -1; 1; -1; 1; -1]%Z |}
    [0; 1; 2; 3; 4; 5; 6; 7; 8; 9; 10; 11; 12; 13; 14; 15; 16; 17; 18; 19; 20]%float
  /\ Camera.attribute_times
       (map (fun t => t - 102.5)%float [102.5; 106.0; 110.5; 150]%float)
       (map (fun t => t - 2)%float [2; 10; 18]%float) 2 true "first"
     = Ok [0; 2; -1]%Z
  /\ Camera.assign_fronts
       [0; 1; 2; 3; 4; 5; 6; 7; 8; 9; 10; 11; 12; 13; 14; 15; 16; 17; 18; 19; 20]%float
       [2; 10; 18]%Z
       [102.5; 104.5; 106.0; 106.1; 110.5; 112.4; 150; 151]%float
       (Py.evens [102.5; 104.5; 106.0; 106.1; 110.5; 112.4; 150; 151]%float) 0
     = Ok [102.5; 110.5]%float
  /\ Camera.assign_fronts
       [0; 1; 2; 3; 4; 5; 6; 7; 8; 9; 10; 11; 12; 13; 14; 15; 16; 17; 18; 19; 20]%float
       [4; 12; 19]%Z
       [102.5; 104.5; 106.0; 106.1; 110.5; 112.4; 150; 151]%float
       (Py.odds [102.5; 104.5; 106.0; 106.1; 110.5; 112.4; 150; 151]%float) 1
     = Ok [104.5; 112.4]%float
  /\ Np.broadcast_to 3 [102.5; 110.5]%float = Raise ValueError
  /\ forall sync_timestamps,
       Camera.groom_pin_state sync_timestamps
         {| Camera.Gpio.indices := [2; 4; 10; 12; 18; 19]%Z;
            Camera.Gpio.polarities := [1; -1; 1; -1; 1; -1]%Z;
            Camera.Gpio.times := None |}
         {| Camera.Audio.times := [102.5; 104.5; 106.0; 106.1; 110.5; 112.4; 150; 151]%float;
            Camera.Audio.polarities := [1; -1; 1; -1; 1; -1; 1; -1]%Z |}
         [0; 1; 2; 3; 4; 5; 6; 7; 8; 9; 10; 11; 12; 13; 14; 15; 16; 17; 18; 19; 20]%float
       = Raise ValueError.
Proof.
  split.
  { unfold Camera.data_contract, Camera.edge_set. simpl.
    repeat split; try reflexivity;
      repeat (constructor; try lia; try (left; reflexivity); try (right; reflexivity)). }
  split; [vm_compute; reflexivity|].
  split; [vm_compute; reflexivity|].
  split; [vm_compute; reflexivity|].
  split; [vm_compute; reflexivity|].
  intros sync_timestamps. vm_compute. reflexivity.
Qed.

(** X5. Three rises of the pin state, the last one more than two seconds
    from every audio onset, in data that passes every guard: the rise is
    dropped from [assigned], the two onsets left do not fit the three slots
    of the groomed audio, and [groom_pin_state] raises [ValueError]. *)
Example groom_pin_state_unassigned_rise :
  forall sync_timestamps,
    Camera.groom_pin_state sync_timestamps
      {| Camera.Gpio.indices := [2; 4; 10; 12; 18; 19]%Z;
         Camera.Gpio.polarities := [1; -1; 1; -1; 1; -1]%Z;
         Camera.Gpio.times := None |}
      {| Camera.Audio.times := [102.5; 104.5; 106.0; 106.1; 110.5; 112.4; 150; 151]%float;
         Camera.Audio.polarities := [1; -1; 1; -1; 1; -1; 1; -1]%Z |}
      [0; 1; 2; 3; 4; 5; 6; 7; 8; 9; 10; 11; 12; 13; 14; 15; 16; 17; 18; 19; 20]%float
    = Raise ValueError.
Proof. intros sync_timestamps. vm_compute. reflexivity. Qed.

(** More audio TTLs than pin state changes, each change attributed: the
    audio is groomed down to the four fronts the camera saw. *)
Example groom_pin_state_drops_unseen_ttl :
  Camera.groom_pin_state (fun _ _ => Ok (fun t => t, 0%float))
    {| Camera.Gpio.indices := [2; 4; 10; 12]%Z;
       Camera.Gpio.polarities := [1; -1; 1; -1]%Z;
       Camera.Gpio.times := None |}
    {| Camera.Audio.times := [102.5; 104.5; 106.0; 106.5; 110.5; 112.5]%float;
       Camera.Audio.polarities := [1; -1; 1; -1; 1; -1]%Z |}
    [0; 1; 2; 3; 4; 5; 6; 7; 8; 9; 10; 11; 12; 13; 14]%float
  = Ok ({| Camera.Gpio.indices := [2; 4; 10; 12]%Z;
           Camera.Gpio.polarities := [1; -1; 1; -1]%Z;
           Camera.Gpio.times := Some [2; 4; 10; 12]%float |},
        {| Camera.Audio.times := [102.5; 104.5; 110.5; 112.5]%float;
           Camera.Audio.polarities := [1; -1; 1; -1]%Z |},
        [0; 1; 2; 3; 4; 5; 6; 7; 8; 9; 10; 11; 12; 13; 14]%float).
Proof. vm_compute. reflexivity. Qed.

(** ** The Bpod fallback reconciler *)

Module BpodFacts.

Local Open Scope float_scope.

Lemma trials_loop_app l1 : forall l2 ind st,
  Camera.trials_loop ind (l1 ++ l2) st
  = bind (Camera.trials_loop ind l1 st)
      (fun st1 => Camera.trials_loop (ind + length l1) l2 st1).
Proof.
  induction l1 as [|t l1 IH]; intros l2 ind st; simpl.
  - rewrite Nat.add_0_r. reflexivity.
  - destruct (Camera.trial_step ind t st) as [st'|e]; simpl; [|reflexivity].
    rewrite IH. replace (S ind + length l1)%nat with (ind + S (length l1))%nat by lia.
    reflexivity.
Qed.

Lemma slice_from_1 {A : Type} (l : list A) :
  Py.slice l 1 (Z.of_nat (length l)) = tl l.
Proof.
  unfold Py.slice, Py.clip. destruct l as [|a l]; [reflexivity|].
  cbn [length tl].
  destruct (Z.ltb_spec 1 0) as [?|_]; [lia|].
  destruct (Z.ltb_spec (Z.of_nat (S (length l))) 0) as [?|_]; [lia|].
  rewrite Z.min_id, Z.min_l by lia.
  change (Z.to_nat 1) with 1%nat. cbn [skipn].
  replace (Z.to_nat (Z.of_nat (S (length l)) - 1)) with (length l) by lia.
  apply firstn_all.
Qed.

Lemma slice_to {A : Type} (l : list A) (k : nat) :
  Py.slice l 0 (Z.of_nat k) = firstn k l.
Proof.
  unfold Py.slice, Py.clip.
  destruct (Z.ltb_spec 0 0) as [?|_]; [lia|].
  destruct (Z.ltb_spec (Z.of_nat k) 0) as [?|_]; [lia|].
  rewrite (Z.min_l 0) by lia. change (Z.to_nat 0) with 0%nat. cbn [skipn].
  rewrite Z.sub_0_r.
  destruct (Z.min_spec (Z.of_nat k) (Z.of_nat (length l))) as [[Hlt ->]|[Hle ->]].
  - rewrite Nat2Z.id. reflexivity.
  - rewrite Nat2Z.id, firstn_all. symmetry. apply firstn_all2. lia.
Qed.

Lemma index_0 {A : Type} (l : list A) (a : A) :
  Py.index l 0 = Ok a <-> hd_error l = Some a.
Proof.
  unfold Py.index. destruct l as [|b l]; simpl; [split; discriminate|].
  destruct (Z.ltb_spec 0 (Z.pos (Pos.of_succ_nat (length l)))) as [_|?]; [|lia].
  simpl. split; intros E; injection E as <-; reflexivity.
Qed.

Lemma index_last (l : list float) :
  l <> [] -> Py.index l (-1) = Ok (last l 0).
Proof.
  intros Hne. destruct (exists_last Hne) as (l' & a & ->).
  rewrite last_last. unfold Py.index.
  rewrite length_app. cbn [length].
  destruct (Z.ltb_spec (-1) 0) as [_|?]; [|lia].
  replace (-1 + Z.of_nat (length l' + 1))%Z with (Z.of_nat (length l')) by lia.
  destruct (Z.leb_spec 0 (Z.of_nat (length l'))) as [_|?]; [|lia].
  destruct (Z.ltb_spec (Z.of_nat (length l')) (Z.of_nat (length l' + 1))) as [_|?]; [|lia].
  cbn [andb]. rewrite Nat2Z.id, nth_error_app2, Nat.sub_diag by lia. reflexivity.
Qed.

Lemma set_slice_exact {A : Type} (pre v post : list A) :
  (length v <= length post)%nat ->
  Np.set_slice (pre ++ post) (Z.of_nat (length pre))
    (Z.of_nat (length pre) + Z.of_nat (length v)) v
  = Ok (pre ++ v ++ skipn (length v) post).
Proof.
  intros Hle. unfold Np.set_slice, Py.clip. rewrite length_app.
  destruct (Z.ltb_spec (Z.of_nat (length pre)) 0) as [?|_]; [lia|].
  destruct (Z.ltb_spec (Z.of_nat (length pre) + Z.of_nat (length v)) 0) as [?|_]; [lia|].
  rewrite !Z.min_l by lia.
  replace (Z.to_nat (Z.of_nat (length pre) + Z.of_nat (length v) - Z.of_nat (length pre)))
    with (length v) by lia.
  unfold Np.broadcast_to. rewrite Nat.eqb_refl. cbn [bind].
  rewrite Nat2Z.id.
  rewrite firstn_app, firstn_all, Nat.sub_diag, firstn_O, app_nil_r.
  rewrite skipn_app, skipn_all2 by lia.
  replace (length pre + length v - length pre)%nat with (length v) by lia.
  reflexivity.
Qed.

Lemma n_pulses_nonneg cam_times : (0 <= Camera.n_pulses cam_times)%Z.
Proof. induction cam_times as [|c cs IH]; simpl; lia. Qed.

Lemma sum_nonneg (l : list Z) :
  Forall (fun n => 0 <= n)%Z l -> (0 <= fold_right Z.add 0 l)%Z.
Proof. induction 1; simpl; lia. Qed.

Lemma length_gap_times last duration nmiss :
  length (Camera.gap_times last duration nmiss) = Z.to_nat nmiss.
Proof.
  unfold Camera.gap_times, Np.arange1. rewrite !length_map, length_seq. reflexivity.
Qed.

(** The loop that fills [frame_times] writes the trials and the gaps one
    after the other, from [ii] on, when no gap has a negative count. *)
Lemma fill_weave cam_times : forall durations missed pre post,
  Forall (fun c => c <> []) cam_times ->
  Forall (fun n => 0 <= n)%Z missed ->
  S (length durations) = length cam_times ->
  S (length missed) = length cam_times ->
  Z.of_nat (length post) = (Camera.n_pulses cam_times + fold_right Z.add 0 missed)%Z ->
  Camera.fill_frame_times cam_times durations missed (pre ++ post) (Z.of_nat (length pre))
  = Ok (pre ++ Camera.weave cam_times (Camera.gaps_of cam_times durations missed)).
Proof.
  induction cam_times as [|c rest IH]; intros durations missed pre post Hne Hpos Hd Hm Hlen.
  - discriminate.
  - inversion Hne as [|? ? Hc Hrest]; subst.
    cbn [Camera.fill_frame_times].
    pose proof (n_pulses_nonneg rest) as Hn.
    pose proof (sum_nonneg missed Hpos) as Hs.
    cbn [Camera.n_pulses fold_right] in Hlen. fold (Camera.n_pulses rest) in Hlen.
    rewrite set_slice_exact by lia. cbn [bind].
    destruct rest as [|c' rest'].
    + destruct missed; [|discriminate]. destruct durations; [|discriminate].
      cbn in Hlen. rewrite skipn_all2 by lia.
      cbn [Camera.weave]. rewrite app_nil_r. reflexivity.
    + destruct missed as [|n ns]; [discriminate|].
      destruct durations as [|d ds]; [discriminate|].
      inversion Hpos as [|? ? Hn0 Hns]; subst.
      rewrite index_last by exact Hc. cbn [bind].
      cbn [fold_right] in Hlen, Hs.
      pose proof (sum_nonneg ns Hns) as Hs'.
      pose proof (n_pulses_nonneg (c' :: rest')) as Hn'.
      pose proof (length_gap_times (last c 0) d n) as Hg.
      set (gap := Camera.gap_times (last c 0) d n) in *.
      set (post1 := skipn (length c) post).
      assert (Hp1 : length post1 = (length post - length c)%nat)
        by (unfold post1; apply length_skipn).
      replace (pre ++ c ++ post1) with ((pre ++ c) ++ post1)
        by (rewrite <- app_assoc; reflexivity).
      replace (Z.of_nat (length pre) + Z.of_nat (length c))%Z
        with (Z.of_nat (length (pre ++ c))) by (rewrite length_app; lia).
      replace n with (Z.of_nat (length gap)) at 1 by lia.
      rewrite set_slice_exact by lia. cbn [bind].
      replace ((pre ++ c) ++ gap ++ skipn (length gap) post1)
        with (((pre ++ c) ++ gap) ++ skipn (length gap) post1)
        by (rewrite <- !app_assoc; reflexivity).
      replace (Z.of_nat (length (pre ++ c)) + n)%Z
        with (Z.of_nat (length ((pre ++ c) ++ gap))) by (rewrite !length_app; lia).
      rewrite IH.
      * cbn [Camera.weave Camera.gaps_of]. fold gap.
        rewrite <- !app_assoc. reflexivity.
      * exact Hrest.
      * exact Hns.
      * simpl in *. lia.
      * simpl in *. lia.
      * rewrite length_skipn, Hp1. lia.
Qed.

Lemma map_py_spec {A B : Type} (f : A -> py B) l : forall out,
  Np.map_py f l = Ok out -> Forall2 (fun a b => f a = Ok b) l out.
Proof.
  induction l as [|a l IH]; intros out H; simpl in H.
  - injection H as <-. constructor.
  - py_inv H. py_inv H. injection H as <-. constructor; [assumption|].
    apply IH. assumption.
Qed.

Lemma slice_to_last {A : Type} (l : list A) : Py.slice l 0 (-1) = removelast l.
Proof.
  unfold Py.slice, Py.clip.
  destruct (Z.ltb_spec 0 0) as [?|_]; [lia|].
  destruct (Z.ltb_spec (-1) 0) as [_|?]; [|lia].
  rewrite (Z.min_l 0) by lia. change (Z.to_nat 0) with 0%nat. cbn [skipn].
  rewrite Z.sub_0_r.
  destruct l as [|a l] using rev_ind; [reflexivity|].
  rewrite removelast_last, length_app. cbn [length].
  replace (Z.to_nat (Z.max (-1 + Z.of_nat (length l + 1)) 0)) with (length l) by lia.
  rewrite firstn_app, firstn_all, Nat.sub_diag, firstn_O, app_nil_r. reflexivity.
Qed.

Lemma firsts_lasts cam_times : forall firsts lasts,
  Forall2 (fun c b => Py.index c 0 = Ok b) cam_times firsts ->
  Forall2 (fun c b => Py.index c (-1) = Ok b) cam_times lasts ->
  Forall (fun c => c <> []) cam_times
  /\ map (fun p => fst p - snd p) (combine (tl firsts) (removelast lasts))
     = Camera.gap_durations cam_times.
Proof.
  induction cam_times as [|c rest IH]; intros firsts lasts Hf Hl;
    inversion Hf as [|? f0 ? firsts' Hf0 Hf']; subst;
    inversion Hl as [|? l0 ? lasts' Hl0 Hl']; subst.
  - split; [constructor|reflexivity].
  - destruct (IH _ _ Hf' Hl') as [Hne Hgap].
    assert (Hc : c <> []).
    { intros ->. unfold Py.index in Hf0. simpl in Hf0. discriminate. }
    split; [constructor; assumption|].
    rewrite index_last in Hl0 by exact Hc. injection Hl0 as <-.
    cbn [tl Camera.gap_durations].
    destruct rest as [|c' rest'].
    + inversion Hf'; subst. reflexivity.
    + inversion Hf' as [|? f1 ? firsts'' Hf1 Hf'']; subst.
      inversion Hl' as [|? l1 ? lasts'' Hl1 Hl'']; subst.
      cbn [removelast combine map fst snd].
      apply index_0 in Hf1. destruct c' as [|x c']; [discriminate|].
      injection Hf1 as <-. cbn [hd]. f_equal.
      cbn [tl] in Hgap. exact Hgap.
Qed.

(** What [intertrial] computes: the frame rate is the reciprocal of the
    median of the per-trial median periods, a gap lasts from the last pulse
    of a trial to the first of the next, and the count of frames missed in
    it is the rounded product of the two less one. *)
Lemma intertrial_spec cam_times frate durations missed :
  Camera.intertrial cam_times = Ok (frate, durations, missed) ->
  Forall (fun c => c <> []) cam_times
  /\ frate = 1 / Np.nanmedian (map (fun c => Np.median (Np.diff c)) cam_times)
  /\ durations = Camera.gap_durations cam_times
  /\ Forall2 (fun d n => Np.round_half_even (d * frate) = Some (n + 1)%Z) durations missed.
Proof.
  unfold Camera.intertrial. intros H.
  apply bind_ok in H. destruct H as (firsts & Hf & H).
  apply bind_ok in H. destruct H as (lasts & Hl & H).
  apply bind_ok in H. destruct H as (missed' & Hm & H).
  injection H as <- <- <-.
  apply map_py_spec in Hf, Hl, Hm.
  destruct (firsts_lasts _ _ _ Hf Hl) as [Hne Hgap].
  rewrite slice_from_1, slice_to_last in *. rewrite Hgap in *.
  repeat split; try assumption.
  revert Hm. apply Forall2_impl.
  intros d n Hr. py_inv Hr. injection Hr as <-.
  unfold Np.int32_round in *.
  destruct (Np.round_half_even _) as [r|]; [|discriminate].
  match goal with
  | Hc : (if ?b then _ else _) = Ok _ |- _ => destruct b; [injection Hc as <-|discriminate]
  end.
  f_equal. lia.
Qed.

Lemma length_gap_durations cam_times :
  length (Camera.gap_durations cam_times) = pred (length cam_times).
Proof.
  induction cam_times as [|c rest IH]; [reflexivity|].
  cbn [Camera.gap_durations]. destruct rest as [|c' rest']; [reflexivity|].
  cbn [length] in *. rewrite IH. reflexivity.
Qed.

Lemma n_pulses_app cs c :
  Camera.n_pulses (cs ++ [c]) = (Camera.n_pulses cs + Z.of_nat (length c))%Z.
Proof. induction cs as [|c0 cs IH]; simpl in *; [lia|]. rewrite IH. lia. Qed.

(** [n_frames] counts the pulses in [cam_times]. *)
Lemma trials_loop_n_frames trials : forall ind st st',
  Camera.trials_loop ind trials st = Ok st' ->
  Camera.n_frames st = Camera.n_pulses (Camera.cam_times st) ->
  Camera.n_frames st' = Camera.n_pulses (Camera.cam_times st').
Proof.
  induction trials as [|t trials IH]; intros ind st st' H Hinv; simpl in H.
  - injection H as <-. exact Hinv.
  - py_inv H. apply (IH _ _ _ H).
    unfold Camera.trial_step in Hv.
    destruct (Camera.Port1In t) as [pin|]; [|injection Hv as <-; exact Hinv].
    py_inv Hv. py_inv Hv. destruct v1 as [pin' pout']. py_inv Hv.
    injection Hv as <-. simpl. rewrite n_pulses_app. lia.
Qed.

Lemma gaps_of_lengths cam_times : forall durations missed,
  Forall (fun n => 0 <= n)%Z missed ->
  S (length durations) = length cam_times -> S (length missed) = length cam_times ->
  Forall2 (fun g n => Z.of_nat (length g) = n)
    (Camera.gaps_of cam_times durations missed) missed.
Proof.
  induction cam_times as [|c rest IH]; intros durations missed Hpos Hd Hm;
    [discriminate|].
  destruct durations as [|d ds], missed as [|n ns]; simpl in *; try lia.
  - destruct rest; try discriminate. constructor.
  - inversion Hpos; subst. destruct rest as [|c' rest'].
    + destruct ds; discriminate.
    + constructor.
      * rewrite length_gap_times. lia.
      * apply IH; simpl in *; try assumption; lia.
Qed.

Lemma length_weave cam_times : forall durations missed,
  Forall (fun n => 0 <= n)%Z missed ->
  S (length durations) = length cam_times -> S (length missed) = length cam_times ->
  Z.of_nat (length (Camera.weave cam_times (Camera.gaps_of cam_times durations missed)))
  = (Camera.n_pulses cam_times + fold_right Z.add 0 missed)%Z.
Proof.
  induction cam_times as [|c rest IH]; intros durations missed Hpos Hd Hm;
    [discriminate|].
  destruct rest as [|c' rest'].
  - destruct durations; [|discriminate]. destruct missed; [|discriminate].
    simpl. lia.
  - destruct durations as [|d ds]; [discriminate|].
    destruct missed as [|n ns]; [discriminate|].
    inversion Hpos; subst.
    change (Camera.weave (c :: c' :: rest')
              (Camera.gaps_of (c :: c' :: rest') (d :: ds) (n :: ns)))
      with (c ++ Camera.gap_times (last c 0) d n
              ++ Camera.weave (c' :: rest') (Camera.gaps_of (c' :: rest') ds ns)).
    rewrite !length_app, length_gap_times, !Nat2Z.inj_add.
    rewrite (IH ds ns) by (simpl in *; try assumption; lia).
    change (Camera.n_pulses (c :: c' :: rest'))
      with (Z.of_nat (length c) + Camera.n_pulses (c' :: rest'))%Z.
    cbn [fold_right]. lia.
Qed.

Lemma nth_map_seq {A : Type} (f : nat -> A) (n k : nat) (d : A) :
  (k < n)%nat -> nth k (map f (seq 0 n)) d = f k.
Proof.
  intros H.
  rewrite (nth_indep _ d (f 0%nat)) by (rewrite length_map, length_seq; exact H).
  rewrite map_nth, seq_nth by exact H. reflexivity.
Qed.

Lemma length_set_slice {A : Type} (dst : list A) (a b : Z) (v out : list A) :
  Np.set_slice dst a b v = Ok out -> length out = length dst.
Proof.
  unfold Np.set_slice. intros H. py_inv H. injection H as <-.
  apply GroomFacts.length_broadcast_to in Hv.
  rewrite !length_app, length_firstn, length_skipn, Hv.
  assert (Hclip : forall i, (0 <= Py.clip (Z.of_nat (length dst)) i
                             <= Z.of_nat (length dst))%Z)
    by (intros i; unfold Py.clip; destruct (Z.ltb_spec i 0); lia).
  pose proof (Hclip a). pose proof (Hclip b). lia.
Qed.

(** The loop that fills [frame_times] never changes its length. *)
Lemma length_fill_frame_times cam_times : forall durations missed frame_times ii out,
  Camera.fill_frame_times cam_times durations missed frame_times ii = Ok out ->
  length out = length frame_times.
Proof.
  induction cam_times as [|c rest IH]; intros durations missed frame_times ii out H.
  - injection H as <-. reflexivity.
  - cbn [Camera.fill_frame_times] in H.
    apply bind_ok in H. destruct H as (ft1 & Hft1 & H).
    apply length_set_slice in Hft1.
    destruct rest as [|c' rest'].
    + injection H as <-. exact Hft1.
    + destruct durations as [|d ds]; [discriminate|].
      destruct missed as [|n ns]; [discriminate|].
      apply bind_ok in H. destruct H as (lastc & _ & H).
      apply bind_ok in H. destruct H as (ft2 & Hft2 & H).
      apply length_set_slice in Hft2. apply IH in H. congruence.
Qed.

Lemma trial_edges_spec pin pout pin' pout' :
  Camera.trial_edges pin pout = Ok (pin', pout') ->
  exists pin0 pout0,
    hd_error pin = Some pin0 /\ hd_error pout = Some pout0
    /\ pout' = (if pout0 <? pin0 then tl pout else pout)
    /\ pin' = firstn (length pout') pin.
Proof.
  unfold Camera.trial_edges. intros H. repeat py_inv H.
  match goal with
  | H0 : Py.index pout 0 = Ok ?a, H1 : Py.index pin 0 = Ok ?b |- _ =>
      exists b, a; apply index_0 in H0, H1
  end.
  rewrite slice_from_1, slice_to in H. injection H as <- <-.
  repeat split; assumption.
Qed.

End BpodFacts.

(** C6. A trial with no rise of the camera line is skipped: the loop over
    the trials leaves its state as it was, raises nothing, and goes on with
    the trials that follow, wherever the trial stands in the session. *)
Theorem trial_without_edges_skipped
  (pout : option (list float)) (before after : list Camera.trial)
  (ind : nat) (st : Camera.trials_state) :
  let t := {| Camera.Port1In := None; Camera.Port1Out := pout |} in
  Camera.trial_step ind t st = Ok st
  /\ Camera.trials_loop ind (t :: after) st = Camera.trials_loop (S ind) after st
  /\ Camera.trials_loop ind (before ++ t :: after) st
     = bind (Camera.trials_loop ind before st)
         (fun st1 => Camera.trials_loop (S (ind + length before)) after st1).
Proof.
  intros t. repeat split.
  rewrite BpodFacts.trials_loop_app.
  destruct (Camera.trials_loop ind before st) as [st1|e]; reflexivity.
Qed.

(** C7, as the code has it.  In a trial with rises [pin] and falls [pout],
    the falls are kept, but for a first fall before the first rise, which
    is dropped; the rises are cut down to as many as there are falls left,
    and these are the frame times the trial adds. *)
Theorem trial_rises_truncated
  (ind : nat) (pin pout : list float) (st st' : Camera.trials_state) :
  Camera.trial_step ind {| Camera.Port1In := Some pin; Camera.Port1Out := Some pout |} st
  = Ok st' ->
  exists pin0 pout0,
    hd_error pin = Some pin0 /\ hd_error pout = Some pout0
    /\ let pout' := if (pout0 <? pin0)%float then tl pout else pout in
       Camera.trial_edges pin pout = Ok (firstn (length pout') pin, pout')
       /\ Camera.cam_times st' = Camera.cam_times st ++ [firstn (length pout') pin]
       /\ Camera.n_frames st'
          = (Camera.n_frames st + Z.of_nat (Nat.min (length pout') (length pin)))%Z.
Proof.
  unfold Camera.trial_step. simpl. intros H.
  py_inv H. destruct v as [pin' pout'].
  py_inv H. injection H as <-. simpl.
  destruct (BpodFacts.trial_edges_spec _ _ _ _ Hv) as (pin0 & pout0 & Hp & Hq & -> & ->).
  exists pin0, pout0. repeat split; try assumption.
  rewrite length_firstn. reflexivity.
Qed.

Lemma trial_rises_truncated_witness :
  exists pin0 pout0,
    hd_error [1; 2; 3]%float = Some pin0 /\ hd_error [0.5; 1.5; 2.5]%float = Some pout0
    /\ let pout' := if (pout0 <? pin0)%float then tl [0.5; 1.5; 2.5]%float
                    else [0.5; 1.5; 2.5]%float in
       Camera.trial_edges [1; 2; 3]%float [0.5; 1.5; 2.5]%float
       = Ok (firstn (length pout') [1; 2; 3]%float, pout')
       /\ Camera.cam_times
            {| Camera.cam_times := [[1; 2]%float]; Camera.n_frames := 2;
               Camera.n_out_of_sync := 0 |}
          = [] ++ [firstn (length pout') [1; 2; 3]%float]
       /\ 2%Z = (0 + Z.of_nat (Nat.min (length pout') (length [1; 2; 3]%float)))%Z.
Proof.
  apply (trial_rises_truncated 0 [1; 2; 3]%float [0.5; 1.5; 2.5]%float
           {| Camera.cam_times := []; Camera.n_frames := 0; Camera.n_out_of_sync := 0 |}
           {| Camera.cam_times := [[1; 2]%float]; Camera.n_frames := 2;
              Camera.n_out_of_sync := 0 |}).
  vm_compute. reflexivity.
Defined.

(** Three rises and two falls: the third rise is dropped and the falls are
    as they were, where the claim has the rises kept and the falls as many
    as the rises. *)
Lemma trial_falls_not_truncated :
  Camera.trial_edges [1; 2; 3]%float [1.5; 2.5]%float = Ok ([1; 2]%float, [1.5; 2.5]%float)
  /\ ~ (forall pin pout pin' pout',
          Camera.trial_edges pin pout = Ok (pin', pout') ->
          pin' = pin /\ length pout' = length pin).
Proof.
  split; [vm_compute; reflexivity|].
  intros H.
  destruct (H [1; 2; 3]%float [1.5; 2.5]%float [1; 2]%float [1.5; 2.5]%float) as [_ Hlen].
  - vm_compute. reflexivity.
  - simpl in Hlen. discriminate.
Qed.

(** C8, as the code has it.  For the gap between two consecutive trials
    the reconciler computes the count [round(gap * frate) - 1], [frate]
    being the reciprocal of the median of the per-trial median periods
    (those that are NaN left out) and [gap] the time from the last pulse of
    a trial to the first of the next, and the [k]-th timestamp of the gap is
    [k] times the [n + 1]-th part of the gap after the last pulse: the array
    filled has as many entries as there are pulses plus the counts, and
    when no count is negative it is the trials with, in each gap, as many
    such timestamps as its count.  For the pulses [0, 0.1, 0.2] and
    [0.5, 0.6, 0.7] the two timestamps 0.3 and 0.4 are inserted. *)
Theorem bpod_gap_interpolation :
  (forall (trials : list Camera.trial) (st : Camera.trials_state)
          (frate : float) (durations : list float) (missed : list Z),
     Camera.trials_loop 0 trials
       {| Camera.cam_times := []; Camera.n_frames := 0; Camera.n_out_of_sync := 0 |}
     = Ok st ->
     Camera.intertrial (Camera.cam_times st) = Ok (frate, durations, missed) ->
     let gaps := Camera.gaps_of (Camera.cam_times st) durations missed in
     frate = (1 / Np.nanmedian
                    (map (fun c => Np.median (Np.diff c)) (Camera.cam_times st)))%float
     /\ durations = Camera.gap_durations (Camera.cam_times st)
     /\ Forall2 (fun d n => Np.round_half_even (d * frate)%float = Some (n + 1)%Z)
          durations missed
     /\ (forall frate' frame_times,
           Camera.interpolate_trials st = Ok (frate', frame_times) ->
           frate' = frate
           /\ Z.of_nat (length frame_times)
              = (Camera.n_pulses (Camera.cam_times st) + fold_right Z.add 0 missed)%Z)
     /\ (Forall (fun n => 0 <= n)%Z missed ->
         Forall2 (fun g n => Z.of_nat (length g) = n) gaps missed
         /\ Camera.interpolate_trials st
            = Ok (frate, Camera.weave (Camera.cam_times st) gaps))
     /\ forall last d n k, (k < Z.to_nat n)%nat ->
          nth k (Camera.gap_times last d n) 0%float
          = (last + d / Np.of_Z (n + 1) * Np.of_Z (Z.of_nat (S k)))%float)
  /\ exists frate,
       Camera.intertrial [[0; 0.1; 0.2]; [0.5; 0.6; 0.7]]%float
       = Ok (frate, [(0.5 - 0.2)%float], [2%Z])
       /\ Camera.gap_times 0.2%float (0.5 - 0.2)%float 2 = [0.3; 0.4]%float
       /\ Camera.times_from_bpod
            [{| Camera.Port1In := Some [0; 0.1; 0.2]%float;
                Camera.Port1Out := Some [0.05; 0.15; 0.25]%float |};
             {| Camera.Port1In := Some [0.5; 0.6; 0.7]%float;
                Camera.Port1Out := Some [0.55; 0.65; 0.75]%float |}] [8%Z]
          = Ok [0; 0.1; 0.2; 0.3; 0.4; 0.5; 0.6; 0.7]%float.
Proof.
  split.
  - intros trials st frate durations missed Hloop Hgap gaps.
    destruct (BpodFacts.intertrial_spec _ _ _ _ Hgap) as (Hne & Hfrate & Hdur & Hround).
    assert (Hld : length durations = pred (length (Camera.cam_times st)))
      by (rewrite Hdur; apply BpodFacts.length_gap_durations).
    assert (Hlm : length missed = length durations)
      by (symmetry; eapply Forall2_length; eassumption).
    assert (Hn : Camera.n_frames st = Camera.n_pulses (Camera.cam_times st))
      by (apply (BpodFacts.trials_loop_n_frames _ _ _ _ Hloop); reflexivity).
    repeat split; try assumption.
    + unfold Camera.interpolate_trials in H. rewrite Hgap in H. cbn [bind] in H.
      py_inv H. py_inv H. injection H as <- _. reflexivity.
    + unfold Camera.interpolate_trials in H. rewrite Hgap in H. cbn [bind] in H.
      py_inv H. py_inv H. injection H as _ <-.
      apply BpodFacts.length_fill_frame_times in Hv0. rewrite Hv0.
      unfold Np.zeros in Hv.
      destruct (Z.ltb_spec (Camera.n_frames st + fold_right Z.add 0%Z missed) 0)
        as [?|Hge]; [discriminate|].
      injection Hv as <-. rewrite repeat_length, Hn in *. lia.
    + destruct (Camera.cam_times st) as [|c rest] eqn:Ecs.
      * destruct missed; [constructor|discriminate].
      * apply BpodFacts.gaps_of_lengths; simpl in *; try assumption; lia.
    + rename H into Hpos.
      unfold Camera.interpolate_trials. rewrite Hgap. cbn [bind]. rewrite Hn.
      pose proof (BpodFacts.n_pulses_nonneg (Camera.cam_times st)) as Hp.
      pose proof (BpodFacts.sum_nonneg _ Hpos) as Hs.
      unfold Np.zeros.
      destruct (Z.ltb_spec (Camera.n_pulses (Camera.cam_times st)
                            + fold_right Z.add 0%Z missed) 0) as [?|_]; [lia|].
      cbn [bind].
      assert (Hfill : Camera.fill_frame_times (Camera.cam_times st) durations missed
                (repeat 0%float
                   (Z.to_nat (Camera.n_pulses (Camera.cam_times st)
                              + fold_right Z.add 0%Z missed))) 0
              = Ok (Camera.weave (Camera.cam_times st) gaps)).
      { destruct (Camera.cam_times st) as [|c rest] eqn:Ecs.
        - destruct durations; [|discriminate]. destruct missed; [|discriminate].
          reflexivity.
        - apply (BpodFacts.fill_weave (c :: rest) durations missed []);
            simpl in *; try assumption; try lia.
          rewrite repeat_length. lia. }
      rewrite Hfill. reflexivity.
    + intros last d n k Hk. unfold Camera.gap_times, Np.arange1.
      rewrite map_map.
      apply (BpodFacts.nth_map_seq
               (fun x => (last + d / Np.of_Z (n + 1) * Np.of_Z (Z.of_nat (S x)))%float)).
      exact Hk.
  - eexists. repeat split; vm_compute; reflexivity.
Qed.

(** Three trials with pulses, and one without between the first two. *)
Lemma bpod_gap_interpolation_witness :
  Camera.interpolate_trials
    {| Camera.cam_times := [[0; 0.1; 0.2]; [0.5; 0.6; 0.7]; [1.0; 1.1]]%float;
       Camera.n_frames := 8; Camera.n_out_of_sync := 0 |}
  = Ok ((1 / ((0.1 + (0.6 - 0.5)) / 2))%float,
        Camera.weave [[0; 0.1; 0.2]; [0.5; 0.6; 0.7]; [1.0; 1.1]]%float
          [Camera.gap_times 0.2 (0.5 - 0.2) 2; Camera.gap_times 0.7 (1.0 - 0.7) 2]%float).
Proof.
  edestruct (proj1 bpod_gap_interpolation
    [{| Camera.Port1In := Some [0; 0.1; 0.2]%float;
        Camera.Port1Out := Some [0.05; 0.15; 0.25]%float |};
     {| Camera.Port1In := None; Camera.Port1Out := None |};
     {| Camera.Port1In := Some [0.5; 0.6; 0.7]%float;
        Camera.Port1Out := Some [0.55; 0.65; 0.75]%float |};
     {| Camera.Port1In := Some [1.0; 1.1]%float;
        Camera.Port1Out := Some [0.95; 1.05; 1.15]%float |}])
    as (_ & _ & _ & _ & Hft & _).
  - vm_compute. reflexivity.
  - vm_compute. reflexivity.
  - apply Hft. repeat constructor; lia.
Defined.

(** The claim fails for a gap shorter than half a frame period.  For the
    pulses [0, 0.1, 0.2] and [0.24, 0.3, 0.4] the count
    [round(gap * frate) - 1] of the gap is -1: no timestamp is inserted,
    which is not -1 of them, and the array filled is one entry short of the
    pulses, the second trial overwriting the last pulse 0.2 of the first. *)
Lemma bpod_gap_count_negative :
  (exists frate,
     Camera.intertrial [[0; 0.1; 0.2]; [0.24; 0.3; 0.4]]%float
     = Ok (frate, [(0.24 - 0.2)%float], [(-1)%Z])
     /\ Np.round_half_even ((0.24 - 0.2) * frate)%float = Some 0%Z)
  /\ Camera.gap_times 0.2%float (0.24 - 0.2)%float (-1) = []
  /\ Camera.times_from_bpod
       [{| Camera.Port1In := Some [0; 0.1; 0.2]%float;
           Camera.Port1Out := Some [0.05; 0.15; 0.22]%float |};
        {| Camera.Port1In := Some [0.24; 0.3; 0.4]%float;
           Camera.Port1Out := Some [0.26; 0.35; 0.45]%float |}] [5%Z]
     = Ok [0; 0.1; 0.24; 0.3; 0.4]%float
  /\ ~ (forall cam_times frate durations missed,
          Camera.intertrial cam_times = Ok (frate, durations, missed) ->
          Forall2 (fun g n => Z.of_nat (length g) = n)
            (Camera.gaps_of cam_times durations missed) missed).
Proof.
  split; [eexists; split; vm_compute; reflexivity|].
  split; [vm_compute; reflexivity|].
  split; [vm_compute; reflexivity|].
  intros H.
  specialize (H [[0; 0.1; 0.2]; [0.24; 0.3; 0.4]]%float _ _ _ eq_refl).
  vm_compute in H. inversion H as [|g n gs ns Hlen Hrest]. discriminate Hlen.
Qed.

(** C9. The array [_times_from_bpod] returns is strictly increasing: every
    entry is below the next, every consecutive difference being positive.
    When the array it has built has a consecutive difference that is not
    positive, it raises [AssertionError] instead of returning. *)
Theorem times_from_bpod_increasing
  (trials : list Camera.trial) (video_frames : list Z) :
  (forall out,
     Camera.times_from_bpod trials video_frames = Ok out ->
     Np.increasing out = true
     /\ forallb (fun d => 0 <? d)%float (Np.diff out) = true)
  /\ (forall frame_times,
        Camera.frame_times_unchecked trials video_frames = Ok frame_times ->
        forallb (fun d => 0 <? d)%float (Np.diff frame_times) = false ->
        Camera.times_from_bpod trials video_frames = Raise AssertionError).
Proof.
  unfold Camera.times_from_bpod. split.
  - intros out H. py_inv H. py_inv H. injection H as <-.
    destruct v0. apply assert_ok in Hv0.
    split; [apply NpFacts.diff_pos_increasing|]; exact Hv0.
  - intros frame_times -> Hneg. simpl. rewrite Hneg. reflexivity.
Qed.

(** A trial whose second and third rises carry the same time. *)
Example times_from_bpod_repeated_pulse :
  Camera.times_from_bpod
    [{| Camera.Port1In := Some [0; 0.1; 0.1; 0.2]%float;
        Camera.Port1Out := Some [0.05; 0.15; 0.16; 0.25]%float |}] [4%Z]
  = Raise AssertionError.
Proof. vm_compute. reflexivity. Qed.

(** X4. The array [_times_from_bpod] returns has a timestamp for every
    frame of the video: it is at least as long as the frame count of the
    video file, and exactly as long as the interpolated trials when the
    video has no more frames than they have. *)
Theorem times_from_bpod_covers_video
  (trials : list Camera.trial) (nframes : Z) (out : list float) :
  Camera.times_from_bpod trials [nframes] = Ok out ->
  (nframes <= Z.of_nat (length out))%Z
  /\ exists st frate frame_times,
       Camera.trials_loop 0 trials
         {| Camera.cam_times := []; Camera.n_frames := 0; Camera.n_out_of_sync := 0 |}
       = Ok st
       /\ Camera.interpolate_trials st = Ok (frate, frame_times)
       /\ Z.of_nat (length out) = Z.max nframes (Z.of_nat (length frame_times))
       /\ firstn (length frame_times) out = frame_times.
Proof.
  unfold Camera.times_from_bpod, Camera.frame_times_unchecked. intros H.
  py_inv H. py_inv Hv. py_inv Hv. destruct v1 as [frate ft]. cbn [bind] in Hv.
  assert (Hlen : Z.of_nat (length v) = Z.max nframes (Z.of_nat (length ft))
                 /\ firstn (length ft) v = ft).
  { destruct (Z.ltb_spec (Z.of_nat (length ft)) nframes) as [Hlt|Hge].
    - py_inv Hv. injection Hv as <-.
      rewrite length_app, length_map. unfold Np.arange1.
      rewrite length_map, length_seq. split; [lia|].
      rewrite firstn_app, Nat.sub_diag, firstn_all. simpl. apply app_nil_r.
    - injection Hv as <-. split; [lia|apply firstn_all]. }
  py_inv H. injection H as <-. destruct Hlen as [Hl Hf].
  split; [lia|]. exists v0, frate, ft. auto.
Qed.

Lemma times_from_bpod_covers_video_witness :
  (5 <= Z.of_nat (length [0; 0.1; 0.2; 0.30000000000000004; 0.4]%float))%Z
  /\ exists st frate frame_times,
       Camera.trials_loop 0
         [{| Camera.Port1In := Some [0; 0.1; 0.2]%float;
             Camera.Port1Out := Some [0.05; 0.15; 0.25]%float |}]
         {| Camera.cam_times := []; Camera.n_frames := 0; Camera.n_out_of_sync := 0 |}
       = Ok st
       /\ Camera.interpolate_trials st = Ok (frate, frame_times)
       /\ Z.of_nat (length [0; 0.1; 0.2; 0.30000000000000004; 0.4]%float)
          = Z.max 5 (Z.of_nat (length frame_times))
       /\ firstn (length frame_times) [0; 0.1; 0.2; 0.30000000000000004; 0.4]%float
          = frame_times.
Proof.
  apply (times_from_bpod_covers_video
           [{| Camera.Port1In := Some [0; 0.1; 0.2]%float;
               Camera.Port1Out := Some [0.05; 0.15; 0.25]%float |}] 5).
  vm_compute. reflexivity.
Defined.

(** ** The passive audio front classifier *)

Module PassiveFacts.

Local Open Scope float_scope.

Lemma length_mask_select {A B : Type} (arr : list A) (p : B -> bool) : forall l out,
  Np.mask_select arr (map p l) = Ok out -> length out = length (filter p l).
Proof.
  unfold Np.mask_select. intros l out.
  destruct (Nat.eqb_spec (length arr) (length (map p l))) as [E|E]; [|discriminate].
  intros H. injection H as <-. rewrite length_map in E. clear -E.
  revert l E. induction arr as [|a arr IH]; intros [|b l] E; simpl in *; try lia.
  destruct (p b); simpl; rewrite IH by lia; reflexivity.
Qed.

Lemma mask_select_ok {A B : Type} (arr : list A) (p : B -> bool) (l : list B) :
  length arr = length l -> exists out, Np.mask_select arr (map p l) = Ok out.
Proof.
  intros E. unfold Np.mask_select. rewrite length_map, E, Nat.eqb_refl. eauto.
Qed.

Lemma length_sub_broadcast_same x y out :
  length x = length y -> Np.sub_broadcast x y = Ok out -> length out = length x.
Proof.
  unfold Np.sub_broadcast. intros E. rewrite E, Nat.eqb_refl.
  intros H. injection H as <-. rewrite length_map, length_combine. lia.
Qed.

(** Two classes that exclude each other do not cover a list with an entry
    in neither. *)
Lemma classes_miss_one {A : Type} (p q : A -> bool) (l : list A) :
  (forall x, p x = true -> q x = false) ->
  (exists x, In x l /\ p x = false /\ q x = false) ->
  (length (filter p l) + length (filter q l) < length l)%nat.
Proof.
  intros Hex. induction l as [|a l IH]; intros (x & Hin & Hp & Hq).
  - destruct Hin.
  - assert (Hle : (length (filter p l) + length (filter q l) <= length l)%nat).
    { clear -Hex. induction l as [|b l IHl]; simpl; [lia|].
      destruct (p b) eqn:Ep; [rewrite (Hex b Ep)|destruct (q b)]; simpl; lia. }
    simpl. destruct Hin as [->|Hin].
    + rewrite Hp, Hq. lia.
    + specialize (IH (ex_intro _ x (conj Hin (conj Hp Hq)))).
      destruct (p a) eqn:Ep; [rewrite (Hex a Ep)|destruct (q a)]; simpl; lia.
Qed.

Lemma tone_not_noise d : (d <? 0.3) = true -> (0.3 <? d) = false.
Proof.
  intros H. destruct (0.3 <? d) eqn:E; [|reflexivity].
  pose proof (FloatFacts.ltb_trans _ _ _ E H) as Hc.
  vm_compute in Hc. discriminate.
Qed.

End PassiveFacts.

(** C10. Sounds are split by their duration [off - on]: a tone when it is
    below 0.3, a noise when it is above.  A sound whose duration equals 0.3
    is in neither class; with one in the input the tones and the noises are
    fewer than the onsets, and the extraction raises [AssertionError]. *)
Theorem passive_audio_threshold_unclassified
  (audio : Camera.Audio.t) (soundOn_times soundOff_times diff : list float)
  (d : float) :
  Np.mask_select (Camera.Audio.times audio)
    (map (fun p => 0 <? p)%Z (Camera.Audio.polarities audio)) = Ok soundOn_times ->
  Np.mask_select (Camera.Audio.times audio)
    (map (fun p => p <? 0)%Z (Camera.Audio.polarities audio)) = Ok soundOff_times ->
  Np.sub_broadcast soundOff_times soundOn_times = Ok diff ->
  In d diff -> (d =? 0.3)%float = true ->
  (d <? 0.3)%float = false /\ (0.3 <? d)%float = false
  /\ (length (filter (fun d => d <? 0.3)%float diff)
      + length (filter (fun d => 0.3 <? d)%float diff) < length diff)%nat
  /\ Passive.extract_passiveAudio_intervals audio = Raise AssertionError.
Proof.
  intros Hon Hoff Hdiff Hin Heq.
  destruct (FloatFacts.eqb_not_ltb _ _ Heq) as [Hlt Hgt].
  assert (Hcount : (length (filter (fun d => d <? 0.3)%float diff)
                    + length (filter (fun d => 0.3 <? d)%float diff) < length diff)%nat).
  { apply PassiveFacts.classes_miss_one.
    - apply PassiveFacts.tone_not_noise.
    - exists d. auto. }
  repeat split; try assumption.
  unfold Passive.extract_passiveAudio_intervals. rewrite Hon, Hoff. cbn [bind].
  destruct (Nat.eqb_spec (length soundOn_times) (Passive.NTONES + Passive.NNOISES))
    as [Eon|]; [|reflexivity].
  destruct (Nat.eqb_spec (length soundOff_times) (Passive.NTONES + Passive.NNOISES))
    as [Eoff|]; [|reflexivity].
  cbn [bind assert]. rewrite Hdiff. cbn [bind].
  assert (Hld : length diff = length soundOff_times).
  { apply PassiveFacts.length_sub_broadcast_same in Hdiff; congruence. }
  destruct (PassiveFacts.mask_select_ok soundOn_times (fun d => d <? 0.3)%float diff
              ltac:(congruence)) as [toneOn HtoneOn].
  destruct (PassiveFacts.mask_select_ok soundOff_times (fun d => d <? 0.3)%float diff
              ltac:(congruence)) as [toneOff HtoneOff].
  destruct (PassiveFacts.mask_select_ok soundOn_times (fun d => 0.3 <? d)%float diff
              ltac:(congruence)) as [noiseOn HnoiseOn].
  destruct (PassiveFacts.mask_select_ok soundOff_times (fun d => 0.3 <? d)%float diff
              ltac:(congruence)) as [noiseOff HnoiseOff].
  rewrite HtoneOn, HtoneOff, HnoiseOn, HnoiseOff. cbn [bind].
  apply PassiveFacts.length_mask_select in HtoneOn, HtoneOff, HnoiseOn, HnoiseOff.
  destruct (Nat.eqb_spec (length toneOn) Passive.NTONES) as [E1|]; [|reflexivity].
  destruct (Nat.eqb_spec (length toneOff) Passive.NTONES) as [E2|]; [|reflexivity].
  destruct (Nat.eqb_spec (length noiseOn) Passive.NNOISES) as [E3|]; [|reflexivity].
  exfalso. unfold Passive.NTONES, Passive.NNOISES in *. lia.
Qed.

Lemma passive_audio_threshold_unclassified_witness :
  Passive.extract_passiveAudio_intervals Passive.boundary_session = Raise AssertionError.
Proof.
  eapply (passive_audio_threshold_unclassified Passive.boundary_session).
  - vm_compute. reflexivity.
  - vm_compute. reflexivity.
  - vm_compute. reflexivity.
  - left. reflexivity.
  - vm_compute. reflexivity.
Defined.

(** * Further properties *)

Local Open Scope float_scope.

(** ** The rounding of a number is a number *)

Module NanFacts.
Local Open Scope Z_scope.

Lemma shr_1_nonneg mrs : 0 <= shr_m mrs -> 0 <= shr_m (shr_1 mrs).
Proof.
  destruct mrs as [m r s]. cbn [shr_m]. intros H.
  destruct m as [|[p|p|]|p]; cbn; lia.
Qed.

Lemma iter_shr_1_nonneg p : forall mrs,
  0 <= shr_m mrs -> 0 <= shr_m (iter_pos shr_1 p mrs).
Proof.
  induction p; intros mrs H; cbn [iter_pos].
  - apply IHp, IHp, shr_1_nonneg, H.
  - apply IHp, IHp, H.
  - apply shr_1_nonneg, H.
Qed.

Lemma shr_fexp_nonneg m e l :
  0 <= m -> 0 <= shr_m (fst (shr_fexp prec emax m e l)).
Proof.
  intros H. unfold shr_fexp, shr.
  assert (H0 : 0 <= shr_m (shr_record_of_loc m l)) by (destruct l as [|[]]; exact H).
  destruct (fexp prec emax (Zdigits2 m + e) - e); cbn [fst]; try exact H0.
  apply iter_shr_1_nonneg, H0.
Qed.

Lemma round_aux_not_nan sx m e l :
  0 <= m -> binary_round_aux prec emax sx m e l <> S754_nan.
Proof.
  intros H. unfold binary_round_aux.
  pose proof (shr_fexp_nonneg m e l H) as H1.
  destruct (shr_fexp prec emax m e l) as [mrs' e']. cbn [fst] in H1.
  assert (H2 : 0 <= round_nearest_even (shr_m mrs') (loc_of_shr_record mrs')).
  { unfold round_nearest_even. destruct (loc_of_shr_record mrs') as [|[]]; try lia.
    destruct (Z.even (shr_m mrs')); lia. }
  pose proof (shr_fexp_nonneg _ e' loc_Exact H2) as H3.
  destruct (shr_fexp prec emax _ e' loc_Exact) as [mrs'' e'']. cbn [fst] in H3.
  destruct (shr_m mrs'') as [|p|p]; try lia; try discriminate.
  destruct (e'' <=? emax - prec); discriminate.
Qed.

Lemma normalize_not_nan m e s : binary_normalize prec emax m e s <> S754_nan.
Proof.
  unfold binary_normalize, binary_round. destruct m as [|p|p]; try discriminate.
  - destruct (shl_align p e _) as [mz ez]. apply round_aux_not_nan. lia.
  - destruct (shl_align p e _) as [mz ez]. apply round_aux_not_nan. lia.
Qed.

End NanFacts.

Module FiniteFacts.
Local Open Scope float_scope.
Import FloatFacts.

Lemma Prim2SF_neg_infinity : Prim2SF neg_infinity = S754_infinity true.
Proof. reflexivity. Qed.

Lemma isfinite_spec x :
  Np.isfinite x = true ->
  (exists s, Prim2SF x = S754_zero s) \/ (exists s m e, Prim2SF x = S754_finite s m e).
Proof.
  unfold Np.isfinite, Np.isnan. rewrite !eqb_spec, Prim2SF_infinity, Prim2SF_neg_infinity.
  destruct (Prim2SF x) as [s|[]| |s m e]; simpl; try discriminate; eauto 6.
Qed.

Lemma not_isfinite_spec x :
  Np.isfinite x = false ->
  Prim2SF x = S754_nan \/ exists s, Prim2SF x = S754_infinity s.
Proof.
  unfold Np.isfinite, Np.isnan. rewrite !eqb_spec, Prim2SF_infinity, Prim2SF_neg_infinity.
  destruct (Prim2SF x) as [s|[]| |s m e] eqn:E; simpl; try discriminate; eauto.
  unfold SFeqb, SFcompare.
  change (Pos.compare_cont Eq m m) with (m ?= m)%positive.
  rewrite Z.compare_refl, Pos.compare_refl. destruct s; discriminate.
Qed.

(** The distance between two finite values, and between [infinity] and a
    finite value, is a number. *)
Lemma dist_not_nan f x :
  Np.isfinite f = true \/ f = infinity -> Np.isfinite x = true ->
  Np.isnan (abs (f - x)) = false.
Proof.
  intros Hf Hx. destruct (Np.isnan (abs (f - x))) eqn:E; [|reflexivity].
  apply isnan_spec in E. rewrite abs_spec, sub_spec in E.
  apply isfinite_spec in Hx.
  assert (Hf' : (exists s, Prim2SF f = S754_zero s)
                \/ (exists s m e, Prim2SF f = S754_finite s m e)
                \/ Prim2SF f = S754_infinity false).
  { destruct Hf as [Hf|Hf].
    - apply isfinite_spec in Hf. tauto.
    - right. right. rewrite Hf. apply Prim2SF_infinity. }
  unfold SF64sub, SFsub in E.
  destruct Hx as [[sx Hx]|(sx & mx & ex & Hx)]; rewrite Hx in E;
    destruct Hf' as [[sf Hf']|[(sf & mf & ef & Hf')|Hf']]; rewrite Hf' in E;
    simpl in E; try (destruct sx, sf; discriminate E); try discriminate E.
  all: try (destruct sx; discriminate E).
  pose proof (NanFacts.normalize_not_nan
        (cond_Zopp sf (Zpos (fst (shl_align mf ef (Z.min ef ex))))
         - cond_Zopp sx (Zpos (fst (shl_align mx ex (Z.min ef ex)))))%Z
        (Z.min ef ex) false) as Hn.
  destruct (binary_normalize _ _ _ _ _); try discriminate E. exfalso. apply Hn. reflexivity.
Qed.

(** A value within a tolerance of a finite value is finite. *)
Lemma dist_lt_finite f x t :
  Np.isfinite f = true -> (abs (f - x) <? t) = true -> Np.isfinite x = true.
Proof.
  intros Hf H. destruct (Np.isfinite x) eqn:E; [reflexivity|].
  apply not_isfinite_spec in E. apply isfinite_spec in Hf.
  rewrite ltb_spec, abs_spec, sub_spec in H. unfold SF64sub, SFsub, SFltb in H.
  destruct E as [E|[s E]]; rewrite E in H;
    destruct Hf as [[sf Hf]|(sf & mf & ef & Hf)]; rewrite Hf in H;
    simpl in H; try discriminate H;
    destruct (Prim2SF t) as [[]|[]| |[] mt et]; simpl in H; discriminate H.
Qed.

(** A value that is not finite is within no tolerance of anything. *)
Lemma dist_invalid_not_lt f x t :
  Np.isfinite f = false -> (abs (f - x) <? t) = false.
Proof.
  intros Hf. apply not_isfinite_spec in Hf.
  rewrite ltb_spec, abs_spec, sub_spec. unfold SF64sub, SFsub, SFltb.
  destruct Hf as [Hf|[s Hf]]; rewrite Hf; [reflexivity|].
  destruct (Prim2SF x) as [[]|[]| |[] mx ex], s; simpl; try reflexivity;
    destruct (Prim2SF t) as [[]|[]| |[] mt et]; reflexivity.
Qed.

End FiniteFacts.

(** ** What the matching policy chooses *)

Module PolicyFacts.
Local Open Scope float_scope.
Import FloatFacts MatcherFacts FiniteFacts.

Lemma dists_no_nan arr mask x j tol :
  length mask = length arr ->
  (forall k, (k < length arr)%nat -> nth k mask false = false ->
             Np.isfinite (nth k arr 0) = true) ->
  (j < length arr)%nat -> nth j mask false = false ->
  (abs (nth j arr 0 - x) <? tol) = true ->
  Forall (fun y => Np.isnan y = false) (Camera.dists arr mask x).
Proof.
  intros Hl Hinv Hj Hm Hd.
  assert (Hx : Np.isfinite x = true) by (eapply dist_lt_finite; [apply Hinv|]; eassumption).
  apply Forall_forall. intros y Hy.
  destruct (In_nth _ _ 0 Hy) as (k & Hk & <-).
  rewrite length_dists in Hk by assumption.
  rewrite nth_dists by assumption.
  apply dist_not_nan; [|exact Hx].
  destruct (nth k mask false) eqn:E; [right; reflexivity|left; apply Hinv; assumption].
Qed.

Lemma min_least l m :
  Forall (fun y => Np.isnan y = false) l -> Np.min l = Ok m ->
  Np.isnan m = false /\ forall j, (j < length l)%nat -> (nth j l 0 <? m) = false.
Proof.
  intros Hn Hm. destruct l as [|a l]; [discriminate|].
  destruct (Np.argmin (a :: l)) as [r|] eqn:Hr; [|discriminate].
  destruct (NpFacts.argmin_min _ _ _ 0 Hr Hm) as [Hlt <-].
  destruct (ToleranceFacts.argmin_first_least _ _ Hn Hr) as (_ & Hleast & _).
  split; [|exact Hleast].
  rewrite Forall_forall in Hn. apply Hn. apply nth_In. exact Hlt.
Qed.

Lemma attribute_loop_preferred arr tol injective take events : forall mask out,
  length mask = length arr ->
  (forall k, (k < length arr)%nat -> nth k mask false = false ->
             Np.isfinite (nth k arr 0) = true) ->
  Camera.attribute_loop arr tol injective take mask events = Ok out ->
  forall i x z j,
    nth_error events i = Some x -> nth_error out i = Some z ->
    (j < length arr)%nat -> Camera.preferred take arr tol x z j ->
    nth j mask false = true
    \/ (injective = true
        /\ exists i', (i' < i)%nat /\ nth_error out i' = Some (Z.of_nat j)).
Proof.
  induction events as [|x0 events IH]; intros mask out Hl Hinv Hrun i x z j Hx Hz Hj Hp.
  - destruct i; discriminate.
  - simpl in Hrun. apply bind_ok in Hrun. destruct Hrun as (dmin & Hmin & Hrun).
    destruct (dmin <? tol) eqn:Hlt.
    + apply bind_ok in Hrun. destruct Hrun as (idx & Hch & Hrun).
      apply bind_ok in Hrun. destruct Hrun as (rest & Hrest & Hout).
      injection Hout as <-.
      destruct (choose_spec _ _ _ _ _ _ _ Hl Hmin Hlt Hch) as (Hi & Hd & Hfree).
      destruct i as [|i].
      * simpl in Hx, Hz. injection Hx as ->. injection Hz as <-.
        left. destruct (nth j mask false) eqn:Hmj; [reflexivity|exfalso].
        destruct Hp as [Hw [Hs|(idx' & Hidx & Hpol)]]; [lia|].
        apply Nat2Z.inj in Hidx. subst idx'.
        destruct take; simpl in Hch.
        -- destruct (NpFacts.where_first_spec _ _ _ 0 Hch) as (_ & _ & Hfirst).
           specialize (Hfirst j Hpol). rewrite nth_dists, Hmj in Hfirst by assumption.
           congruence.
        -- pose proof (ToleranceFacts.min_dists_no_nan _ _ _ _ _ Hmin Hlt) as Hn.
           destruct (ToleranceFacts.argmin_first_least _ _ Hn Hch) as (_ & Hleast & Hstrict).
           rewrite length_dists in Hleast by assumption.
           destruct Hpol as [Hcl|[Hji Heq]].
           ++ specialize (Hleast j Hj).
              rewrite !nth_dists, Hmj, Hfree in Hleast by assumption. congruence.
           ++ specialize (Hstrict j Hji).
              rewrite !nth_dists, Hmj, Hfree in Hstrict by assumption.
              apply eqb_not_ltb in Heq. destruct Heq as [_ Heq]. congruence.
      * simpl in Hx, Hz.
        assert (Hl' : length (Camera.set_mask mask idx injective) = length arr)
          by (rewrite length_set_mask; exact Hl).
        assert (Hinv' : forall k, (k < length arr)%nat ->
                  nth k (Camera.set_mask mask idx injective) false = false ->
                  Np.isfinite (nth k arr 0) = true).
        { intros k Hk Hmk. destruct (Nat.eq_dec idx k) as [->|Hne].
          - apply Hinv; assumption.
          - rewrite nth_set_mask_other in Hmk by assumption. apply Hinv; assumption. }
        destruct (IH _ _ Hl' Hinv' Hrest i x z j Hx Hz Hj Hp) as [Hm|(Hinj & i' & Hi' & Hout)].
        -- destruct (Nat.eq_dec idx j) as [->|Hne].
           ++ rewrite nth_set_mask_same in Hm by lia. subst injective.
              right. split; [reflexivity|]. exists 0%nat. split; [lia|reflexivity].
           ++ rewrite nth_set_mask_other in Hm by assumption. left. exact Hm.
        -- right. split; [exact Hinj|]. exists (S i'). split; [lia|exact Hout].
    + apply bind_ok in Hrun. destruct Hrun as (rest & Hrest & Hout).
      injection Hout as <-.
      destruct i as [|i].
      * simpl in Hx, Hz. injection Hx as ->. injection Hz as <-.
        left. destruct (nth j mask false) eqn:Hmj; [reflexivity|exfalso].
        destruct Hp as [Hw _].
        pose proof (dists_no_nan _ _ _ _ _ Hl Hinv Hj Hmj Hw) as Hn.
        destruct (min_least _ _ Hn Hmin) as [Hnm Hleast].
        rewrite length_dists in Hleast by assumption.
        specialize (Hleast j Hj). rewrite nth_dists, Hmj in Hleast by assumption.
        destruct (ltb_neg_trans _ _ dmin Hw Hnm); congruence.
      * simpl in Hx, Hz.
        destruct (IH _ _ Hl Hinv Hrest i x z j Hx Hz Hj Hp) as [Hm|(Hinj & i' & Hi' & Hout)].
        -- left. exact Hm.
        -- right. split; [exact Hinj|]. exists (S i'). split; [lia|exact Hout].
Qed.

Lemma masked_invalid_covers arr k :
  (k < length arr)%nat -> nth k (Camera.masked_invalid arr) false = false ->
  Np.isfinite (nth k arr 0) = true.
Proof.
  unfold Camera.masked_invalid. intros Hk H.
  rewrite (nth_indep _ false (negb (Np.isfinite 0))) in H by (rewrite length_map; exact Hk).
  rewrite (map_nth (fun a => negb (Np.isfinite a))) in H.
  destruct (Np.isfinite (nth k arr 0)); [reflexivity|discriminate].
Qed.

Lemma attribute_times_preferred arr events tol injective pol out :
  Camera.attribute_loop arr tol injective pol (Camera.masked_invalid arr) events = Ok out ->
  forall i x z j,
    nth_error events i = Some x -> nth_error out i = Some z ->
    (j < length arr)%nat -> Camera.preferred pol arr tol x z j ->
    injective = true
    /\ exists i', (i' < i)%nat /\ nth_error out i' = Some (Z.of_nat j).
Proof.
  intros Hrun i x z j Hx Hz Hj Hp.
  destruct (attribute_loop_preferred _ _ _ _ _ _ _ (length_masked_invalid arr)
              (masked_invalid_covers arr) Hrun i x z j Hx Hz Hj Hp) as [Hm|H]; [|exact H].
  exfalso. destruct Hp as [Hw _].
  assert (Hf : Np.isfinite (nth j arr 0) = false).
  { unfold Camera.masked_invalid in Hm.
    rewrite (nth_indep _ false (negb (Np.isfinite 0))) in Hm by (rewrite length_map; exact Hj).
    rewrite (map_nth (fun a => negb (Np.isfinite a))) in Hm.
    destruct (Np.isfinite (nth j arr 0)); [discriminate|reflexivity]. }
  rewrite (dist_invalid_not_lt _ x tol Hf) in Hw. discriminate.
Qed.

End PolicyFacts.

Module ChoiceFacts.
Import FloatFacts MatcherFacts FiniteFacts PolicyFacts.

Lemma SFeqb_ltb_trans a b c :
  SFeqb a b = true -> SFltb b c = true -> SFltb a c = true.
Proof.
  unfold SFeqb, SFltb. sf_cases a; sf_cases b; sf_cases c;
    simpl; try discriminate; try reflexivity; intros H1 H2; sf_solve.
Qed.

Lemma eqb_ltb_trans a b c : (a =? b) = true -> (b <? c) = true -> (a <? c) = true.
Proof. rewrite eqb_spec, !ltb_spec. apply SFeqb_ltb_trans. Qed.

Lemma attribute_times_first arr events tol injective take :
  Py.lower take = "first"%string ->
  Camera.attribute_times arr events tol injective take
  = Camera.attribute_loop arr tol injective Camera.First (Camera.masked_invalid arr) events.
Proof. unfold Camera.attribute_times. intros ->. reflexivity. Qed.

Lemma attribute_times_nearest arr events tol injective take :
  Py.lower take = "nearest"%string ->
  Camera.attribute_times arr events tol injective take
  = Camera.attribute_loop arr tol injective Camera.Nearest (Camera.masked_invalid arr) events.
Proof. unfold Camera.attribute_times. intros ->. reflexivity. Qed.

Lemma Forall2_nth_error {A B : Type} (P : A -> B -> Prop) l1 : forall l2 i a b,
  Forall2 P l1 l2 -> nth_error l1 i = Some a -> nth_error l2 i = Some b -> P a b.
Proof.
  induction l1 as [|a1 l1 IH]; intros l2 i a b H Ha Hb.
  - destruct i; discriminate.
  - inversion H as [|? b1 ? l2' Hp Hrest]; subst.
    destruct i as [|i]; simpl in Ha, Hb.
    + injection Ha as <-. injection Hb as <-. exact Hp.
    + eapply IH; eassumption.
Qed.

Lemma attribute_loop_index arr tol injective pol events out i x idx :
  Camera.attribute_loop arr tol injective pol (Camera.masked_invalid arr) events = Ok out ->
  nth_error events i = Some x -> nth_error out i = Some (Z.of_nat idx) ->
  (idx < length arr)%nat /\ (abs (nth idx arr 0 - x) <? tol) = true.
Proof.
  intros Hrun Hx Hz.
  apply MappingFacts.attribute_loop_within in Hrun; [|apply length_masked_invalid].
  destruct (Forall2_nth_error _ _ _ _ _ _ Hrun Hx Hz) as [H|(idx' & H & Hi & Hd)]; [lia|].
  apply Nat2Z.inj in H. subst idx'. split; assumption.
Qed.

End ChoiceFacts.

(** X6. [attribute_times] leaves an event unmatched only when it has no
    reference value left for it: if event [i] is given [-1] while reference
    value [j] is within the tolerance of it, the matching is injective and
    [j] was given to an earlier event. *)
Theorem attribute_times_unmatched
  (arr events : list float) (tol : float) (injective : bool) (take : string)
  (out : list Z) (i j : nat) (x : float) :
  Camera.attribute_times arr events tol injective take = Ok out ->
  nth_error events i = Some x -> nth_error out i = Some (-1)%Z ->
  (j < length arr)%nat -> (abs (nth j arr 0 - x) <? tol) = true ->
  injective = true
  /\ exists i', (i' < i)%nat /\ nth_error out i' = Some (Z.of_nat j).
Proof.
  intros Hrun Hx Hz Hj Hw.
  apply MatcherFacts.attribute_times_policy in Hrun. destruct Hrun as [pol Hrun].
  apply (PolicyFacts.attribute_times_preferred _ _ _ _ _ _ Hrun i x (-1)%Z j Hx Hz Hj).
  split; [exact Hw|left; reflexivity].
Qed.

Lemma attribute_times_unmatched_witness :
  true = true /\ exists i', (i' < 1)%nat /\ nth_error [0; -1]%Z i' = Some (Z.of_nat 0).
Proof.
  apply (attribute_times_unmatched [1.0] [1.02; 0.99] 0.1 true "first" [0; -1]%Z 1 0 0.99);
    try reflexivity.
  simpl. lia.
Defined.

(** X7. Under [take='first'] an event is given the lowest index it can be
    given: a reference value within tolerance at a lower index than the one
    assigned was, the matching being injective, given to an earlier
    event. *)
Theorem attribute_times_first_lowest
  (arr events : list float) (tol : float) (injective : bool) (take : string)
  (out : list Z) (i idx j : nat) (x : float) :
  Py.lower take = "first"%string ->
  Camera.attribute_times arr events tol injective take = Ok out ->
  nth_error events i = Some x -> nth_error out i = Some (Z.of_nat idx) ->
  (j < idx)%nat -> (abs (nth j arr 0 - x) <? tol) = true ->
  injective = true
  /\ exists i', (i' < i)%nat /\ nth_error out i' = Some (Z.of_nat j).
Proof.
  intros Ht Hrun Hx Hz Hj Hw.
  rewrite ChoiceFacts.attribute_times_first in Hrun by exact Ht.
  destruct (ChoiceFacts.attribute_loop_index _ _ _ _ _ _ _ _ _ Hrun Hx Hz) as [Hi _].
  apply (PolicyFacts.attribute_times_preferred _ _ _ _ _ _ Hrun i x (Z.of_nat idx) j Hx Hz);
    [lia|].
  split; [exact Hw|right]. exists idx. split; [reflexivity|exact Hj].
Qed.

Lemma attribute_times_first_lowest_witness :
  true = true /\ exists i', (i' < 1)%nat /\ nth_error [0; 1]%Z i' = Some (Z.of_nat 0).
Proof.
  apply (attribute_times_first_lowest [1.0; 1.05; 3.0] [1.02; 1.03] 0.1 true "First"
           [0; 1]%Z 1 1 0 1.03); try reflexivity.
  lia.
Defined.

(** X8. Under [take='nearest'] an event is given the closest reference
    value it can be given, and the first of them when several are as close:
    a reference value that is closer to the event than the one assigned, or
    as close and at a lower index, was, the matching being injective, given
    to an earlier event. *)
Theorem attribute_times_nearest_closest
  (arr events : list float) (tol : float) (injective : bool) (take : string)
  (out : list Z) (i idx j : nat) (x : float) :
  Py.lower take = "nearest"%string ->
  Camera.attribute_times arr events tol injective take = Ok out ->
  nth_error events i = Some x -> nth_error out i = Some (Z.of_nat idx) ->
  (j < length arr)%nat ->
  (abs (nth j arr 0 - x) <? abs (nth idx arr 0 - x)) = true
  \/ ((j < idx)%nat /\ (abs (nth j arr 0 - x) =? abs (nth idx arr 0 - x)) = true) ->
  injective = true
  /\ exists i', (i' < i)%nat /\ nth_error out i' = Some (Z.of_nat j).
Proof.
  intros Ht Hrun Hx Hz Hj Hc.
  rewrite ChoiceFacts.attribute_times_nearest in Hrun by exact Ht.
  destruct (ChoiceFacts.attribute_loop_index _ _ _ _ _ _ _ _ _ Hrun Hx Hz) as [Hi Hd].
  apply (PolicyFacts.attribute_times_preferred _ _ _ _ _ _ Hrun i x (Z.of_nat idx) j Hx Hz Hj).
  split.
  - destruct Hc as [Hc|[_ Hc]].
    + eapply FloatFacts.ltb_trans; eassumption.
    + eapply ChoiceFacts.eqb_ltb_trans; eassumption.
  - right. exists idx. split; [reflexivity|exact Hc].
Qed.

Lemma attribute_times_nearest_closest_witness :
  true = true /\ exists i', (i' < 1)%nat /\ nth_error [1; 0]%Z i' = Some (Z.of_nat 1).
Proof.
  apply (attribute_times_nearest_closest [1.0; 1.05; 3.0] [1.04; 1.03] 0.1 true "nearest"
           [1; 0]%Z 1 0 1 1.03); try reflexivity.
  - simpl. lia.
  - left. vm_compute. reflexivity.
Defined.

(** X9. On an empty reference array [attribute_times] raises [ValueError]
    at the first event, [dx.min()] having nothing to reduce; with no event
    either it returns the empty array. *)
Theorem attribute_times_empty_reference
  (events : list float) (tol : float) (injective : bool) (take : string) :
  Py.lower take = "first"%string \/ Py.lower take = "nearest"%string ->
  Camera.attribute_times [] events tol injective take
  = match events with [] => Ok [] | _ :: _ => Raise ValueError end.
Proof.
  unfold Camera.attribute_times. intros [-> | ->]; destruct events; reflexivity.
Qed.

Lemma attribute_times_empty_reference_witness :
  Camera.attribute_times [] [1.0] 0.1 true "first" = Raise ValueError.
Proof.
  apply (attribute_times_empty_reference [1.0] 0.1 true "first"). left. reflexivity.
Defined.

(** ** The extractors *)

Module ExtractFacts.

Lemma align_with_audio_length timestamps audio pin_state count extrapolate out :
  Camera.align_with_audio timestamps audio pin_state count extrapolate = Ok out ->
  length out = length count.
Proof.
  unfold Camera.align_with_audio. intros H.
  repeat py_inv H. injection H as <-.
  eapply AlignFacts.length_take. eassumption.
Qed.

Lemma length_slice_to {A : Type} (l : list A) (n : Z) :
  (0 <= n <= Z.of_nat (length l))%Z -> Z.of_nat (length (Py.slice l 0 n)) = n.
Proof.
  intros Hn. rewrite <- (Z2Nat.id n) at 1 by lia.
  rewrite BpodFacts.slice_to, length_firstn. lia.
Qed.

End ExtractFacts.

(** X10. [align_with_audio_safe] returns what [align_with_audio] returns,
    and raises what it raises, on every input; so what it returns has a
    timestamp for each frame count, and the first audio TTL is found in it
    at the frame of the first pin state change. *)
Theorem align_with_audio_safe_agrees
  (timestamps : list float) (audio : Camera.Audio.t) (pin_state : Camera.Gpio.t)
  (count : list Z) (extrapolate_missing : bool) :
  Camera.align_with_audio_safe timestamps audio pin_state count extrapolate_missing
  = Camera.align_with_audio timestamps audio pin_state count extrapolate_missing
  /\ forall out,
       Camera.align_with_audio_safe timestamps audio pin_state count extrapolate_missing
       = Ok out ->
       length out = length count
       /\ exists audio0 first_uptick,
            Py.index (Camera.Audio.times audio) 0 = Ok audio0
            /\ Py.index (Camera.Gpio.indices pin_state) 0 = Ok first_uptick
            /\ Z.of_nat (Np.searchsorted out audio0) = first_uptick.
Proof.
  split; [reflexivity|].
  intros out H. split.
  - apply (ExtractFacts.align_with_audio_length _ _ _ _ _ _ H).
  - unfold Camera.align_with_audio_safe in H.
    repeat py_inv H. injection H as <-.
    repeat match goal with
           | u : unit |- _ => destruct u
           | Ha : assert _ = Ok tt |- _ => apply assert_ok in Ha
           end.
    match goal with
    | Ha : Py.index (Camera.Audio.times audio) 0 = Ok ?a0,
      Hu : Py.index (Camera.Gpio.indices pin_state) 0 = Ok ?u,
      Hs : (Z.of_nat (Np.searchsorted _ ?a0) =? ?u)%Z = true |- _ =>
        exists a0, u; repeat split; [exact Ha|exact Hu|apply Z.eqb_eq; exact Hs]
    end.
Qed.

(** X11. When the pin state has more than one change,
    [CameraTimestampsFPGA._extract] returns as many timestamps as the video
    has frames: a longer frame counter is cut to the video, a shorter one is
    refused, and [align_with_audio] returns one timestamp for each count. *)
Theorem fpga_extract_video_length
  (sync_timestamps : list float -> list float -> py ((float -> float) * float))
  (Sync : Type) (get_sync_fronts : Sync -> Z -> py Camera.Audio.t)
  (label : Camera.camera) (sync : Sync) (chmap : option (list (string * Z)))
  (count : list Z) (gpio : Camera.Gpio.t) (ts : list float) (length_ : Z)
  (out : list float) :
  (1 < length (Camera.Gpio.indices gpio))%nat -> (0 <= length_)%Z ->
  Camera.CameraTimestampsFPGA_extract sync_timestamps Sync get_sync_fronts
    label sync chmap count (Some gpio) ts length_ = Ok out ->
  Z.of_nat (length out) = length_.
Proof.
  intros Hg Hl H. unfold Camera.CameraTimestampsFPGA_extract in H.
  py_inv H. apply Nat.ltb_lt in Hg. rewrite Hg in H.
  py_inv H. py_inv H. py_inv H. destruct v2 as [[gpio' audio'] ts'].
  py_inv H. apply ExtractFacts.align_with_audio_length in H. rewrite H.
  destruct (Z.ltb_spec length_ (Z.of_nat (length count))) as [Hlt|Hge].
  - injection Hv3 as <-. apply ExtractFacts.length_slice_to. lia.
  - py_inv Hv3. injection Hv3 as <-. destruct v3. apply assert_ok in Hv4.
    apply Z.eqb_eq in Hv4. lia.
Qed.

Lemma fpga_extract_video_length_witness :
  Z.of_nat (length [0; 1; 2; 3; 4; 5]) = 6%Z.
Proof.
  apply (fpga_extract_video_length Camera.example_fit unit Camera.example_fronts
           Camera.Left tt Camera.example_chmap [0; 1; 2; 3; 4; 5; 6; 7]%Z
           Camera.example_gpio [0; 1; 2; 3; 4; 5; 6; 7] 6).
  - simpl. lia.
  - lia.
  - vm_compute. reflexivity.
Defined.

(** X12. When the pin state has more than one change and the frame counter
    has fewer entries than the video has frames,
    [CameraTimestampsFPGA._extract] raises: [AssertionError], 'fewer counts
    than frames', once the camera fronts, the audio fronts and the pin state
    have been read and groomed. *)
Theorem fpga_extract_fewer_counts
  (sync_timestamps : list float -> list float -> py ((float -> float) * float))
  (Sync : Type) (get_sync_fronts : Sync -> Z -> py Camera.Audio.t)
  (label : Camera.camera) (sync : Sync) (chmap : option (list (string * Z)))
  (count : list Z) (gpio : Camera.Gpio.t) (ts : list float) (length_ : Z) :
  (1 < length (Camera.Gpio.indices gpio))%nat ->
  (Z.of_nat (length count) < length_)%Z ->
  (exists e,
     Camera.CameraTimestampsFPGA_extract sync_timestamps Sync get_sync_fronts
       label sync chmap count (Some gpio) ts length_ = Raise e)
  /\ forall m ch audio groomed,
       chmap = Some m -> Camera.chmap_get m "audio" = Ok ch ->
       get_sync_fronts sync ch = Ok audio ->
       (exists d, Camera.extract_camera_sync Sync get_sync_fronts sync chmap = Ok d) ->
       Camera.groom_pin_state sync_timestamps gpio audio ts = Ok groomed ->
       Camera.CameraTimestampsFPGA_extract sync_timestamps Sync get_sync_fronts
         label sync chmap count (Some gpio) ts length_ = Raise AssertionError.
Proof.
  intros Hg Hl. apply Nat.ltb_lt in Hg.
  assert (Hc : (if (length_ <? Z.of_nat (length count))%Z
                then Ok (Py.slice count 0 length_)
                else bind (assert (length_ =? Z.of_nat (length count))%Z)
                       (fun _ => Ok count)) = Raise AssertionError).
  { destruct (Z.ltb_spec length_ (Z.of_nat (length count))) as [?|_]; [lia|].
    destruct (Z.eqb_spec length_ (Z.of_nat (length count))) as [?|_]; [lia|].
    reflexivity. }
  unfold Camera.CameraTimestampsFPGA_extract. rewrite Hg. split.
  - destruct (Camera.extract_camera_sync _ _ _ _) as [d|e]; [|eexists; reflexivity].
    cbn [bind].
    destruct (Camera.chmap_get _ _) as [ch|e]; [|eexists; reflexivity]. cbn [bind].
    destruct (get_sync_fronts sync ch) as [audio|e]; [|eexists; reflexivity]. cbn [bind].
    destruct (Camera.groom_pin_state _ _ _ _) as [[[g a] t]|e]; [|eexists; reflexivity].
    cbn [bind]. rewrite Hc. eexists. reflexivity.
  - intros m ch audio [[g a] t] -> Hch Ha [d ->] Hgroom. cbn [bind].
    rewrite Hch. cbn [bind]. rewrite Ha. cbn [bind]. rewrite Hgroom. cbn [bind].
    rewrite Hc. reflexivity.
Qed.

Lemma fpga_extract_fewer_counts_witness :
  Camera.CameraTimestampsFPGA_extract Camera.example_fit unit Camera.example_fronts
    Camera.Left tt Camera.example_chmap [0; 1; 2; 3; 4]%Z (Some Camera.example_gpio)
    [0; 1; 2; 3; 4; 5; 6; 7] 6
  = Raise AssertionError.
Proof.
  eapply (proj2 (fpga_extract_fewer_counts Camera.example_fit unit Camera.example_fronts
           Camera.Left tt Camera.example_chmap [0; 1; 2; 3; 4]%Z
           Camera.example_gpio [0; 1; 2; 3; 4; 5; 6; 7] 6 _ _)).
  - reflexivity.
  - reflexivity.
  - reflexivity.
  - eexists. reflexivity.
  - vm_compute. reflexivity.
  Unshelve.
  + simpl. lia.
  + simpl. lia.
Defined.

(** X13. Without a pin state, or with a pin state of one change at most,
    [CameraTimestampsFPGA._extract] returns the fronts at the even places of
    the sync channel of its own camera, as [extract_camera_sync] reads
    them. *)
Theorem fpga_extract_unaligned
  (sync_timestamps : list float -> list float -> py ((float -> float) * float))
  (Sync : Type) (get_sync_fronts : Sync -> Z -> py Camera.Audio.t)
  (label : Camera.camera) (sync : Sync) (chmap : option (list (string * Z)))
  (count : list Z) (gpio : option Camera.Gpio.t) (ts : list float) (length_ : Z)
  (out : list float) :
  (forall g, gpio = Some g -> (length (Camera.Gpio.indices g) <= 1)%nat) ->
  Camera.CameraTimestampsFPGA_extract sync_timestamps Sync get_sync_fronts
    label sync chmap count gpio ts length_ = Ok out ->
  exists m ch fronts,
    chmap = Some m
    /\ Camera.chmap_get m
         match label with
         | Camera.Left => "left_camera"
         | Camera.Right => "right_camera"
         | Camera.Body => "body_camera"
         end%string = Ok ch
    /\ get_sync_fronts sync ch = Ok fronts
    /\ out = Py.evens (Camera.Audio.times fronts).
Proof.
  intros Hg H. unfold Camera.CameraTimestampsFPGA_extract in H.
  py_inv H.
  assert (Hout : out = Camera.camera_times_get v label).
  { destruct gpio as [g|].
    - specialize (Hg g eq_refl).
      destruct (Nat.ltb_spec 1 (length (Camera.Gpio.indices g))) as [?|_]; [lia|].
      injection H as <-. reflexivity.
    - injection H as <-. reflexivity. }
  clear H. unfold Camera.extract_camera_sync in Hv.
  py_inv Hv. destruct chmap as [[|kv m]|]; try discriminate. injection Hv0 as <-.
  repeat py_inv Hv. injection Hv as <-.
  exists (kv :: m). destruct label; simpl in Hout; subst out; eauto 8.
Qed.

Lemma fpga_extract_unaligned_witness :
  exists m ch fronts,
    Camera.example_chmap = Some m
    /\ Camera.chmap_get m "body_camera" = Ok ch
    /\ Camera.example_fronts tt ch = Ok fronts
    /\ [0; 1; 2; 3; 4; 5; 6; 7] = Py.evens (Camera.Audio.times fronts).
Proof.
  apply (fpga_extract_unaligned Camera.example_fit unit Camera.example_fronts
           Camera.Body tt Camera.example_chmap [0; 1; 2]%Z None [0; 1; 2] 3).
  - intros g Hg. discriminate Hg.
  - vm_compute. reflexivity.
Defined.

Module RangeFacts.

Lemma mask_select_filter {A : Type} (p : A -> bool) (l out : list A) :
  Np.mask_select l (map p l) = Ok out -> out = filter p l.
Proof.
  unfold Np.mask_select. rewrite length_map, Nat.eqb_refl. intros H. injection H as <-.
  induction l as [|a l IH]; [reflexivity|]. simpl.
  destruct (p a); simpl; rewrite IH; reflexivity.
Qed.

Lemma filter_all {A : Type} (p : A -> bool) (l : list A) :
  forallb p l = true -> filter p l = l.
Proof.
  induction l as [|a l IH]; [reflexivity|]. simpl. intros H.
  apply andb_true_iff in H. destruct H as [Ha Hl]. rewrite Ha, IH by exact Hl. reflexivity.
Qed.

Lemma kept_indices (gpio g : Camera.Gpio.t) (size : Z) :
  (if existsb (fun i => size <=? i)%Z (Camera.Gpio.indices gpio)
   then Camera.gpio_keep gpio (map (fun i => i <? size)%Z (Camera.Gpio.indices gpio))
   else Ok gpio) = Ok g ->
  Camera.Gpio.indices g = filter (fun i => i <? size)%Z (Camera.Gpio.indices gpio).
Proof.
  intros H. destruct (existsb _ _) eqn:E.
  - unfold Camera.gpio_keep in H. py_inv H. py_inv H. py_inv H. injection H as <-.
    simpl. apply mask_select_filter. exact Hv.
  - injection H as <-. symmetry. apply filter_all.
    apply forallb_forall. intros i Hi.
    assert (Hn : (size <=? i)%Z = false).
    { destruct (size <=? i)%Z eqn:E'; [|reflexivity].
      assert (existsb (fun i => size <=? i)%Z (Camera.Gpio.indices gpio) = true)
        by (apply existsb_exists; eauto).
      congruence. }
    apply Z.leb_gt in Hn. apply Z.ltb_lt. exact Hn.
Qed.

Lemma index_range {A : Type} (l : list A) (i : Z) (a : A) :
  Py.index l i = Ok a -> (- Z.of_nat (length l) <= i < Z.of_nat (length l))%Z.
Proof.
  unfold Py.index. destruct (Z.ltb_spec i 0) as [Hi|Hi].
  - destruct (Z.leb_spec 0 (i + Z.of_nat (length l))) as [H1|H1]; [|discriminate].
    intros _. lia.
  - destruct (Z.leb_spec 0 i) as [_|?]; [|lia].
    destruct (Z.ltb_spec i (Z.of_nat (length l))) as [H1|H1]; [|discriminate].
    intros _. lia.
Qed.

Lemma take_range {A : Type} (l : list A) idx : forall out,
  Np.take l idx = Ok out ->
  Forall (fun i => - Z.of_nat (length l) <= i < Z.of_nat (length l))%Z idx.
Proof.
  induction idx as [|i idx IH]; intros out H; [constructor|].
  simpl in H. py_inv H. py_inv H. constructor.
  - eapply index_range. eassumption.
  - eapply IH. eassumption.
Qed.

End RangeFacts.

(** X14. [groom_pin_state] drops the pin state changes at frames past the
    last camera time and keeps the others in their order: the changes it
    returns index the camera times, it gives a time to each of them, and it
    returns as many camera times as it was given. *)
Theorem groom_pin_state_in_range
  (sync_timestamps : list float -> list float -> py ((float -> float) * float))
  (gpio gpio' : Camera.Gpio.t) (audio audio' : Camera.Audio.t) (ts ts' : list float) :
  Camera.groom_pin_state sync_timestamps gpio audio ts = Ok (gpio', audio', ts') ->
  Camera.Gpio.indices gpio'
  = filter (fun i => i <? Z.of_nat (length ts))%Z (Camera.Gpio.indices gpio)
  /\ Forall (fun i => - Z.of_nat (length ts) <= i < Z.of_nat (length ts))%Z
       (Camera.Gpio.indices gpio')
  /\ length ts' = length ts
  /\ exists times,
       Camera.Gpio.times gpio' = Some times
       /\ length times = length (Camera.Gpio.indices gpio').
Proof.
  unfold Camera.groom_pin_state. intros H.
  py_inv H. apply RangeFacts.kept_indices in Hv.
  repeat py_inv H.
  match goal with
  | Hr : (let (_, _) := ?fit in _) = _ |- _ =>
      destruct fit as [fcn drift]; injection Hr as <- <- <-
  end.
  cbn [Camera.Gpio.indices Camera.Gpio.times].
  match goal with
  | Ht : Np.take ts (Camera.Gpio.indices _) = Ok ?frames |- _ =>
      pose proof (RangeFacts.take_range _ _ _ Ht) as Hr;
      apply AlignFacts.length_take in Ht
  end.
  repeat split.
  - exact Hv.
  - exact Hr.
  - apply length_map.
  - eexists. split; [reflexivity|]. rewrite length_map. assumption.
Qed.

Lemma groom_pin_state_in_range_witness :
  [2; 4]%Z = filter (fun i => i <? Z.of_nat (length [0; 1; 2; 3; 4; 5]))%Z [2; 4; 6; 9]%Z
  /\ Forall (fun i => - Z.of_nat (length [0; 1; 2; 3; 4; 5]) <= i
                      < Z.of_nat (length [0; 1; 2; 3; 4; 5]))%Z [2; 4]%Z
  /\ length [0; 1; 2; 3; 4; 5] = length [0; 1; 2; 3; 4; 5]
  /\ exists times, Some [2; 4] = Some times /\ length times = length [2; 4]%Z.
Proof.
  apply (groom_pin_state_in_range Camera.example_fit
           {| Camera.Gpio.indices := [2; 4; 6; 9]%Z;
              Camera.Gpio.polarities := [1; -1; 1; -1]%Z;
              Camera.Gpio.times := None |}
           {| Camera.Gpio.indices := [2; 4]%Z;
              Camera.Gpio.polarities := [1; -1]%Z;
              Camera.Gpio.times := Some [2; 4] |}
           {| Camera.Audio.times := [2.5; 4.5];
              Camera.Audio.polarities := [1; -1]%Z |}
           {| Camera.Audio.times := [2.5; 4.5];
              Camera.Audio.polarities := [1; -1]%Z |}
           [0; 1; 2; 3; 4; 5] [0; 1; 2; 3; 4; 5]).
  vm_compute. reflexivity.
Defined.

(** ** Where the values returned come from *)

Module ProvenanceFacts.

Lemma attribute_loop_app arr tol pol e1 : forall e2 mask,
  length mask = length arr ->
  Camera.attribute_loop arr tol false pol mask (e1 ++ e2)
  = bind (Camera.attribute_loop arr tol false pol mask e1) (fun o1 =>
    bind (Camera.attribute_loop arr tol false pol mask e2) (fun o2 => Ok (o1 ++ o2))).
Proof.
  induction e1 as [|x e1 IH]; intros e2 mask Hl.
  - simpl. destruct (Camera.attribute_loop arr tol false pol mask e2); reflexivity.
  - cbn [app Camera.attribute_loop].
    destruct (Np.min (Camera.dists arr mask x)) as [dmin|e] eqn:Hmin; [|reflexivity].
    cbn [bind]. destruct (dmin <? tol) eqn:Hlt.
    + destruct (Camera.choose pol tol (Camera.dists arr mask x)) as [idx|e] eqn:Hch;
        [|reflexivity].
      cbn [bind].
      destruct (MatcherFacts.choose_spec _ _ _ _ _ _ _ Hl Hmin Hlt Hch) as (_ & _ & Hfree).
      rewrite (MatcherFacts.set_mask_id _ _ Hfree), IH by exact Hl.
      destruct (Camera.attribute_loop arr tol false pol mask e1); [|reflexivity].
      cbn [bind].
      destruct (Camera.attribute_loop arr tol false pol mask e2); reflexivity.
    + rewrite IH by exact Hl.
      destruct (Camera.attribute_loop arr tol false pol mask e1); [|reflexivity].
      cbn [bind].
      destruct (Camera.attribute_loop arr tol false pol mask e2); reflexivity.
Qed.

Lemma take_In {A : Type} (l : list A) idx : forall out,
  Np.take l idx = Ok out -> Forall (fun a => In a l) out.
Proof.
  induction idx as [|i idx IH]; intros out H; simpl in H.
  - injection H as <-. constructor.
  - py_inv H. py_inv H. injection H as <-. constructor; [|eapply IH; eassumption].
    unfold Py.index in Hv. destruct (_ && _)%bool; [|discriminate].
    destruct (nth_error l _) eqn:E; [|discriminate].
    injection Hv as <-. eapply nth_error_In. exact E.
Qed.

Lemma evens_In {A : Type} (a : A) : forall n l,
  (length l <= n)%nat -> In a (Py.evens l) -> In a l.
Proof.
  induction n as [|n IH]; intros [|x [|y l]] Hn H; simpl in *; try lia; try tauto.
  destruct H as [H|H]; [tauto|]. right. right. apply IH; [lia|exact H].
Qed.

Lemma odds_In {A : Type} (a : A) (l : list A) : In a (Py.odds l) -> In a l.
Proof.
  destruct l as [|x l]; simpl; [tauto|]. intros H. right.
  eapply evens_In; [apply Nat.le_refl|exact H].
Qed.

Lemma broadcast_to_In {A : Type} (n : nat) (v out : list A) (a : A) :
  Np.broadcast_to n v = Ok out -> In a out -> In a v.
Proof.
  unfold Np.broadcast_to. destruct (length v =? n)%nat.
  - intros H. injection H as <-. tauto.
  - destruct v as [|b [|c v]]; try discriminate.
    intros H. injection H as <-. intros Hin. apply repeat_spec in Hin. subst. left.
    reflexivity.
Qed.

Lemma interleave_In {A : Type} (a : A) : forall ev od,
  In a (Np.interleave ev od) -> In a ev \/ In a od.
Proof.
  induction ev as [|e ev IH]; intros [|o od] H; simpl in *; try tauto.
  destruct H as [H|[H|H]]; try tauto.
  destruct (IH _ H); tauto.
Qed.

Lemma slice_In {A : Type} (l : list A) (lo hi : Z) (a : A) :
  In a (Py.slice l lo hi) -> In a l.
Proof.
  unfold Py.slice. intros H.
  set (n := Z.to_nat (Py.clip (Z.of_nat (length l)) lo)) in *.
  set (k := Z.to_nat _) in H.
  rewrite <- (firstn_skipn n l). apply in_or_app. right.
  rewrite <- (firstn_skipn k (skipn n l)). apply in_or_app. left. exact H.
Qed.

Lemma extend_timestamps_In ts n_missing extrapolate out t :
  Camera.extend_timestamps ts n_missing extrapolate = Ok out -> In t out ->
  In t ts
  \/ if extrapolate
     then exists (k : nat) frate last,
            (k < Z.to_nat n_missing)%nat
            /\ py_round (1 / Np.nanmedian (Np.diff ts)) = Ok frate
            /\ Py.index ts (-1) = Ok last
            /\ t = Np.of_Z (Z.of_nat (S k)) / Np.of_Z frate + last
     else Np.isnan t = true.
Proof.
  unfold Camera.extend_timestamps. intros H Hin.
  apply bind_ok in H. destruct H as (frate & Hfrate & H).
  apply bind_ok in H. destruct H as (to_app & Happ & H).
  injection H as <-. apply in_app_or in Hin. destruct Hin as [Hin|Hin]; [left; exact Hin|].
  right. destruct extrapolate.
  - apply bind_ok in Happ. destruct Happ as (last_ts & Hlast & Happ).
    injection Happ as <-. apply in_map_iff in Hin. destruct Hin as (x & <- & Hx).
    unfold Np.arange1 in Hx. apply in_map_iff in Hx. destruct Hx as (k & <- & Hk).
    apply in_seq in Hk.
    exists k, frate, last_ts. repeat split; [lia|exact Hfrate|exact Hlast].
  - injection Happ as <-. apply repeat_spec in Hin. subst t. reflexivity.
Qed.

Lemma evens_interleave {A : Type} (ev : list A) : forall od,
  (length od <= length ev <= S (length od))%nat ->
  Py.evens (Np.interleave ev od) = ev /\ Py.odds (Np.interleave ev od) = od.
Proof.
  induction ev as [|e ev IH]; intros [|o od] H; simpl in *; try lia.
  - split; reflexivity.
  - destruct ev; simpl in *; [split; reflexivity|lia].
  - destruct (IH od ltac:(lia)) as [He Ho]. unfold Py.odds in Ho.
    split.
    + f_equal. exact He.
    + f_equal. destruct (Np.interleave ev od) eqn:E; [|exact Ho].
      destruct ev, od; simpl in *; try discriminate; try lia. reflexivity.
Qed.

Lemma assign_fronts_In ts changes audio_times fronts first out :
  Camera.assign_fronts ts changes audio_times fronts first = Ok out ->
  Forall (fun t => In t fronts) out.
Proof.
  unfold Camera.assign_fronts. intros H. repeat py_inv H.
  eapply take_In. exact H.
Qed.

Lemma groom_audio_fronts gpio audio ts audio_ :
  Camera.groom_audio gpio audio ts = Ok audio_ ->
  Forall (fun t => In t (Py.evens (Camera.Audio.times audio)))
    (Py.evens (Camera.Audio.times audio_))
  /\ Forall (fun t => In t (Py.odds (Camera.Audio.times audio)))
       (Py.odds (Camera.Audio.times audio_)).
Proof.
  unfold Camera.groom_audio. intros H. repeat py_inv H. injection H as <-.
  cbn [Camera.Audio.times].
  match goal with
  | Hon : Camera.assign_fronts _ _ _ (Py.evens _) _ = Ok ?on,
    Hoff : Camera.assign_fronts _ _ _ (Py.odds _) _ = Ok ?off,
    Hev : Np.broadcast_to _ ?on = Ok ?ev,
    Hod : Np.broadcast_to _ ?off = Ok ?od |- _ =>
      apply assign_fronts_In in Hon, Hoff;
      pose proof (GroomFacts.length_broadcast_to _ _ _ Hev) as Lev;
      pose proof (GroomFacts.length_broadcast_to _ _ _ Hod) as Lod;
      assert (Hlen : (length od <= length ev <= S (length od))%nat);
      [rewrite Lev, Lod;
       match goal with
       | |- (?n / 2 <= (?n + 1) / 2 <= _)%nat =>
           pose proof (Nat.div_mod_eq n 2);
           pose proof (Nat.div_mod_eq (n + 1) 2);
           pose proof (Nat.mod_upper_bound n 2 ltac:(lia));
           pose proof (Nat.mod_upper_bound (n + 1) 2 ltac:(lia)); lia
       end|];
      destruct (evens_interleave ev od Hlen) as [-> ->];
      rewrite Forall_forall in Hon, Hoff; split; apply Forall_forall; intros t Ht;
      [apply Hon; eapply broadcast_to_In; eassumption
      |apply Hoff; eapply broadcast_to_In; eassumption]
  end.
Qed.

Lemma In_evens_odds {A : Type} (a : A) : forall n l,
  (length l <= n)%nat -> In a l -> In a (Py.evens l) \/ In a (Py.odds l).
Proof.
  induction n as [|n IH]; intros [|x [|y l]] Hn H; simpl in *; try lia; try tauto.
  destruct H as [H|[H|H]]; try tauto.
  destruct (IH l ltac:(lia) H) as [H'|H'].
  - left. right. exact H'.
  - right. right. destruct l; [destruct H|exact H'].
Qed.

End ProvenanceFacts.

(** X26. Without injectivity the events are matched one by one, none
    changing what is left for the others: [attribute_times] on two arrays
    of events in a row is [attribute_times] on the first, then on the
    second, the two results in a row; it raises when one of them does. *)
Theorem attribute_times_noninjective_app
  (arr e1 e2 : list float) (tol : float) (take : string) :
  Camera.attribute_times arr (e1 ++ e2) tol false take
  = bind (Camera.attribute_times arr e1 tol false take) (fun o1 =>
    bind (Camera.attribute_times arr e2 tol false take) (fun o2 => Ok (o1 ++ o2))).
Proof.
  unfold Camera.attribute_times.
  destruct (String.eqb (Py.lower take) "first").
  - apply ProvenanceFacts.attribute_loop_app, MatcherFacts.length_masked_invalid.
  - destruct (String.eqb (Py.lower take) "nearest"); [|reflexivity].
    apply ProvenanceFacts.attribute_loop_app, MatcherFacts.length_masked_invalid.
Qed.

(** X27. [groom_pin_state] makes up no audio time: each onset of the
    audio it returns is an onset of the audio it was given, each offset an
    offset of it. *)
Theorem groom_pin_state_audio_subset
  (sync_timestamps : list float -> list float -> py ((float -> float) * float))
  (gpio gpio' : Camera.Gpio.t) (audio audio' : Camera.Audio.t) (ts ts' : list float) :
  Camera.groom_pin_state sync_timestamps gpio audio ts = Ok (gpio', audio', ts') ->
  Forall (fun t => In t (Py.evens (Camera.Audio.times audio)))
    (Py.evens (Camera.Audio.times audio'))
  /\ Forall (fun t => In t (Py.odds (Camera.Audio.times audio)))
       (Py.odds (Camera.Audio.times audio'))
  /\ Forall (fun t => In t (Camera.Audio.times audio)) (Camera.Audio.times audio').
Proof.
  unfold Camera.groom_pin_state. intros H. repeat py_inv H.
  match goal with
  | Hr : (let (_, _) := ?fit in _) = _ |- _ =>
      destruct fit as [fcn drift]; injection Hr as <- <- <-
  end.
  match goal with
  | Hg : (if ?c then _ else _) = Ok ?a |- _ =>
      assert (Hparts :
        Forall (fun t => In t (Py.evens (Camera.Audio.times audio)))
          (Py.evens (Camera.Audio.times a))
        /\ Forall (fun t => In t (Py.odds (Camera.Audio.times audio)))
             (Py.odds (Camera.Audio.times a)));
      [destruct c;
       [eapply ProvenanceFacts.groom_audio_fronts; eassumption
       |injection Hg as <-; split; apply Forall_forall; intros t Ht; exact Ht]|]
  end.
  destruct Hparts as [Hev Hod]. repeat split; try assumption.
  rewrite Forall_forall in Hev, Hod. apply Forall_forall. intros t Ht.
  destruct (ProvenanceFacts.In_evens_odds t _ _ (Nat.le_refl _) Ht) as [H1|H1].
  - eapply ProvenanceFacts.evens_In; [apply Nat.le_refl|]. apply Hev. exact H1.
  - apply ProvenanceFacts.odds_In. apply Hod. exact H1.
Qed.

Lemma groom_pin_state_audio_subset_witness :
  Forall (fun t => In t (Py.evens [102.5; 104.5; 106.0; 106.5; 110.5; 112.5]))
    (Py.evens [102.5; 104.5; 110.5; 112.5])
  /\ Forall (fun t => In t (Py.odds [102.5; 104.5; 106.0; 106.5; 110.5; 112.5]))
       (Py.odds [102.5; 104.5; 110.5; 112.5])
  /\ Forall (fun t => In t [102.5; 104.5; 106.0; 106.5; 110.5; 112.5])
       [102.5; 104.5; 110.5; 112.5].
Proof.
  apply (groom_pin_state_audio_subset Camera.example_fit
           {| Camera.Gpio.indices := [2; 4; 10; 12]%Z;
              Camera.Gpio.polarities := [1; -1; 1; -1]%Z;
              Camera.Gpio.times := None |}
           {| Camera.Gpio.indices := [2; 4; 10; 12]%Z;
              Camera.Gpio.polarities := [1; -1; 1; -1]%Z;
              Camera.Gpio.times := Some [2; 4; 10; 12] |}
           {| Camera.Audio.times := [102.5; 104.5; 106.0; 106.5; 110.5; 112.5];
              Camera.Audio.polarities := [1; -1; 1; -1; 1; -1]%Z |}
           {| Camera.Audio.times := [102.5; 104.5; 110.5; 112.5];
              Camera.Audio.polarities := [1; -1; 1; -1]%Z |}
           [0; 1; 2; 3; 4; 5; 6; 7; 8; 9; 10; 11; 12; 13; 14]
           [0; 1; 2; 3; 4; 5; 6; 7; 8; 9; 10; 11; 12; 13; 14]).
  vm_compute. reflexivity.
Defined.

(** X28. Each timestamp [align_with_audio] returns is one of the raw
    timestamps it kept, a slice [timestamps[start:end]] with [start] not
    negative, or one of those it appended: with
    [extrapolate_missing=False] a NaN, otherwise [(k + 1) / frate] after
    the last timestamp kept, for [k] below the number of counts the slice
    is short of and [frate] the reciprocal of the median period of the
    slice, rounded to an integer. *)
Theorem align_with_audio_provenance
  (timestamps : list float) (audio : Camera.Audio.t) (pin_state : Camera.Gpio.t)
  (count : list Z) (extrapolate_missing : bool) (out : list float) :
  Camera.align_with_audio timestamps audio pin_state count extrapolate_missing = Ok out ->
  exists start end_ kept,
    (0 <= start)%Z
    /\ kept = Py.slice timestamps start end_
    /\ Forall (fun t =>
                 In t kept
                 \/ if extrapolate_missing
                    then exists (k : nat) frate last,
                           (k < length count - length kept)%nat
                           /\ py_round (1 / Np.nanmedian (Np.diff kept)) = Ok frate
                           /\ Py.index kept (-1) = Ok last
                           /\ t = Np.of_Z (Z.of_nat (S k)) / Np.of_Z frate + last
                    else Np.isnan t = true) out.
Proof.
  unfold Camera.align_with_audio. intros H.
  repeat py_inv H. injection H as <-.
  match goal with
  | He : (if (length (Py.slice timestamps ?s ?e) <? _)%nat then _ else _) = Ok _ |- _ =>
      exists s, e, (Py.slice timestamps s e)
  end.
  split.
  { repeat match goal with
    | u : unit |- _ => destruct u
    end.
    repeat match goal with
    | Ha : _ = Ok tt |- _ => apply assert_ok in Ha; try apply Z.leb_le in Ha
    end.
    assumption. }
  split; [reflexivity|].
  match goal with
  | Ht : Np.take ?l count = Ok ?o |- _ =>
      apply ProvenanceFacts.take_In in Ht;
      eapply Forall_impl; [|exact Ht]; cbv beta
  end.
  intros t Hin.
  match goal with
  | He : (if ?c then _ else _) = Ok _ |- _ => destruct c
  end.
  - match goal with
    | He : Camera.extend_timestamps _ _ _ = Ok _ |- _ =>
        destruct (ProvenanceFacts.extend_timestamps_In _ _ _ _ _ He Hin) as [Hs|Hx]
    end.
    + left. exact Hs.
    + right. destruct extrapolate_missing; [|exact Hx].
      destruct Hx as (k & frate & last & Hk & Hf & Hl & ->). exists k, frate, last.
      repeat split; [lia|exact Hf|exact Hl].
  - match goal with
    | He : Ok _ = Ok _ |- _ => injection He as <-
    end.
    left. exact Hin.
Qed.

Lemma align_with_audio_provenance_witness :
  exists start end_ kept,
    (0 <= start)%Z
    /\ kept = Py.slice [0; 1; 2; 3; 4; 5; 6] start end_
    /\ Forall (fun t =>
                 In t kept
                 \/ exists (k : nat) frate last,
                      (k < length [0; 1; 2; 3; 4; 5; 6; 7]%Z - length kept)%nat
                      /\ py_round (1 / Np.nanmedian (Np.diff kept)) = Ok frate
                      /\ Py.index kept (-1) = Ok last
                      /\ t = Np.of_Z (Z.of_nat (S k)) / Np.of_Z frate + last)
         [1; 2; 3; 4; 5; 6; 7; 8].
Proof.
  apply (align_with_audio_provenance [0; 1; 2; 3; 4; 5; 6]
           {| Camera.Audio.times := [2.5]; Camera.Audio.polarities := [1]%Z |}
           {| Camera.Gpio.indices := [2]%Z; Camera.Gpio.polarities := [1]%Z;
              Camera.Gpio.times := Some [2.5] |}
           [0; 1; 2; 3; 4; 5; 6; 7]%Z true).
  vm_compute. reflexivity.
Defined.

(** X29. [CameraTimestampsFPGA._extract] reads the three camera channels,
    whatever its own camera: when the channel map lacks one of them it
    raises, [KeyError] unless reading an earlier channel has raised
    before. *)
Theorem fpga_extract_needs_all_cameras
  (sync_timestamps : list float -> list float -> py ((float -> float) * float))
  (Sync : Type) (get_sync_fronts : Sync -> Z -> py Camera.Audio.t)
  (label : Camera.camera) (sync : Sync) (m : list (string * Z))
  (count : list Z) (gpio : option Camera.Gpio.t) (ts : list float) (length_ : Z) :
  Camera.chmap_get m "right_camera" = Raise KeyError
  \/ Camera.chmap_get m "left_camera" = Raise KeyError
  \/ Camera.chmap_get m "body_camera" = Raise KeyError ->
  exists e,
    Camera.CameraTimestampsFPGA_extract sync_timestamps Sync get_sync_fronts
      label sync (Some m) count gpio ts length_ = Raise e
    /\ (e = KeyError \/ e = AssertionError
        \/ exists ch, get_sync_fronts sync ch = Raise e).
Proof.
  assert (Hkey : forall k e, Camera.chmap_get m k = Raise e -> e = KeyError).
  { intros k e. unfold Camera.chmap_get. destruct (find _ m); congruence. }
  intros H. unfold Camera.CameraTimestampsFPGA_extract, Camera.extract_camera_sync.
  destruct m as [|kv m]; [exists AssertionError; split; [reflexivity|tauto]|].
  cbn [bind].
  destruct (Camera.chmap_get (kv :: m) "right_camera") as [c1|e1] eqn:E1; cbn [bind];
    [|exists e1; split; [reflexivity|left; eapply Hkey; exact E1]].
  destruct (get_sync_fronts sync c1) as [sr|e] eqn:Er; cbn [bind];
    [|exists e; split; [reflexivity|right; right; exists c1; exact Er]].
  destruct (Camera.chmap_get (kv :: m) "left_camera") as [c2|e2] eqn:E2; cbn [bind];
    [|exists e2; split; [reflexivity|left; eapply Hkey; exact E2]].
  destruct (get_sync_fronts sync c2) as [sl|e] eqn:El; cbn [bind];
    [|exists e; split; [reflexivity|right; right; exists c2; exact El]].
  destruct (Camera.chmap_get (kv :: m) "body_camera") as [c3|e3] eqn:E3; cbn [bind];
    [|exists e3; split; [reflexivity|left; eapply Hkey; exact E3]].
  destruct H as [H|[H|H]]; discriminate H.
Qed.

Lemma fpga_extract_needs_all_cameras_witness :
  exists e,
    Camera.CameraTimestampsFPGA_extract Camera.example_fit unit Camera.example_fronts
      Camera.Left tt (Some [("left_camera"%string, 0%Z); ("audio"%string, 3%Z)])
      [0; 1; 2]%Z None [0; 1; 2] 3 = Raise e
    /\ (e = KeyError \/ e = AssertionError
        \/ exists ch, Camera.example_fronts tt ch = Raise e).
Proof.
  apply (fpga_extract_needs_all_cameras Camera.example_fit unit Camera.example_fronts
           Camera.Left tt [("left_camera"%string, 0%Z); ("audio"%string, 3%Z)]
           [0; 1; 2]%Z None [0; 1; 2] 3).
  left. reflexivity.
Defined.

(** ** Edges of the Bpod reconciler *)

Module BpodEdgeFacts.

Lemma trials_loop_no_camera trials : forall ind st,
  Forall (fun t => Camera.Port1In t = None) trials ->
  Camera.trials_loop ind trials st = Ok st.
Proof.
  induction trials as [|t trials IH]; intros ind st H; [reflexivity|].
  inversion H as [|? ? Ht Hrest]; subst. simpl.
  unfold Camera.trial_step. rewrite Ht. simpl. apply IH. exact Hrest.
Qed.

End BpodEdgeFacts.

(** X15. [CameraTimestampsBpod._extract] returns no timestamps: when the
    pin state was read it raises, at the latest where [align_with_audio]
    reads [audio['times']] on the array of audio onsets it is passed.  (With
    no pin state the function ends without [return].) *)
Theorem bpod_extract_never_aligns
  (trials : list Camera.trial) (video_frames count : list Z)
  (pin_state : Camera.Gpio.t) (audio : Camera.Audio.t) :
  exists e,
    Camera.CameraTimestampsBpod_extract trials video_frames count (Some pin_state) audio
    = Raise e.
Proof.
  assert (Ha : forall ts, exists e,
            Camera.align_with_audio_array ts (Py.evens (Camera.Audio.times audio))
              pin_state count = Raise e).
  { intros ts. unfold Camera.align_with_audio_array.
    repeat match goal with
           | |- exists e, bind ?c _ = Raise e =>
               destruct c; cbn [bind]; [|eexists; reflexivity]
           end.
    eexists. reflexivity. }
  unfold Camera.CameraTimestampsBpod_extract.
  repeat match goal with
         | |- exists e, bind (Camera.align_with_audio_array ?ts _ _ _) _ = Raise e =>
             destruct (Ha ts) as [e ->]; exists e; reflexivity
         | |- exists e, bind ?c _ = Raise e =>
             destruct c; cbn [bind]; [|eexists; reflexivity]
         end.
Qed.

(** X16. When no trial has camera pulses, [_times_from_bpod] raises
    [IndexError] if the video has frames, reading the last of no frame
    times, and returns the empty array if it has none. *)
Theorem times_from_bpod_no_camera_trials (trials : list Camera.trial) (nframes : Z) :
  Forall (fun t => Camera.Port1In t = None) trials ->
  Camera.times_from_bpod trials [nframes]
  = if (0 <? nframes)%Z then Raise IndexError else Ok [].
Proof.
  intros H. unfold Camera.times_from_bpod, Camera.frame_times_unchecked.
  rewrite BpodEdgeFacts.trials_loop_no_camera by exact H.
  cbn. destruct (0 <? nframes)%Z; reflexivity.
Qed.

Lemma times_from_bpod_no_camera_trials_witness :
  Camera.times_from_bpod
    [{| Camera.Port1In := None; Camera.Port1Out := None |};
     {| Camera.Port1In := None; Camera.Port1Out := Some [0.5] |}] [100%Z]
  = Raise IndexError.
Proof.
  apply (times_from_bpod_no_camera_trials
           [{| Camera.Port1In := None; Camera.Port1Out := None |};
            {| Camera.Port1In := None; Camera.Port1Out := Some [0.5] |}] 100).
  repeat constructor.
Defined.

(** X17. A trial with rises of the camera line and no falls (the key
    ['Port1Out'] missing) makes [_times_from_bpod] raise [IndexError],
    whatever the trials after it. *)
Theorem times_from_bpod_missing_falls
  (before after : list Camera.trial) (t : Camera.trial) (pin : list float)
  (st : Camera.trials_state) (video_frames : list Z) :
  Camera.trials_loop 0 before
    {| Camera.cam_times := []; Camera.n_frames := 0; Camera.n_out_of_sync := 0 |} = Ok st ->
  Camera.Port1In t = Some pin -> Camera.Port1Out t = None ->
  Camera.times_from_bpod (before ++ t :: after) video_frames = Raise IndexError.
Proof.
  intros Hb Hin Hout. unfold Camera.times_from_bpod, Camera.frame_times_unchecked.
  rewrite BpodFacts.trials_loop_app, Hb. cbn [bind Camera.trials_loop].
  unfold Camera.trial_step. rewrite Hin, Hout. reflexivity.
Qed.

Lemma times_from_bpod_missing_falls_witness :
  Camera.times_from_bpod
    [{| Camera.Port1In := Some [0; 0.1; 0.2]; Camera.Port1Out := Some [0.05; 0.15; 0.25] |};
     {| Camera.Port1In := Some [0.5; 0.6]; Camera.Port1Out := None |}] [5%Z]
  = Raise IndexError.
Proof.
  apply (times_from_bpod_missing_falls
           [{| Camera.Port1In := Some [0; 0.1; 0.2];
               Camera.Port1Out := Some [0.05; 0.15; 0.25] |}]
           [] {| Camera.Port1In := Some [0.5; 0.6]; Camera.Port1Out := None |}
           [0.5; 0.6]
           {| Camera.cam_times := [[0; 0.1; 0.2]]; Camera.n_frames := 3;
              Camera.n_out_of_sync := 0 |} [5%Z]); reflexivity.
Defined.

(** X18. [_times_from_bpod] wants exactly one video file of the left
    camera: with none, or with several, it raises [ValueError] once the
    trials are interpolated. *)
Theorem times_from_bpod_video_files
  (trials : list Camera.trial) (video_frames : list Z)
  (st : Camera.trials_state) (r : float * list float) :
  length video_frames <> 1%nat ->
  Camera.trials_loop 0 trials
    {| Camera.cam_times := []; Camera.n_frames := 0; Camera.n_out_of_sync := 0 |} = Ok st ->
  Camera.interpolate_trials st = Ok r ->
  Camera.times_from_bpod trials video_frames = Raise ValueError.
Proof.
  intros Hn Hloop Hint. unfold Camera.times_from_bpod, Camera.frame_times_unchecked.
  rewrite Hloop. cbn [bind]. rewrite Hint. cbn [bind]. destruct r as [frate ft].
  destruct video_frames as [|n [|n' vf]]; try reflexivity. simpl in Hn. lia.
Qed.

Lemma times_from_bpod_video_files_witness :
  Camera.times_from_bpod
    [{| Camera.Port1In := Some [0; 0.1; 0.2]; Camera.Port1Out := Some [0.05; 0.15; 0.25] |}]
    []
  = Raise ValueError.
Proof.
  eapply (times_from_bpod_video_files
           [{| Camera.Port1In := Some [0; 0.1; 0.2];
               Camera.Port1Out := Some [0.05; 0.15; 0.25] |}] []).
  - simpl. lia.
  - vm_compute. reflexivity.
  - vm_compute. reflexivity.
Defined.

Module OverlapFacts.

Lemma set_slice_empty {A : Type} (l : list A) (a b : Z) :
  (0 <= a)%Z -> (0 <= b <= a)%Z -> Np.set_slice l a b [] = Ok l.
Proof.
  intros Ha Hb. unfold Np.set_slice, Py.clip.
  destruct (Z.ltb_spec a 0) as [?|_]; [lia|].
  destruct (Z.ltb_spec b 0) as [?|_]; [lia|].
  replace (Z.to_nat (Z.min b (Z.of_nat (length l)) - Z.min a (Z.of_nat (length l))))
    with 0%nat by lia.
  cbn. rewrite Nat.add_0_r. rewrite firstn_skipn. reflexivity.
Qed.

Lemma removelast_last (l : list float) :
  l <> [] -> l = removelast l ++ [last l 0].
Proof. intros H. apply app_removelast_last. exact H. Qed.

Lemma length_removelast (l : list float) :
  l <> [] -> S (length (removelast l)) = length l.
Proof.
  intros H. rewrite (removelast_last l H) at 2. rewrite length_app. simpl. lia.
Qed.

End OverlapFacts.

(** X30. When the camera pulses are in two trials and the gap between
    them rounds to no frame period, so that [-1] frames are missing in it,
    the second trial is written from the place of the last pulse of the
    first: that pulse is not in the frame times. *)
Theorem bpod_close_trials_overwrite
  (trials : list Camera.trial) (st : Camera.trials_state) (c1 c2 : list float)
  (frate duration : float) :
  Camera.trials_loop 0 trials
    {| Camera.cam_times := []; Camera.n_frames := 0; Camera.n_out_of_sync := 0 |} = Ok st ->
  Camera.cam_times st = [c1; c2] ->
  Camera.intertrial [c1; c2] = Ok (frate, [duration], [(-1)%Z]) ->
  Camera.interpolate_trials st = Ok (frate, removelast c1 ++ c2).
Proof.
  intros Hloop Hc Hgap.
  assert (Hn : Camera.n_frames st = Camera.n_pulses (Camera.cam_times st))
    by (apply (BpodFacts.trials_loop_n_frames _ _ _ _ Hloop); reflexivity).
  destruct (BpodFacts.intertrial_spec _ _ _ _ Hgap) as (Hne & _).
  inversion Hne as [|? ? H1 Hne']; subst. inversion Hne' as [|? ? H2 _]; subst.
  unfold Camera.interpolate_trials. rewrite Hc, Hgap. cbn [bind]. rewrite Hn, Hc.
  unfold Camera.n_pulses. cbn [fold_right].
  pose proof (OverlapFacts.length_removelast c1 H1) as L1.
  assert (L2 : (0 < length c2)%nat) by (destruct c2; [congruence|simpl; lia]).
  unfold Np.zeros.
  destruct (Z.ltb_spec (Z.of_nat (length c1) + (Z.of_nat (length c2) + 0) + (-1 + 0)) 0)
    as [?|_]; [lia|].
  cbn [bind].
  replace (Z.to_nat (Z.of_nat (length c1) + (Z.of_nat (length c2) + 0) + (-1 + 0)))
    with (length c1 + (length c2 - 1))%nat by lia.
  cbn [Camera.fill_frame_times].
  pose proof (BpodFacts.set_slice_exact [] c1
                (repeat 0 (length c1 + (length c2 - 1)))) as S1.
  change (Z.of_nat (length (@nil float))) with 0%Z in S1. cbn [app] in S1.
  rewrite !Z.add_0_l. rewrite Z.add_0_l in S1.
  rewrite S1 by (rewrite repeat_length; lia). clear S1. cbn [bind].
  rewrite (BpodFacts.index_last c1 H1). cbn [bind].
  change (Camera.gap_times (last c1 0) duration (-1)) with (@nil float).
  rewrite OverlapFacts.set_slice_empty by lia. cbn [bind].
  rewrite (OverlapFacts.removelast_last c1 H1) at 1.
  rewrite <- app_assoc.
  pose proof (BpodFacts.set_slice_exact (removelast c1) c2
                ([last c1 0] ++ skipn (length c1) (repeat 0 (length c1 + (length c2 - 1)))))
    as S2.
  replace (Z.of_nat (length c1) + -1)%Z with (Z.of_nat (length (removelast c1))) by lia.
  rewrite S2.
  - cbn [bind]. f_equal. f_equal. f_equal.
    rewrite skipn_all2; [apply app_nil_r|].
    rewrite length_app, length_skipn, repeat_length. simpl. lia.
  - rewrite length_app, length_skipn, repeat_length. simpl. lia.
Qed.

Lemma bpod_close_trials_overwrite_witness :
  exists frate,
    Camera.interpolate_trials
      {| Camera.cam_times := [[0; 0.1; 0.2]; [0.24; 0.3; 0.4]]; Camera.n_frames := 6;
         Camera.n_out_of_sync := 1 |}
    = Ok (frate, [0; 0.1; 0.24; 0.3; 0.4]).
Proof.
  eexists.
  apply (bpod_close_trials_overwrite
           [{| Camera.Port1In := Some [0; 0.1; 0.2];
               Camera.Port1Out := Some [0.05; 0.15; 0.25] |};
            {| Camera.Port1In := Some [0.24; 0.3; 0.4];
               Camera.Port1Out := Some [0.26; 0.35; 0.45] |}]
           _ [0; 0.1; 0.2] [0.24; 0.3; 0.4] _ (0.24 - 0.2)).
  - vm_compute. reflexivity.
  - reflexivity.
  - vm_compute. reflexivity.
Defined.

(** ** The replay of the passive protocol *)

Module ReplayFacts.

Lemma mask_select_eq {A : Type} (arr : list A) (keep : list bool) (out : list A) :
  Np.mask_select arr keep = Ok out ->
  length arr = length keep /\ out = map fst (filter snd (combine arr keep)).
Proof.
  unfold Np.mask_select. destruct (Nat.eqb_spec (length arr) (length keep)) as [E|E];
    [|discriminate].
  intros H. injection H as <-. split; [exact E|reflexivity].
Qed.

Lemma sub_broadcast_same x y out :
  length x = length y -> Np.sub_broadcast x y = Ok out ->
  out = map (fun p => fst p - snd p) (combine x y).
Proof.
  unfold Np.sub_broadcast. intros E. rewrite E, Nat.eqb_refl.
  intros H. injection H as <-. reflexivity.
Qed.

(** The rows of the onsets and of the offsets a mask on the durations
    keeps. *)
Lemma select_rows (p : float -> bool) : forall on off,
  length on = length off ->
  combine
    (map fst (filter snd
       (combine on (map p (map (fun q => fst q - snd q) (combine off on))))))
    (map fst (filter snd
       (combine off (map p (map (fun q => fst q - snd q) (combine off on))))))
  = filter (fun r => p (snd r - fst r)) (combine on off).
Proof.
  induction on as [|a on IH]; intros [|b off] E; simpl in *; try lia; [reflexivity|].
  destruct (p (b - a)); simpl; rewrite IH by lia; reflexivity.
Qed.

Lemma filter_split {A : Type} (p q : A -> bool) (l : list A) :
  (forall x, p x = true -> q x = false) ->
  (length (filter p l) + length (filter q l) = length l)%nat ->
  Forall (fun x => p x = true \/ q x = true) l.
Proof.
  intros Hex. induction l as [|a l IH]; intros H; [constructor|].
  assert (Hle : (length (filter p l) + length (filter q l) <= length l)%nat).
  { clear -Hex. induction l as [|b l IH]; simpl; [lia|].
    destruct (p b) eqn:Ep; [rewrite (Hex _ Ep); simpl; lia|].
    destruct (q b); simpl; lia. }
  simpl in H. destruct (p a) eqn:Ep.
  - rewrite (Hex _ Ep) in H. simpl in H. constructor; [left; exact Ep|apply IH; lia].
  - destruct (q a) eqn:Eq; simpl in H; [|lia].
    constructor; [right; exact Eq|apply IH; lia].
Qed.

End ReplayFacts.

(** X19. The intervals [_extract_passiveAudio_intervals] returns pair the
    k-th onset with the k-th offset: the tones are the forty pairs shorter
    than 0.3 s, the noises the forty pairs longer than 0.3 s, in the order
    of the eighty sounds. *)
Theorem extract_passiveAudio_intervals_rows
  (audio : Camera.Audio.t) (tones noises : list (float * float)) :
  Passive.extract_passiveAudio_intervals audio = Ok (tones, noises) ->
  exists soundOn_times soundOff_times,
    Np.mask_select (Camera.Audio.times audio)
      (map (fun p => 0 <? p)%Z (Camera.Audio.polarities audio)) = Ok soundOn_times
    /\ Np.mask_select (Camera.Audio.times audio)
         (map (fun p => p <? 0)%Z (Camera.Audio.polarities audio)) = Ok soundOff_times
    /\ tones = filter (fun r => snd r - fst r <? 0.3) (combine soundOn_times soundOff_times)
    /\ noises = filter (fun r => 0.3 <? snd r - fst r) (combine soundOn_times soundOff_times)
    /\ length tones = 40%nat /\ length noises = 40%nat
    /\ length (combine soundOn_times soundOff_times) = 80%nat.
Proof.
  unfold Passive.extract_passiveAudio_intervals. intros H.
  py_inv H. py_inv H. py_inv H. py_inv H. py_inv H.
  destruct v1, v2. apply assert_ok in Hv1, Hv2.
  apply Nat.eqb_eq in Hv1, Hv2.
  assert (E : length v = length v0) by congruence.
  apply (ReplayFacts.sub_broadcast_same _ _ _ (eq_sym E)) in Hv3. subst v3.
  repeat py_inv H. injection H as <- <-.
  repeat match goal with
         | Hm : Np.mask_select _ (map _ (map _ _)) = Ok _ |- _ =>
             apply ReplayFacts.mask_select_eq in Hm; destruct Hm as [_ ->]
         | u : unit |- _ => destruct u
         | Ha : assert _ = Ok tt |- _ => apply assert_ok in Ha; apply Nat.eqb_eq in Ha
         end.
  exists v, v0.
  pose proof (ReplayFacts.select_rows (fun d => d <? 0.3) v v0 E) as Ht.
  pose proof (ReplayFacts.select_rows (fun d => 0.3 <? d) v v0 E) as Hn.
  cbv beta in Ht, Hn. unfold Passive.NTONES, Passive.NNOISES in *.
  repeat split; try assumption; rewrite length_combine; lia.
Qed.

Lemma extract_passiveAudio_intervals_rows_witness :
  length Passive.example_tones = 40%nat /\ length Passive.example_noises = 40%nat.
Proof.
  destruct (extract_passiveAudio_intervals_rows Passive.example_replay
              Passive.example_tones Passive.example_noises)
    as (on & off & _ & _ & _ & _ & Ht & Hn & _).
  - vm_compute. reflexivity.
  - split; assumption.
Defined.

(** X20. [_extract_passiveValve_intervals] returns only on eighty fronts
    of polarities that are not zero, and then forty intervals pairing the
    k-th opening with the k-th closing, each as long as the first within
    the [np.allclose] tolerance of 100 us. *)
Theorem extract_passiveValve_intervals_rows
  (bpod : Camera.Audio.t) (rows : list (float * float)) :
  Passive.extract_passiveValve_intervals bpod = Ok rows ->
  length (Camera.Audio.times bpod) = 80%nat
  /\ length rows = 40%nat
  /\ Forall (fun p => p <> 0%Z) (Camera.Audio.polarities bpod)
  /\ (exists valveOn_times valveOff_times,
        Np.mask_select (Camera.Audio.times bpod)
          (map (fun p => 0 <? p)%Z (Camera.Audio.polarities bpod)) = Ok valveOn_times
        /\ Np.mask_select (Camera.Audio.times bpod)
             (map (fun p => p <? 0)%Z (Camera.Audio.polarities bpod)) = Ok valveOff_times
        /\ rows = combine valveOn_times valveOff_times)
  /\ exists on0 off0 rest,
       rows = (on0, off0) :: rest
       /\ Forall (fun r => Passive.isclose (snd r - fst r) (off0 - on0) 1e-05 0.0001 = true)
            rows.
Proof.
  unfold Passive.extract_passiveValve_intervals. intros H.
  repeat py_inv H. injection H as <-.
  repeat match goal with
         | u : unit |- _ => destruct u
         | Ha : assert (_ =? _)%nat = Ok tt |- _ =>
             apply assert_ok in Ha; apply Nat.eqb_eq in Ha
         | Ha : assert _ = Ok tt |- _ => apply assert_ok in Ha
         end.
  unfold Passive.NVALVE in *.
  match goal with
  | Hon : Np.mask_select _ (map (fun p => 0 <? p)%Z _) = Ok ?on,
    Hoff : Np.mask_select _ (map (fun p => p <? 0)%Z _) = Ok ?off |- _ =>
      rename on into valveOn; rename off into valveOff;
      pose proof (ReplayFacts.mask_select_eq _ _ _ Hon) as [Elen Eon];
      pose proof (PassiveFacts.length_mask_select _ _ _ _ Hon) as Lon;
      pose proof (PassiveFacts.length_mask_select _ _ _ _ Hoff) as Loff
  end.
  rewrite length_map in Elen.
  assert (E : length valveOff = length valveOn) by congruence.
  match goal with
  | Hs : Np.sub_broadcast valveOff valveOn = Ok ?w |- _ =>
      apply (ReplayFacts.sub_broadcast_same _ _ _ E) in Hs; subst w
  end.
  repeat split.
  - assumption.
  - rewrite length_combine. lia.
  - assert (Hsplit : Forall (fun p => (0 <? p)%Z = true \/ (p <? 0)%Z = true)
                       (Camera.Audio.polarities bpod)).
    { apply (ReplayFacts.filter_split (fun p => (0 <? p)%Z) (fun p => (p <? 0)%Z)).
      - intros x Hx. apply Z.ltb_lt in Hx. apply Z.ltb_ge. lia.
      - lia. }
    eapply Forall_impl; [|exact Hsplit].
    intros p [Hp|Hp]; apply Z.ltb_lt in Hp; lia.
  - eauto.
  - destruct valveOn as [|on0 ons]; [discriminate|].
    destruct valveOff as [|off0 offs]; [discriminate|].
    match goal with
    | H0 : Py.index (off0 :: offs) 0 = Ok ?a, H1 : Py.index (on0 :: ons) 0 = Ok ?b |- _ =>
        injection H0 as <-; injection H1 as <-
    end.
    exists on0, off0, (combine ons offs). split; [reflexivity|].
    match goal with
    | Ha : Passive.allclose _ _ _ = true |- _ =>
        unfold Passive.allclose in Ha; rewrite forallb_forall in Ha
    end.
    apply Forall_forall. intros [a b] Hin. cbn [fst snd].
    match goal with Ha : forall x, In x _ -> _ |- _ => apply Ha end.
    apply in_map_iff. exists (b, a). split; [reflexivity|].
    clear -Hin E. change (on0 :: ons) with (on0 :: ons) in Hin.
    revert Hin. generalize (on0 :: ons) (off0 :: offs). clear.
    induction l as [|x l IH]; intros [|y l0] Hin; simpl in *; try contradiction.
    destruct Hin as [Hin|Hin]; [left; congruence|right; apply IH; exact Hin].
Qed.

Lemma extract_passiveValve_intervals_rows_witness :
  length (Camera.Audio.times Passive.example_valve) = 80%nat
  /\ Forall (fun p => p <> 0%Z) (Camera.Audio.polarities Passive.example_valve).
Proof.
  destruct (extract_passiveValve_intervals_rows Passive.example_valve
              (map (fun k => (Np.of_Z (Z.of_nat k), Np.of_Z (Z.of_nat k) + 0.05)) (seq 0 40)))
    as (Hl & _ & Hp & _).
  - vm_compute. reflexivity.
  - split; assumption.
Defined.

Module PeriodFacts.

Lemma index_nat {A : Type} (l : list A) (k : nat) (a : A) :
  Py.index l (Z.of_nat k) = Ok a <-> nth_error l k = Some a.
Proof.
  unfold Py.index. destruct (Z.ltb_spec (Z.of_nat k) 0) as [?|_]; [lia|].
  destruct (Z.leb_spec 0 (Z.of_nat k)) as [_|?]; [|lia]. rewrite Nat2Z.id. simpl.
  destruct (Z.ltb_spec (Z.of_nat k) (Z.of_nat (length l))) as [Hk|Hk].
  - destruct (nth_error l k) eqn:E; [split; congruence|].
    apply nth_error_None in E. lia.
  - split; [discriminate|]. intros E.
    assert (nth_error l k <> None) by congruence.
    apply nth_error_Some in H. lia.
Qed.

Lemma nth_error_evens {A : Type} : forall (k : nat) (l : list A),
  nth_error (Py.evens l) k = nth_error l (2 * k).
Proof.
  induction k as [|k IH]; intros [|x [|y l]]; try reflexivity.
  - simpl. destruct k; reflexivity.
  - replace (2 * S k)%nat with (S (S (2 * k))) by lia.
    cbn [Py.evens nth_error]. apply IH.
Qed.

Lemma nth_error_odds {A : Type} (k : nat) (l : list A) :
  nth_error (Py.odds l) k = nth_error l (2 * k + 1).
Proof.
  destruct l as [|x l]; [destruct k; reflexivity|].
  replace (2 * k + 1)%nat with (S (2 * k)) by lia.
  cbn [Py.odds nth_error]. apply nth_error_evens.
Qed.

Lemma slice_from {A : Type} (l : list A) (k : nat) :
  Py.slice l (Z.of_nat k) (Z.of_nat (length l)) = skipn k l.
Proof.
  unfold Py.slice, Py.clip.
  destruct (Z.ltb_spec (Z.of_nat k) 0) as [?|_]; [lia|].
  destruct (Z.ltb_spec (Z.of_nat (length l)) 0) as [?|_]; [lia|].
  rewrite Z.min_id.
  destruct (Nat.le_gt_cases k (length l)) as [Hk|Hk].
  - rewrite Z.min_l by lia. rewrite Nat2Z.id.
    apply firstn_all2. rewrite length_skipn. lia.
  - rewrite Z.min_r by lia. rewrite Z.sub_diag. cbn [Z.to_nat firstn].
    symmetry. apply skipn_all2. lia.
Qed.

Lemma nth_error_skipn {A : Type} (l : list A) (k i : nat) :
  nth_error (skipn k l) i = nth_error l (k + i).
Proof.
  revert l. induction k as [|k IH]; intros l; [reflexivity|].
  destruct l as [|x l]; [destruct i; reflexivity|]. simpl. apply IH.
Qed.

Lemma get_passive_spacers_spec stim_order spacer_times sync_times t_start t_starts t_ends :
  Passive.get_passive_spacers stim_order spacer_times sync_times
  = Ok (t_start, t_starts, t_ends) ->
  exists last,
    Py.index sync_times (-1) = Ok last
    /\ (2 * length (filter (fun s => s =? 0)%Z stim_order) = length spacer_times)%nat
    /\ nth_error (spacer_times ++ [last]) 0 = Some t_start
    /\ (forall k, nth_error t_starts k = nth_error (spacer_times ++ [last]) (2 * k + 1))
    /\ (forall k, nth_error t_ends k = nth_error (spacer_times ++ [last]) (2 * k + 2)).
Proof.
  unfold Passive.get_passive_spacers.
  destruct (Nat.eqb_spec (2 * length (filter (fun s => s =? 0)%Z stim_order))
              (length spacer_times)) as [E|E]; [|discriminate].
  cbn [negb]. intros H. py_inv H. py_inv H. injection H as <- <- <-.
  exists v. repeat split; try assumption.
  - apply (index_nat _ 0). exact Hv0.
  - intros k. apply nth_error_odds.
  - intros k. rewrite nth_error_evens.
    rewrite (slice_from _ 2).
    rewrite nth_error_skipn. f_equal. lia.
Qed.

End PeriodFacts.

(** X21. The three periods [extract_passive_periods] returns run between
    the spacers: with the spacer times and the last sync time in a row, the
    start of the passive protocol and the bounds of the three periods are
    its first seven entries, each period going from the end of a spacer to
    the start of the next spacer or to the last sync time.  Twice the number
    of spacers expected is the number of spacer times, six at least. *)
Theorem extract_passive_periods_spacers
  (stim_order : list Z) (spacer_times sync_times : list float)
  (t_start_passive s0 e0 s1 e1 s2 e2 : float) :
  Passive.extract_passive_periods stim_order spacer_times sync_times
  = Ok (t_start_passive, (s0, e0), (s1, e1), (s2, e2)) ->
  exists last,
    Py.index sync_times (-1) = Ok last
    /\ (2 * length (filter (fun s => s =? 0)%Z stim_order) = length spacer_times)%nat
    /\ (6 <= length spacer_times)%nat
    /\ firstn 7 (spacer_times ++ [last]) = [t_start_passive; s0; e0; s1; e1; s2; e2].
Proof.
  unfold Passive.extract_passive_periods. intros H.
  py_inv H. destruct v as [[t0 t_starts] t_ends].
  apply PeriodFacts.get_passive_spacers_spec in Hv.
  destruct Hv as (last & Hlast & Hn & H0 & Hs & He).
  repeat py_inv H. injection H as <- <- <- <- <- <- <-.
  repeat match goal with
         | Hi : Py.index _ ?k = Ok _ |- _ =>
             match k with
             | 0%Z => apply (PeriodFacts.index_nat _ 0) in Hi
             | 1%Z => apply (PeriodFacts.index_nat _ 1) in Hi
             | 2%Z => apply (PeriodFacts.index_nat _ 2) in Hi
             end
         end.
  rewrite Hs in *. rewrite He in *. simpl in *.
  exists last. repeat split; try assumption.
  - destruct spacer_times as [|a0 [|a1 [|a2 [|a3 [|a4 [|a5 r]]]]]]; simpl in *;
      try discriminate; try lia;
      repeat match goal with
             | Hi : nth_error [] _ = Some _ |- _ => discriminate Hi
             end.
  - destruct spacer_times as [|a0 [|a1 [|a2 [|a3 [|a4 [|a5 [|a6 r]]]]]]]; simpl in *;
      try discriminate;
      repeat match goal with
             | Hi : nth_error [] _ = Some _ |- _ => discriminate Hi
             | Hi : Some _ = Some _ |- _ => injection Hi as ->
             end; try reflexivity; try lia.
Qed.

Lemma extract_passive_periods_spacers_witness :
  exists last,
    Py.index [0; 10] (-1) = Ok last
    /\ (2 * length (filter (fun s => s =? 0)%Z [0; 1; 0; 2; 0; 3]%Z)
        = length [1; 2; 3; 4; 5; 6])%nat
    /\ (6 <= length [1; 2; 3; 4; 5; 6])%nat
    /\ firstn 7 ([1; 2; 3; 4; 5; 6] ++ [last]) = [1; 2; 3; 4; 5; 6; 10].
Proof.
  apply (extract_passive_periods_spacers [0; 1; 0; 2; 0; 3]%Z [1; 2; 3; 4; 5; 6] [0; 10]).
  vm_compute. reflexivity.
Defined.

(** X22. With fewer than three spacers expected and found,
    [extract_passive_periods] raises [IndexError]. *)
Theorem extract_passive_periods_few_spacers
  (stim_order : list Z) (spacer_times sync_times : list float) :
  (2 * length (filter (fun s => s =? 0)%Z stim_order) = length spacer_times)%nat ->
  (length (filter (fun s => s =? 0)%Z stim_order) < 3)%nat ->
  Passive.extract_passive_periods stim_order spacer_times sync_times = Raise IndexError.
Proof.
  intros E Hn. unfold Passive.extract_passive_periods, Passive.get_passive_spacers.
  apply Nat.eqb_eq in E. rewrite E. cbn [negb]. apply Nat.eqb_eq in E.
  destruct (Py.index sync_times (-1)) as [last|e] eqn:Hl.
  - cbn [bind].
    destruct spacer_times as [|a0 [|a1 [|a2 [|a3 [|a4 r]]]]]; simpl in E; try lia;
      reflexivity.
  - cbn [bind]. unfold Py.index in Hl.
    destruct (_ && _)%bool; [|congruence].
    destruct (nth_error _ _); congruence.
Qed.

Lemma extract_passive_periods_few_spacers_witness :
  Passive.extract_passive_periods [0; 1; 0; 2]%Z [1; 2; 3; 4] [0; 10] = Raise IndexError.
Proof.
  apply (extract_passive_periods_few_spacers [0; 1; 0; 2]%Z [1; 2; 3; 4] [0; 10]);
    simpl; lia.
Defined.

Module GaborFacts.

Lemma table_rows (ivs : list (float * float)) (props : list (list float)) :
  length ivs = length props ->
  forallb (fun r => (length r =? 5)%nat)
    (map (fun r => fst (fst r) :: snd (fst r) :: snd r) (combine ivs props)) = true ->
  Passive.allclose (map (fun r => snd r - fst r) ivs) 0.3 0.15 = true ->
  Forall2 (fun r pc =>
             exists start stop,
               r = start :: stop :: pc
               /\ length pc = 3%nat
               /\ Passive.isclose (stop - start) 0.3 1e-05 0.15 = true)
    (map (fun r => fst (fst r) :: snd (fst r) :: snd r) (combine ivs props)) props.
Proof.
  unfold Passive.allclose.
  revert props. induction ivs as [|iv ivs IH]; intros [|pc props] E H C;
    simpl in *; try lia; [constructor|].
  apply andb_prop in H. destruct H as [H5 H].
  apply andb_prop in C. destruct C as [C0 C].
  constructor.
  - exists (fst iv), (snd iv). split; [reflexivity|]. split; [|exact C0].
    apply Nat.eqb_eq in H5. lia.
  - apply IH; [lia|exact H|exact C].
Qed.

End GaborFacts.

(** X23. [_extract_passiveGabor_df] returns only where the module has a
    global [session_path], which the function reads without having it as a
    parameter, and the fixtures of that session load; it then returns a row
    for each row of the fixture array ["pcs"]: an interval within the
    [np.allclose] tolerance of 0.15 s of 0.3 s, followed by the three
    stimulus properties of the row, in the order of the fixture.  With the
    name unbound, as it is when the module is imported, the function does
    not return. *)
Theorem extract_passiveGabor_df_rows
  (load_settings : string -> py (list Z * Z))
  (np_load : string -> py (list (list float)))
  (session_path : option string) (fttl : Camera.Audio.t)
  (rows : list (list float)) :
  Passive.extract_passiveGabor_df load_settings np_load session_path fttl = Ok rows ->
  exists p fixture,
    session_path = Some p
    /\ Passive.load_passive_session_fixtures load_settings np_load p = Ok fixture
    /\ Forall2 (fun r pc =>
                  exists start stop,
                    r = start :: stop :: pc
                    /\ length pc = 3%nat
                    /\ Passive.isclose (stop - start) 0.3 1e-05 0.15 = true)
         rows (Passive.pcs fixture).
Proof.
  unfold Passive.extract_passiveGabor_df. intros H.
  repeat py_inv H.
  match goal with
  | p : (list float * list float)%type |- _ => destruct p as [starts ends]
  end.
  py_inv H.
  match goal with
  | u : unit, A : _ = Ok ?u' |- _ =>
      constr_eq u u'; destruct u; apply assert_ok in A; rename A into Hclose
  end.
  py_inv H.
  destruct session_path as [p|]; [|discriminate].
  match goal with
  | A : Ok p = Ok ?q |- _ => injection A as <-
  end.
  py_inv H.
  match goal with
  | A : Passive.load_passive_session_fixtures _ _ p = Ok ?f |- _ =>
      rename f into fixture; rename A into Hfix
  end.
  match type of H with
  | (if (?n =? ?m)%nat then _ else _) = _ =>
      destruct (Nat.eqb_spec n m) as [E|E]; [|discriminate]
  end.
  match type of H with
  | (if ?b then _ else _) = _ => destruct b eqn:W; [|discriminate]
  end.
  injection H as <-.
  exists p, fixture. split; [reflexivity|]. split; [exact Hfix|].
  apply GaborFacts.table_rows; assumption.
Qed.

Lemma extract_passiveGabor_df_rows_witness :
  exists p fixture,
    Some Passive.example_session_path = Some p
    /\ Passive.load_passive_session_fixtures
         Passive.example_load_settings Passive.example_np_load p = Ok fixture
    /\ Forall2 (fun r pc =>
                  exists start stop,
                    r = start :: stop :: pc
                    /\ length pc = 3%nat
                    /\ Passive.isclose (stop - start) 0.3 1e-05 0.15 = true)
         [[1.3; 1.6; 1; 1; 1]; [2.6; 2.9; 2; 2; 2]; [3.9; 4.2; 3; 3; 3];
          [5.2; 5.6; 4; 4; 4]; [6.6; 6.9; 5; 5; 5]; [7.9; 8.2; 6; 6; 6]]
         (Passive.pcs fixture).
Proof.
  apply (extract_passiveGabor_df_rows
           Passive.example_load_settings Passive.example_np_load
           (Some Passive.example_session_path) Passive.example_gabor_late).
  vm_compute. reflexivity.
Defined.

(** X24. On fewer than seven fronts [_extract_passiveGabor_df] raises
    [ValueError]: one of the slices of gaps it reduces is empty.  This is
    before the global [session_path] is read, bound or not. *)
Theorem extract_passiveGabor_df_few_fronts
  (load_settings : string -> py (list Z * Z))
  (np_load : string -> py (list (list float)))
  (session_path : option string) (fttl : Camera.Audio.t) :
  (length (Camera.Audio.times fttl) < 7)%nat ->
  Passive.extract_passiveGabor_df load_settings np_load session_path fttl
  = Raise ValueError.
Proof.
  unfold Passive.extract_passiveGabor_df, Passive.gabor_thresh.
  destruct (Camera.Audio.times fttl) as [|t0 [|t1 [|t2 [|t3 [|t4 [|t5 [|t6 r]]]]]]];
    simpl; intros H; try lia; reflexivity.
Qed.

Lemma extract_passiveGabor_df_few_fronts_witness :
  Passive.extract_passiveGabor_df
    Passive.example_load_settings Passive.example_np_load
    (Some Passive.example_session_path)
    {| Camera.Audio.times := [0; 0.3; 1.3; 1.6; 2.6; 2.9]; Camera.Audio.polarities := [] |}
  = Raise ValueError.
Proof.
  apply (extract_passiveGabor_df_few_fronts
           Passive.example_load_settings Passive.example_np_load
           (Some Passive.example_session_path)
           {| Camera.Audio.times := [0; 0.3; 1.3; 1.6; 2.6; 2.9];
              Camera.Audio.polarities := [] |}).
  simpl. lia.
Defined.

(** X25. When the first two fronts already bound a patch (their gap is
    above 0.1 s and below the threshold), [_extract_passiveGabor_df] reads
    the off time of the 'missing first stimulus' at index [-1]: the first
    row it returns ends at the last front and starts 0.3 s before it, ahead
    of the row of the first two fronts. *)
Theorem extract_passiveGabor_df_first_front
  (load_settings : string -> py (list Z * Z))
  (np_load : string -> py (list (list float)))
  (session_path : option string) (fttl : Camera.Audio.t)
  (rows : list (list float))
  (times : list float) (thresh : float) :
  times = Camera.Audio.times fttl ->
  Passive.extract_passiveGabor_df load_settings np_load session_path fttl = Ok rows ->
  Passive.gabor_thresh times = Ok thresh ->
  (nth 1 times 0 - nth 0 times 0 <? thresh) = true ->
  (0.1 <? nth 1 times 0 - nth 0 times 0) = true ->
  exists p p' rest,
    rows = (last times 0 - 0.3 :: last times 0 :: p)
           :: (nth 0 times 0 :: nth 1 times 0 :: p') :: rest.
Proof.
  unfold Passive.extract_passiveGabor_df. intros Et H Ht Hlt Hgt.
  rewrite <- Et in H. rewrite Ht in H. cbn [bind] in H. clear Et.
  destruct times as [|t0 [|t1 r]];
    [unfold Passive.gabor_thresh in Ht; discriminate Ht
    |unfold Passive.gabor_thresh in Ht; discriminate Ht|].
  cbn [nth] in Hlt, Hgt.
  cbn [Np.diff Passive.where_from] in H. rewrite Hlt, Hgt in H. cbn [andb] in H.
  cbn [map Np.take] in H.
  change (Py.index (t0 :: t1 :: r) 0) with (Ok (A:=float) t0) in H.
  cbn [bind] in H.
  py_inv H. py_inv H.
  py_inv Hv. injection Hv as <-.
  assert (Hi1 : Py.index (t0 :: t1 :: r) (0 + 1) = Ok t1).
  { unfold Py.index. cbn [length].
    destruct (Z.ltb_spec (0 + 1) 0) as [?|_]; [lia|].
    destruct (Z.leb_spec 0 (0 + 1)) as [_|?]; [|lia].
    destruct (Z.ltb_spec (0 + 1) (Z.of_nat (S (S (length r))))) as [_|?]; [|lia].
    reflexivity. }
  rewrite Hi1 in Hv0. cbn [bind] in Hv0. py_inv Hv0. injection Hv0 as <-.
  match type of H with
  | context [Py.index (0%Z :: ?l) 0] =>
      change (Py.index (0%Z :: l) 0) with (Ok (A:=Z) 0%Z) in H
  end.
  cbn [bind] in H.
  change (0 - 1 - 1 <=? 0)%Z with true in H. cbv iota in H.
  change (0 - 1)%Z with (-1)%Z in H.
  rewrite (BpodFacts.index_last (t0 :: t1 :: r)) in H by discriminate.
  cbn [bind] in H.
  match type of H with
  | context [Py.index (?a :: ?l) 0] =>
      change (Py.index (a :: l) 0) with (Ok (A:=float) a) in H
  end.
  cbn [bind combine map] in H. py_inv H. py_inv H. py_inv H.
  match type of H with
  | (if (?n =? ?m)%nat then _ else _) = _ =>
      destruct (Nat.eqb_spec n m) as [E|E]; [|discriminate]
  end.
  match type of H with
  | (if ?b then _ else _) = _ => destruct b; [|discriminate]
  end.
  injection H as <-.
  match type of E with
  | _ = length (Passive.pcs ?f) =>
      destruct (Passive.pcs f) as [|p [|p' pcs]]; try discriminate E
  end.
  exists p, p'. cbn [combine map fst snd nth]. eexists. reflexivity.
Qed.

Lemma extract_passiveGabor_df_first_front_witness :
  exists p p' rest,
    [[5.2; 5.5; 1; 1; 1]; [0; 0.3; 2; 2; 2]; [1.3; 1.6; 3; 3; 3];
     [2.6; 2.9; 4; 4; 4]; [3.9; 4.2; 5; 5; 5]; [5.2; 5.5; 6; 6; 6]]
    = (last (Camera.Audio.times Passive.example_gabor) 0 - 0.3
       :: last (Camera.Audio.times Passive.example_gabor) 0 :: p)
      :: (nth 0 (Camera.Audio.times Passive.example_gabor) 0
          :: nth 1 (Camera.Audio.times Passive.example_gabor) 0 :: p')
      :: rest.
Proof.
  apply (extract_passiveGabor_df_first_front
           Passive.example_load_settings Passive.example_np_load
           (Some Passive.example_session_path) Passive.example_gabor
           [[5.2; 5.5; 1; 1; 1]; [0; 0.3; 2; 2; 2]; [1.3; 1.6; 3; 3; 3];
            [2.6; 2.9; 4; 4; 4]; [3.9; 4.2; 5; 5; 5]; [5.2; 5.5; 6; 6; 6]]
           (Camera.Audio.times Passive.example_gabor) 1).
  - reflexivity.
  - vm_compute. reflexivity.
  - vm_compute. reflexivity.
  - vm_compute. reflexivity.
  - vm_compute. reflexivity.
Defined.
